(** * ddpt: a shallow embedding of the copy engine of [ddpt.c]

    The development follows the layout of [src/ddpt.c] (ddpt 0.93): the
    error-block journal, the command-line sanity pass, the count planner,
    the per-chunk read and write helpers, [do_copy] and the frame of [main].
    Every C function that is modelled keeps its name.  State held behind the
    [struct opts_t *] and [struct cp_state_t *] pointers is passed explicitly
    and returned; calls that leave the program (system calls, the pass-through
    layer of [ddpt_pt.c], comparisons of buffer contents) are answered by an
    environment and recorded in a log. *)

From Stdlib Require Import ZArith Lia Bool List String Ascii Permutation.
From coqutil Require Import Datatypes.RecordSetters.
Import DoubleBraceUpdate.
Import ListNotations.
Open Scope Z_scope.

(** ** C integers

    [int] is taken as 32 bits and [int64_t] as 64 bits, two's complement;
    results of arithmetic are brought back into range explicitly.  Division
    and remainder truncate towards zero ([Z.quot], [Z.rem]). *)

Definition wrap (w z : Z) : Z := (z + 2 ^ (w - 1)) mod 2 ^ w - 2 ^ (w - 1).
Definition to_int (z : Z) : Z := wrap 32 z.
Definition to_int64 (z : Z) : Z := wrap 64 z.
Definition to_uint64 (z : Z) : Z := z mod 2 ^ 64.

Definition INT_MAX : Z := 2 ^ 31 - 1.
Definition INT_MIN : Z := - 2 ^ 31.
Definition INT64_MAX : Z := 2 ^ 63 - 1.
Definition INT64_MIN : Z := - 2 ^ 63.
Definition UINT_MAX : Z := 2 ^ 32 - 1.
Definition USHRT_MAX : Z := 2 ^ 16 - 1.

Definition in_int (z : Z) : Prop := INT_MIN <= z <= INT_MAX.
Definition in_int64 (z : Z) : Prop := INT64_MIN <= z <= INT64_MAX.

(** A C scalar used as a condition. *)
Definition nz (z : Z) : bool := negb (z =? 0).

(** ** Constants of the headers

    [ddpt.h], [sg_lib.h], [config.h] and the system's [errno.h] are not part
    of the sources at hand, so the macros [ddpt.c] takes from them are
    parameters of the development.  [ddpt_h_ok] collects what [ddpt.c]
    itself relies on: file types are separate bits that "later logic can
    combine" (comment before [dd_filetype]), exit codes are positive
    ("Returns 0 on success, > 0 for error") and differ from one another, and
    [EINTR] is neither [EIO] nor [EREMOTEIO]. *)

Class ddpt_h : Type := {
  DEF_BLOCK_SIZE : Z;
  DEF_BPT_LT8 : Z;
  DEF_BPT_LT64 : Z;
  DEF_BPT_LT1024 : Z;
  DEF_BPT_LT8192 : Z;
  DEF_BPT_LT32768 : Z;
  DEF_BPT_GE32768 : Z;
  FT_OTHER : Z;
  FT_PT : Z;
  FT_REG : Z;
  FT_DEV_NULL : Z;
  FT_FIFO : Z;
  FT_BLOCK : Z;
  FT_CHAR : Z;
  FT_TAPE : Z;
  FT_ERROR : Z;
  REASON_TAPE_SHORT_READ : Z;
  SG_LIB_SYNTAX_ERROR : Z;
  SG_LIB_CAT_MEDIUM_HARD : Z;
  SG_LIB_CAT_OTHER : Z;
  SG_LIB_FILE_ERROR : Z;
  SG_LIB_FLOCK_ERR : Z;
  SG_LIB_CAT_UNIT_ATTENTION : Z;
  SG_LIB_CAT_ABORTED_COMMAND : Z;
  EIO : Z;
  EREMOTEIO : Z;
  EINTR : Z;
  ENOSPC : Z;
  ENOTTY : Z;
  EINVAL : Z;
  EOPNOTSUPP : Z;
  SG_LIB_LINUX : bool;
  SG_LIB_FREEBSD : bool;
  HAVE_GETTIMEOFDAY : bool;
  HAVE_POSIX_FADVISE : bool;
  HAVE_FDATASYNC : bool;
  HAVE_FSYNC : bool;
  HAVE_FALLOCATE : bool;
  HAVE_POSIX_FALLOCATE : bool
}.

Definition STDIN_FILENO : Z := 0.
Definition STDOUT_FILENO : Z := 1.

(** [ft & t] as a C condition. *)
Definition ft_has (ft t : Z) : bool := nz (Z.land ft t).

Record ddpt_h_ok (h : ddpt_h) : Prop := {
  def_block_size_pos : 0 < DEF_BLOCK_SIZE <= INT_MAX;
  ft_pt_bit : ft_has FT_PT FT_PT = true;
  ft_reg_bit : ft_has FT_REG FT_REG = true;
  ft_dev_null_bit : ft_has FT_DEV_NULL FT_DEV_NULL = true;
  ft_fifo_bit : ft_has FT_FIFO FT_FIFO = true;
  ft_tape_bit : ft_has FT_TAPE FT_TAPE = true;
  ft_block_bit : ft_has FT_BLOCK FT_BLOCK = true;
  ft_dev_null_pt : ft_has FT_PT FT_DEV_NULL = false;
  ft_dev_null_reg : ft_has FT_REG FT_DEV_NULL = false;
  ft_dev_null_fifo : ft_has FT_FIFO FT_DEV_NULL = false;
  ft_dev_null_tape : ft_has FT_TAPE FT_DEV_NULL = false;
  ft_dev_null_block : ft_has FT_BLOCK FT_DEV_NULL = false;
  ft_dev_null_char : ft_has FT_CHAR FT_DEV_NULL = false;
  ft_reg_pt : ft_has FT_PT FT_REG = false;
  ft_reg_fifo : ft_has FT_FIFO FT_REG = false;
  ft_reg_tape : ft_has FT_TAPE FT_REG = false;
  ft_reg_block : ft_has FT_BLOCK FT_REG = false;
  ft_reg_dev_null : ft_has FT_DEV_NULL FT_REG = false;
  ft_reg_char : ft_has FT_CHAR FT_REG = false;
  ft_fifo_pt : ft_has FT_PT FT_FIFO = false;
  ft_fifo_tape : ft_has FT_TAPE FT_FIFO = false;
  ft_fifo_reg : ft_has FT_REG FT_FIFO = false;
  ft_fifo_dev_null : ft_has FT_DEV_NULL FT_FIFO = false;
  ft_tape_pt : ft_has FT_PT FT_TAPE = false;
  ft_tape_fifo : ft_has FT_FIFO FT_TAPE = false;
  ft_tape_reg : ft_has FT_REG FT_TAPE = false;
  ft_tape_dev_null : ft_has FT_DEV_NULL FT_TAPE = false;
  syntax_error_pos : 0 < SG_LIB_SYNTAX_ERROR <= INT_MAX;
  medium_hard_pos : 0 < SG_LIB_CAT_MEDIUM_HARD <= INT_MAX;
  cat_other_pos : 0 < SG_LIB_CAT_OTHER <= INT_MAX;
  file_error_pos : 0 < SG_LIB_FILE_ERROR <= INT_MAX;
  tape_short_read_pos : 0 < REASON_TAPE_SHORT_READ <= INT_MAX;
  tape_short_read_not_medium : REASON_TAPE_SHORT_READ <> SG_LIB_CAT_MEDIUM_HARD;
  tape_short_read_not_other : REASON_TAPE_SHORT_READ <> SG_LIB_CAT_OTHER;
  eio_pos : 0 < EIO <= INT_MAX;
  eremoteio_pos : 0 < EREMOTEIO <= INT_MAX;
  eintr_not_eio : EINTR <> EIO;
  eintr_not_eremoteio : EINTR <> EREMOTEIO
}.

(** The values these macros have in ddpt 0.93 built on Linux with
    sg3_utils' [sg_lib.h]; used for concrete runs only. *)
Definition linux_h : ddpt_h := {|
  DEF_BLOCK_SIZE := 512;
  DEF_BPT_LT8 := 8192;
  DEF_BPT_LT64 := 1024;
  DEF_BPT_LT1024 := 128;
  DEF_BPT_LT8192 := 16;
  DEF_BPT_LT32768 := 4;
  DEF_BPT_GE32768 := 1;
  FT_OTHER := 1;
  FT_PT := 2;
  FT_REG := 4;
  FT_DEV_NULL := 8;
  FT_FIFO := 16;
  FT_BLOCK := 32;
  FT_CHAR := 64;
  FT_TAPE := 128;
  FT_ERROR := 256;
  REASON_TAPE_SHORT_READ := 1024;
  SG_LIB_SYNTAX_ERROR := 1;
  SG_LIB_CAT_MEDIUM_HARD := 3;
  SG_LIB_CAT_OTHER := 99;
  SG_LIB_FILE_ERROR := 15;
  SG_LIB_FLOCK_ERR := 90;
  SG_LIB_CAT_UNIT_ATTENTION := 6;
  SG_LIB_CAT_ABORTED_COMMAND := 11;
  EIO := 5;
  EREMOTEIO := 121;
  EINTR := 4;
  ENOSPC := 28;
  ENOTTY := 25;
  EINVAL := 22;
  EOPNOTSUPP := 95;
  SG_LIB_LINUX := true;
  SG_LIB_FREEBSD := false;
  HAVE_GETTIMEOFDAY := true;
  HAVE_POSIX_FADVISE := true;
  HAVE_FDATASYNC := true;
  HAVE_FSYNC := true;
  HAVE_FALLOCATE := true;
  HAVE_POSIX_FALLOCATE := true
|}.

(** ** Data model *)

(** [struct flags_t]: one counter per flag name ([process_flags] increments). *)
Record flags_t : Type := {
  append : Z;
  coe : Z;
  direct : Z;
  errblk : Z;
  excl : Z;
  fdatasync : Z;
  flock : Z;
  force : Z;
  fsync : Z;
  ignoreew : Z;
  nocache : Z;
  nofm : Z;
  nopad : Z;
  norcap : Z;
  nowrite : Z;
  pad : Z;
  prealloc : Z;
  pt : Z;
  resume : Z;
  self : Z;
  sparing : Z;
  sparse : Z;
  ssync : Z;
  strunc : Z;
  sync : Z;
  trunc : Z;
  wsame16 : Z
}.

(** [struct opts_t].  [iflagp] and [oflagp] point to [main]'s two flag
    structures and are the only access paths to them, so the structures are
    held in place.  Pointers that [ddpt.c] only tests against [NULL]
    ([errblk_fp], [zeros_buff], [if_ptvp], [of_ptvp]) are booleans. *)
Record opts_t : Type := {
  ibs : Z;
  obs : Z;
  ibs_pi : Z;
  obs_pi : Z;
  ibs_hold : Z;
  bpt_i : Z;
  bpt_given : Z;
  obpc : Z;
  skip : Z;
  seek : Z;
  dd_count : Z;
  inf : string;
  outf : string;
  out2f : string;
  outf_given : Z;
  verbose : Z;
  quiet : Z;
  iflagp : flags_t;
  oflagp : flags_t;
  in_type : Z;
  out_type : Z;
  out_type_hold : Z;
  out2_type : Z;
  infd : Z;
  outfd : Z;
  out2fd : Z;
  reading_fifo : Z;
  read1_or_transfer : Z;
  rdprotect : Z;
  wrprotect : Z;
  rdprot_typ : Z;
  wrprot_typ : Z;
  rdp_i_exp : Z;
  wrp_i_exp : Z;
  coe_limit : Z;
  coe_count : Z;
  in_full : Z;
  in_partial : Z;
  out_full : Z;
  out_partial : Z;
  out_sparse : Z;
  out_sparse_partial : Z;
  out_sparse_active : Z;
  out_sparing_active : Z;
  out_trim_active : Z;
  unrecovered_errs : Z;
  highest_unrecovered : Z;
  lowest_unrecovered : Z;
  trim_errs : Z;
  interrupted_retries : Z;
  err_to_report : Z;
  read_tape_numbytes : Z;
  last_tape_read_len : Z;
  consec_same_len_reads : Z;
  lowest_skip : Z;
  lowest_seek : Z;
  errblk_fp : bool;
  zeros_buff : bool;
  if_ptvp : bool;
  of_ptvp : bool
}.

(** [struct cp_state_t]: the per-chunk state of [do_copy]. *)
Record cp_state_t : Type := {
  icbpt : Z;
  ocbpt : Z;
  partial_write_bytes : Z;
  if_filepos : Z;
  of_filepos : Z;
  bytes_read : Z;
  bytes_of : Z;
  bytes_of2 : Z;
  leave_after_write : Z;
  leave_reason : Z
}.

(** Setters for the fields updated below, found by the update notation. *)
#[global] Instance set_append : Setter append := ltac:(setter flags_t (Z) append).
Arguments set_append _ _ /.
#[global] Instance set_coe : Setter coe := ltac:(setter flags_t (Z) coe).
Arguments set_coe _ _ /.
#[global] Instance set_direct : Setter direct := ltac:(setter flags_t (Z) direct).
Arguments set_direct _ _ /.
#[global] Instance set_errblk : Setter errblk := ltac:(setter flags_t (Z) errblk).
Arguments set_errblk _ _ /.
#[global] Instance set_excl : Setter excl := ltac:(setter flags_t (Z) excl).
Arguments set_excl _ _ /.
#[global] Instance set_fdatasync : Setter fdatasync := ltac:(setter flags_t (Z) fdatasync).
Arguments set_fdatasync _ _ /.
#[global] Instance set_flock : Setter flock := ltac:(setter flags_t (Z) flock).
Arguments set_flock _ _ /.
#[global] Instance set_force : Setter force := ltac:(setter flags_t (Z) force).
Arguments set_force _ _ /.
#[global] Instance set_fsync : Setter fsync := ltac:(setter flags_t (Z) fsync).
Arguments set_fsync _ _ /.
#[global] Instance set_ignoreew : Setter ignoreew := ltac:(setter flags_t (Z) ignoreew).
Arguments set_ignoreew _ _ /.
#[global] Instance set_nocache : Setter nocache := ltac:(setter flags_t (Z) nocache).
Arguments set_nocache _ _ /.
#[global] Instance set_nofm : Setter nofm := ltac:(setter flags_t (Z) nofm).
Arguments set_nofm _ _ /.
#[global] Instance set_nopad : Setter nopad := ltac:(setter flags_t (Z) nopad).
Arguments set_nopad _ _ /.
#[global] Instance set_norcap : Setter norcap := ltac:(setter flags_t (Z) norcap).
Arguments set_norcap _ _ /.
#[global] Instance set_nowrite : Setter nowrite := ltac:(setter flags_t (Z) nowrite).
Arguments set_nowrite _ _ /.
#[global] Instance set_pad : Setter pad := ltac:(setter flags_t (Z) pad).
Arguments set_pad _ _ /.
#[global] Instance set_prealloc : Setter prealloc := ltac:(setter flags_t (Z) prealloc).
Arguments set_prealloc _ _ /.
#[global] Instance set_pt : Setter pt := ltac:(setter flags_t (Z) pt).
Arguments set_pt _ _ /.
#[global] Instance set_resume : Setter resume := ltac:(setter flags_t (Z) resume).
Arguments set_resume _ _ /.
#[global] Instance set_self : Setter self := ltac:(setter flags_t (Z) self).
Arguments set_self _ _ /.
#[global] Instance set_sparing : Setter sparing := ltac:(setter flags_t (Z) sparing).
Arguments set_sparing _ _ /.
#[global] Instance set_sparse : Setter sparse := ltac:(setter flags_t (Z) sparse).
Arguments set_sparse _ _ /.
#[global] Instance set_ssync : Setter ssync := ltac:(setter flags_t (Z) ssync).
Arguments set_ssync _ _ /.
#[global] Instance set_strunc : Setter strunc := ltac:(setter flags_t (Z) strunc).
Arguments set_strunc _ _ /.
#[global] Instance set_sync : Setter sync := ltac:(setter flags_t (Z) sync).
Arguments set_sync _ _ /.
#[global] Instance set_trunc : Setter trunc := ltac:(setter flags_t (Z) trunc).
Arguments set_trunc _ _ /.
#[global] Instance set_wsame16 : Setter wsame16 := ltac:(setter flags_t (Z) wsame16).
Arguments set_wsame16 _ _ /.
#[global] Instance set_ibs : Setter ibs := ltac:(setter opts_t (Z) ibs).
Arguments set_ibs _ _ /.
#[global] Instance set_obs : Setter obs := ltac:(setter opts_t (Z) obs).
Arguments set_obs _ _ /.
#[global] Instance set_ibs_pi : Setter ibs_pi := ltac:(setter opts_t (Z) ibs_pi).
Arguments set_ibs_pi _ _ /.
#[global] Instance set_obs_pi : Setter obs_pi := ltac:(setter opts_t (Z) obs_pi).
Arguments set_obs_pi _ _ /.
#[global] Instance set_ibs_hold : Setter ibs_hold := ltac:(setter opts_t (Z) ibs_hold).
Arguments set_ibs_hold _ _ /.
#[global] Instance set_bpt_i : Setter bpt_i := ltac:(setter opts_t (Z) bpt_i).
Arguments set_bpt_i _ _ /.
#[global] Instance set_bpt_given : Setter bpt_given := ltac:(setter opts_t (Z) bpt_given).
Arguments set_bpt_given _ _ /.
#[global] Instance set_obpc : Setter obpc := ltac:(setter opts_t (Z) obpc).
Arguments set_obpc _ _ /.
#[global] Instance set_skip : Setter skip := ltac:(setter opts_t (Z) skip).
Arguments set_skip _ _ /.
#[global] Instance set_seek : Setter seek := ltac:(setter opts_t (Z) seek).
Arguments set_seek _ _ /.
#[global] Instance set_dd_count : Setter dd_count := ltac:(setter opts_t (Z) dd_count).
Arguments set_dd_count _ _ /.
#[global] Instance set_inf : Setter inf := ltac:(setter opts_t (string) inf).
Arguments set_inf _ _ /.
#[global] Instance set_outf : Setter outf := ltac:(setter opts_t (string) outf).
Arguments set_outf _ _ /.
#[global] Instance set_out2f : Setter out2f := ltac:(setter opts_t (string) out2f).
Arguments set_out2f _ _ /.
#[global] Instance set_outf_given : Setter outf_given := ltac:(setter opts_t (Z) outf_given).
Arguments set_outf_given _ _ /.
#[global] Instance set_verbose : Setter verbose := ltac:(setter opts_t (Z) verbose).
Arguments set_verbose _ _ /.
#[global] Instance set_quiet : Setter quiet := ltac:(setter opts_t (Z) quiet).
Arguments set_quiet _ _ /.
#[global] Instance set_iflagp : Setter iflagp := ltac:(setter opts_t (flags_t) iflagp).
Arguments set_iflagp _ _ /.
#[global] Instance set_oflagp : Setter oflagp := ltac:(setter opts_t (flags_t) oflagp).
Arguments set_oflagp _ _ /.
#[global] Instance set_in_type : Setter in_type := ltac:(setter opts_t (Z) in_type).
Arguments set_in_type _ _ /.
#[global] Instance set_out_type : Setter out_type := ltac:(setter opts_t (Z) out_type).
Arguments set_out_type _ _ /.
#[global] Instance set_out_type_hold : Setter out_type_hold := ltac:(setter opts_t (Z) out_type_hold).
Arguments set_out_type_hold _ _ /.
#[global] Instance set_out2_type : Setter out2_type := ltac:(setter opts_t (Z) out2_type).
Arguments set_out2_type _ _ /.
#[global] Instance set_infd : Setter infd := ltac:(setter opts_t (Z) infd).
Arguments set_infd _ _ /.
#[global] Instance set_outfd : Setter outfd := ltac:(setter opts_t (Z) outfd).
Arguments set_outfd _ _ /.
#[global] Instance set_out2fd : Setter out2fd := ltac:(setter opts_t (Z) out2fd).
Arguments set_out2fd _ _ /.
#[global] Instance set_reading_fifo : Setter reading_fifo := ltac:(setter opts_t (Z) reading_fifo).
Arguments set_reading_fifo _ _ /.
#[global] Instance set_read1_or_transfer : Setter read1_or_transfer := ltac:(setter opts_t (Z) read1_or_transfer).
Arguments set_read1_or_transfer _ _ /.
#[global] Instance set_rdprotect : Setter rdprotect := ltac:(setter opts_t (Z) rdprotect).
Arguments set_rdprotect _ _ /.
#[global] Instance set_wrprotect : Setter wrprotect := ltac:(setter opts_t (Z) wrprotect).
Arguments set_wrprotect _ _ /.
#[global] Instance set_rdprot_typ : Setter rdprot_typ := ltac:(setter opts_t (Z) rdprot_typ).
Arguments set_rdprot_typ _ _ /.
#[global] Instance set_wrprot_typ : Setter wrprot_typ := ltac:(setter opts_t (Z) wrprot_typ).
Arguments set_wrprot_typ _ _ /.
#[global] Instance set_rdp_i_exp : Setter rdp_i_exp := ltac:(setter opts_t (Z) rdp_i_exp).
Arguments set_rdp_i_exp _ _ /.
#[global] Instance set_wrp_i_exp : Setter wrp_i_exp := ltac:(setter opts_t (Z) wrp_i_exp).
Arguments set_wrp_i_exp _ _ /.
#[global] Instance set_coe_limit : Setter coe_limit := ltac:(setter opts_t (Z) coe_limit).
Arguments set_coe_limit _ _ /.
#[global] Instance set_coe_count : Setter coe_count := ltac:(setter opts_t (Z) coe_count).
Arguments set_coe_count _ _ /.
#[global] Instance set_in_full : Setter in_full := ltac:(setter opts_t (Z) in_full).
Arguments set_in_full _ _ /.
#[global] Instance set_in_partial : Setter in_partial := ltac:(setter opts_t (Z) in_partial).
Arguments set_in_partial _ _ /.
#[global] Instance set_out_full : Setter out_full := ltac:(setter opts_t (Z) out_full).
Arguments set_out_full _ _ /.
#[global] Instance set_out_partial : Setter out_partial := ltac:(setter opts_t (Z) out_partial).
Arguments set_out_partial _ _ /.
#[global] Instance set_out_sparse : Setter out_sparse := ltac:(setter opts_t (Z) out_sparse).
Arguments set_out_sparse _ _ /.
#[global] Instance set_out_sparse_partial : Setter out_sparse_partial := ltac:(setter opts_t (Z) out_sparse_partial).
Arguments set_out_sparse_partial _ _ /.
#[global] Instance set_out_sparse_active : Setter out_sparse_active := ltac:(setter opts_t (Z) out_sparse_active).
Arguments set_out_sparse_active _ _ /.
#[global] Instance set_out_sparing_active : Setter out_sparing_active := ltac:(setter opts_t (Z) out_sparing_active).
Arguments set_out_sparing_active _ _ /.
#[global] Instance set_out_trim_active : Setter out_trim_active := ltac:(setter opts_t (Z) out_trim_active).
Arguments set_out_trim_active _ _ /.
#[global] Instance set_unrecovered_errs : Setter unrecovered_errs := ltac:(setter opts_t (Z) unrecovered_errs).
Arguments set_unrecovered_errs _ _ /.
#[global] Instance set_highest_unrecovered : Setter highest_unrecovered := ltac:(setter opts_t (Z) highest_unrecovered).
Arguments set_highest_unrecovered _ _ /.
#[global] Instance set_lowest_unrecovered : Setter lowest_unrecovered := ltac:(setter opts_t (Z) lowest_unrecovered).
Arguments set_lowest_unrecovered _ _ /.
#[global] Instance set_trim_errs : Setter trim_errs := ltac:(setter opts_t (Z) trim_errs).
Arguments set_trim_errs _ _ /.
#[global] Instance set_interrupted_retries : Setter interrupted_retries := ltac:(setter opts_t (Z) interrupted_retries).
Arguments set_interrupted_retries _ _ /.
#[global] Instance set_err_to_report : Setter err_to_report := ltac:(setter opts_t (Z) err_to_report).
Arguments set_err_to_report _ _ /.
#[global] Instance set_read_tape_numbytes : Setter read_tape_numbytes := ltac:(setter opts_t (Z) read_tape_numbytes).
Arguments set_read_tape_numbytes _ _ /.
#[global] Instance set_last_tape_read_len : Setter last_tape_read_len := ltac:(setter opts_t (Z) last_tape_read_len).
Arguments set_last_tape_read_len _ _ /.
#[global] Instance set_consec_same_len_reads : Setter consec_same_len_reads := ltac:(setter opts_t (Z) consec_same_len_reads).
Arguments set_consec_same_len_reads _ _ /.
#[global] Instance set_lowest_skip : Setter lowest_skip := ltac:(setter opts_t (Z) lowest_skip).
Arguments set_lowest_skip _ _ /.
#[global] Instance set_lowest_seek : Setter lowest_seek := ltac:(setter opts_t (Z) lowest_seek).
Arguments set_lowest_seek _ _ /.
#[global] Instance set_errblk_fp : Setter errblk_fp := ltac:(setter opts_t (bool) errblk_fp).
Arguments set_errblk_fp _ _ /.
#[global] Instance set_zeros_buff : Setter zeros_buff := ltac:(setter opts_t (bool) zeros_buff).
Arguments set_zeros_buff _ _ /.
#[global] Instance set_if_ptvp : Setter if_ptvp := ltac:(setter opts_t (bool) if_ptvp).
Arguments set_if_ptvp _ _ /.
#[global] Instance set_of_ptvp : Setter of_ptvp := ltac:(setter opts_t (bool) of_ptvp).
Arguments set_of_ptvp _ _ /.
#[global] Instance set_icbpt : Setter icbpt := ltac:(setter cp_state_t (Z) icbpt).
Arguments set_icbpt _ _ /.
#[global] Instance set_ocbpt : Setter ocbpt := ltac:(setter cp_state_t (Z) ocbpt).
Arguments set_ocbpt _ _ /.
#[global] Instance set_partial_write_bytes : Setter partial_write_bytes := ltac:(setter cp_state_t (Z) partial_write_bytes).
Arguments set_partial_write_bytes _ _ /.
#[global] Instance set_if_filepos : Setter if_filepos := ltac:(setter cp_state_t (Z) if_filepos).
Arguments set_if_filepos _ _ /.
#[global] Instance set_of_filepos : Setter of_filepos := ltac:(setter cp_state_t (Z) of_filepos).
Arguments set_of_filepos _ _ /.
#[global] Instance set_bytes_read : Setter bytes_read := ltac:(setter cp_state_t (Z) bytes_read).
Arguments set_bytes_read _ _ /.
#[global] Instance set_bytes_of : Setter bytes_of := ltac:(setter cp_state_t (Z) bytes_of).
Arguments set_bytes_of _ _ /.
#[global] Instance set_bytes_of2 : Setter bytes_of2 := ltac:(setter cp_state_t (Z) bytes_of2).
Arguments set_bytes_of2 _ _ /.
#[global] Instance set_leave_after_write : Setter leave_after_write := ltac:(setter cp_state_t (Z) leave_after_write).
Arguments set_leave_after_write _ _ /.
#[global] Instance set_leave_reason : Setter leave_reason := ltac:(setter cp_state_t (Z) leave_reason).
Arguments set_leave_reason _ _ /.

(** ** The environment

    A [call] is a request that leaves [ddpt.c]; the environment answers it
    with a [response].  The answer may depend on the call and on the moment
    ([tick]) it is made.  A [Read] or [Write] stands for the whole
    "retry while interrupted" loop around the system call: [intr] is the
    number of attempts that failed with [EINTR] before the answer that ended
    the loop.  [Memcmp] stands for [memcmp] over the work buffer, whose
    contents are not modelled: the environment says whether the bytes
    compare equal ([rv = 0]).  Of the diagnostics that [ddpt.c] prints on
    [stderr], the log records those of [count_calculate] ([Stderr], by
    format string); the others change no state and are left out. *)

Inductive side : Type := IFILE | OFILE | OFILE2.

Inductive cmp_buf : Type := ZEROS_BUFF | WRKPOS2.

Inductive call : Type :=
| Lseek (s : side) (offset : Z)
| Read (s : side) (nbytes : Z)
| Write (s : side) (nbytes : Z)
| PtRead (s : side) (blocks : Z)
| PtWrite (blocks lba : Z)
| PtWriteSame16 (blocks lba : Z)
| Memcmp (b : cmp_buf) (offset nbytes : Z)
| Fstat (s : side)
| Ftruncate (offset : Z)
| Fdatasync
| Fsync
| PosixFadvise (s : side) (offset len : Z)
| Signals
| FopenErrblk
| FcloseErrblk
| Strftime
| Stat (s : side)
| Open (s : side) (o_trunc : bool)
| PtOpen (s : side)
| Flock (s : side)
| Close (s : side)
| PtClose (s : side)
| PtSyncCache
| PtReadCapacity (s : side)
| GetBlkdevCapacity (s : side)
| Calloc (nbytes : Z)
| PtConstructObj
| PtDestructObj (s : side)
| SysconfPagesize
| Fallocate (keep_size : bool)
| PosixFallocate
| Stderr (msg : string).

Record response : Type := {
  rv : Z;          (* the value returned *)
  err : Z;         (* errno after a failure *)
  aux : Z;         (* first value written back through a pointer *)
  aux2 : Z;        (* second value written back through a pointer *)
  intr : nat;      (* attempts interrupted before this answer *)
  txt : string     (* text produced (strftime) *)
}.

Definition environment : Type := call -> nat -> response.

(** What the program has done so far: the number of calls made, the calls
    themselves (latest first) and the contents of the error-block file. *)
Record world : Type := {
  tick : nat;
  log : list call;
  journal : string
}.

#[global] Instance set_tick : Setter tick := ltac:(setter world (nat) tick).
Arguments set_tick _ _ /.
#[global] Instance set_log : Setter log := ltac:(setter world (list call) log).
Arguments set_log _ _ /.
#[global] Instance set_journal : Setter journal := ltac:(setter world (string) journal).
Arguments set_journal _ _ /.

Definition is_output_write (c : call) : bool :=
  match c with
  | Write OFILE _ | PtWrite _ _ | PtWriteSame16 _ _ => true
  | _ => false
  end.

Definition is_io (c : call) : bool :=
  match c with
  | Read _ _ | Write _ _ | PtRead _ _ | PtWrite _ _ | PtWriteSame16 _ _
  | Open _ _ | PtOpen _ | Lseek _ _ | Ftruncate _ => true
  | _ => false
  end.

(** Outcome of one pass through the body of [do_copy]'s loop. *)
Inductive iter_exit : Type :=
| Continue
| Break (ret : Z)
| Killed (sig : Z).

(** Outcome of the option loop of [process_cl], which is not modelled: it
    either returns from inside the loop (a syntax error, or -1 after
    [--help] and [--version]) or leaves the parsed options in [op]. *)
Inductive parse_result : Type :=
| ParseReturn (code : Z)
| ParseOk (op : opts_t).

Section Ddpt.

Context {h : ddpt_h}.
Variable env : environment.

Definition sys (c : call) (w : world) : response * world :=
  (env c (tick w), {| tick := S (tick w); log := c :: log w; journal := journal w |}).

Definition fputs_errblk (s : string) (w : world) : world :=
  w{{journal := (journal w ++ s)%string}}.

(** *** Error-block journal ([open_errblk], [put_errblk], [put_range_errblk],
    [close_errblk]) *)

Definition hex_digit (d : Z) : ascii :=
  match d with
  | 0 => "0" | 1 => "1" | 2 => "2" | 3 => "3" | 4 => "4" | 5 => "5"
  | 6 => "6" | 7 => "7" | 8 => "8" | 9 => "9" | 10 => "a" | 11 => "b"
  | 12 => "c" | 13 => "d" | 14 => "e" | _ => "f"
  end%char.

Fixpoint hex_digits (n : nat) (z : Z) (acc : string) : string :=
  match n with
  | O => acc
  | S n' =>
      let acc' := String (hex_digit (z mod 16)) acc in
      if z / 16 =? 0 then acc' else hex_digits n' (z / 16) acc'
  end.

(** [printf("%" PRIx64, v)]. *)
Definition PRIx64 (v : Z) : string := hex_digits 16 (to_uint64 v) "".

Definition nl : string := String (ascii_of_nat 10) "".

Definition errblk_file : string := "errblk.txt".

Definition open_errblk (op : opts_t) (w : world) : opts_t * world :=
  let '(r, w) := sys FopenErrblk w in          (* fopen(errblk_file, "a") *)
  if rv r =? 0 then (op{{errblk_fp := false}}, w)
  else
    let op := op{{errblk_fp := true}} in
    if HAVE_GETTIMEOFDAY then
      let '(t, w) := sys Strftime w in         (* "%Y-%m-%d %H:%M:%S" of now *)
      (op, fputs_errblk ("# start: " ++ txt t ++ nl) w)
    else (op, fputs_errblk ("# start" ++ nl) w).

Definition put_errblk (lba : Z) (op : opts_t) (w : world) : world :=
  if errblk_fp op then fputs_errblk ("0x" ++ PRIx64 lba ++ nl) w else w.

Definition put_range_errblk (lba num : Z) (op : opts_t) (w : world) : world :=
  if errblk_fp op then
    if num =? 1 then put_errblk lba op w
    else if 1 <? num then
      fputs_errblk ("0x" ++ PRIx64 lba ++ "-0x"
                    ++ PRIx64 (to_uint64 (to_uint64 lba + to_uint64 (num - 1))) ++ nl) w
    else w
  else w.

Definition close_errblk (op : opts_t) (w : world) : opts_t * world :=
  if errblk_fp op then
    let w :=
      if HAVE_GETTIMEOFDAY then
        let '(t, w) := sys Strftime w in
        fputs_errblk ("# stop: " ++ txt t ++ nl) w
      else fputs_errblk ("# stop" ++ nl) w in
    let '(_, w) := sys FcloseErrblk w in
    (op{{errblk_fp := false}}, w)
  else (op, w).

(** *** Command line: [default_bpt_i], [cl_sanity_defaults], [process_cl] *)

Definition default_bpt_i (ibs : Z) : Z :=
  if ibs <? 8 then DEF_BPT_LT8
  else if ibs <? 64 then DEF_BPT_LT64
  else if ibs <? 1024 then DEF_BPT_LT1024
  else if ibs <? 8192 then DEF_BPT_LT8192
  else if ibs <? 31768 then DEF_BPT_LT32768
  else DEF_BPT_GE32768.

(** The first statements of [cl_sanity_defaults]: default block sizes and
    default blocks-per-transfer. *)
Definition cl_defaults (op : opts_t) : opts_t :=
  let op :=
    if (ibs op =? 0) && (obs op =? 0) then
      op{{ibs := DEF_BLOCK_SIZE}}{{obs := DEF_BLOCK_SIZE}}
    else if obs op =? 0 then op{{obs := DEF_BLOCK_SIZE}}
    else if ibs op =? 0 then op{{ibs := DEF_BLOCK_SIZE}}
    else op in
  let op := op{{ibs_hold := ibs op}} in
  if bpt_given op =? 0 then op{{bpt_i := default_bpt_i (ibs op)}} else op.

(** The [trunc] block; [true] is the syntax error. *)
Definition cl_trunc (op : opts_t) : bool * opts_t :=
  if nz (trunc (oflagp op)) then
    if nz (resume (oflagp op)) then (false, op{{oflagp -> trunc := 0}})
    else if nz (append (oflagp op)) then (false, op{{oflagp -> trunc := 0}})
    else if nz (sparing (oflagp op)) then (true, op)
    else (false, op)
  else (false, op).

(** The [self] block; [true] is the syntax error. *)
Definition cl_self (op : opts_t) : bool * opts_t :=
  if nz (self (iflagp op)) || nz (self (oflagp op)) then
    let op :=
      if nz (self (oflagp op)) then op
      else op{{oflagp -> self := to_int (self (oflagp op) + 1)}} in
    let op :=
      if nz (wsame16 (iflagp op)) || nz (wsame16 (oflagp op)) then
        let op :=
          if nz (wsame16 (oflagp op)) then op
          else op{{oflagp -> wsame16 := to_int (wsame16 (oflagp op) + 1)}} in
        if nz (nowrite (oflagp op)) then op
        else op{{oflagp -> nowrite := to_int (nowrite (oflagp op) + 1)}}
      else op in
    let op := if String.eqb (outf op) "" then op{{outf := inf op}} else op in
    if (seek op =? 0) && (0 <? skip op) then
      if ibs op =? obs op then (false, op{{seek := skip op}})
      else if 0 <? obs op then
        let l := to_int64 (skip op * ibs op) in
        let op := op{{seek := Z.quot l (obs op)}} in
        (negb (to_int64 (seek op * obs op) =? l), op)
      else (false, op)
    else (false, op)
  else (false, op).

(** The implied sparse levels at the end of [cl_sanity_defaults]. *)
Definition cl_implied_sparse (op : opts_t) : opts_t :=
  let op :=
    if nz (wsame16 (oflagp op)) then
      op{{oflagp -> sparse := to_int (sparse (oflagp op) + 2)}}
    else op in
  if nz (strunc (oflagp op)) && (sparse (oflagp op) =? 0) then
    op{{oflagp -> sparse := to_int (sparse (oflagp op) + 1)}}
  else op.

(** Messages to stderr are left out. *)
Definition cl_sanity_defaults (op : opts_t) : Z * opts_t :=
  let op := cl_defaults op in
  if negb (ibs op =? obs op)
     && negb (Z.rem (to_int (ibs op * bpt_i op)) (obs op) =? 0) then
    (SG_LIB_SYNTAX_ERROR, op)
  else if (skip op <? 0) || (seek op <? 0) then (SG_LIB_SYNTAX_ERROR, op)
  else if (0 <? append (oflagp op)) && (0 <? seek op) then
    (SG_LIB_SYNTAX_ERROR, op)
  else if bpt_i op <? 1 then (SG_LIB_SYNTAX_ERROR, op)
  else
    let '(bad, op) := cl_trunc op in
    if bad then (SG_LIB_SYNTAX_ERROR, op)
    else
      let '(bad, op) := cl_self op in
      if bad then (SG_LIB_SYNTAX_ERROR, op)
      else (0, cl_implied_sparse op).

Definition process_cl (ops : opts_t) (pr : parse_result) : Z * opts_t :=
  match pr with
  | ParseReturn code => (code, ops)
  | ParseOk op => cl_sanity_defaults op
  end.

(** *** Sizes of the files: [calc_count_in], [calc_count_out], [calc_count] *)

(** Modelled from the spec: [pt_read_capacity] of [ddpt_pt.c] is not among
    the sources.  Section 4.4 gives it as
    [read_capacity(side) -> (nblocks, block_size, pi_type, pi_exp)]: the
    answer carries the status ([rv]), the number of blocks ([aux]) and the
    block size ([aux2]); the protection type and exponent are not recorded
    in [op] here. *)
Definition pt_read_capacity (s : side) (w : world) : Z * Z * Z * world :=
  let '(r, w) := sys (PtReadCapacity s) w in
  (rv r, aux r, aux2 r, w).

(** [get_blkdev_capacity] asks the platform ([ioctl]); the answer carries
    its return value, the number of sectors and the sector size. *)
Definition get_blkdev_capacity (s : side) (w : world) : Z * Z * Z * world :=
  let '(r, w) := sys (GetBlkdevCapacity s) w in
  (rv r, aux r, aux2 r, w).

(** The pass-through branch shared by [calc_count_in] and [calc_count_out]:
    status, number of sectors, and whether the function returns here. *)
Definition calc_count_pt (s : side) (fl : flags_t) (ty bs : Z) (w : world)
  : bool * Z * Z * world :=
  if nz (norcap fl) then
    if ft_has FT_BLOCK ty && (force fl =? 0) then (true, -1, -1, w)
    else (true, 0, -1, w)
  else
    let '(res, num, sz, w) := pt_read_capacity s w in
    let '(res, num, sz, w) :=
      if res =? SG_LIB_CAT_UNIT_ATTENTION then pt_read_capacity s w
      else if res =? SG_LIB_CAT_ABORTED_COMMAND then pt_read_capacity s w
      else (res, num, sz, w) in
    if negb (res =? 0) then (true, res, -1, w)
    else if (0 <? num) && negb (sz =? bs) && (force fl =? 0) then
      (true, -1, num, w)
    else if ft_has FT_BLOCK ty && (force fl =? 0) then
      let '(rc, num_sect, sect_sz, w) := get_blkdev_capacity s w in
      if (rc =? 0)
         && negb (to_int64 (num * sz) =? to_int64 (num_sect * sect_sz)) then
        (true, -1, num, w)
      else (false, 0, num, w)
    else (false, 0, num, w).

Definition calc_count_blk (s : side) (bs : Z) (w : world) : Z * world :=
  let '(rc, num_sect, sect_sz, w) := get_blkdev_capacity s w in
  let num := if negb (rc =? 0) then -1 else num_sect in
  let num := if (0 <? num) && negb (bs =? sect_sz) then -1 else num in
  (num, w).

(** A regular file: [st_size / bs], one more for a remainder. *)
Definition calc_count_reg (s : side) (bs : Z) (w : world) : Z * world :=
  let '(r, w) := sys (Fstat s) w in
  if rv r <? 0 then (-1, w)
  else
    let num := Z.quot (aux r) bs in
    let res := to_int (Z.rem (aux r) bs) in
    (if nz res then to_int64 (num + 1) else num, w).

Definition calc_count_in (op : opts_t) (w : world) : Z * Z * world :=
  let ty := in_type op in
  if ft_has FT_PT ty then
    let '(_, res, num, w) := calc_count_pt IFILE (iflagp op) ty (ibs op) w in
    (res, num, w)
  else if (0 <? dd_count op) && (resume (oflagp op) =? 0) then (0, -1, w)
  else if ft_has FT_BLOCK ty then
    let '(num, w) := calc_count_blk IFILE (ibs op) w in (0, num, w)
  else if ft_has FT_REG ty then
    let '(num, w) := calc_count_reg IFILE (ibs op) w in (0, num, w)
  else (0, -1, w).

Definition calc_count_out (op : opts_t) (w : world) : Z * Z * world :=
  let ty := out_type op in
  let '(returned, res, num, w) :=
    if ft_has FT_PT ty then calc_count_pt OFILE (oflagp op) ty (obs op) w
    else if (0 <? dd_count op) && (resume (oflagp op) =? 0) then
      (true, 0, -1, w)
    else (false, 0, -1, w) in
  if returned then (res, num, w)
  else if ft_has FT_BLOCK ty then
    let '(num, w) := calc_count_blk OFILE (obs op) w in (0, num, w)
  else if ft_has FT_REG ty then
    let '(num, w) := calc_count_reg OFILE (obs op) w in (0, num, w)
  else (0, num, w).

Definition calc_count (op : opts_t) (w : world) : Z * Z * Z * world :=
  let '(res, in_num_sect, w) := calc_count_in op w in
  if nz res then (res, in_num_sect, -1, w)
  else
    let '(res, out_num_sect, w) := calc_count_out op w in
    (res, in_num_sect, out_num_sect, w).

(** *** [count_calculate]

    Messages are logged by their format string. *)

Definition msg (s : string) (w : world) : world := snd (sys (Stderr s) w).

Definition count_derive (op : opts_t) (in_num_sect out_num_sect : Z) : opts_t :=
  let in_num_sect :=
    if nz (skip op) && (skip op <? in_num_sect)
    then to_int64 (in_num_sect - skip op) else in_num_sect in
  let out_num_sect :=
    if nz (seek op) && (seek op <? out_num_sect)
    then to_int64 (out_num_sect - seek op) else out_num_sect in
  if (out_num_sect <? 0) && (0 <? in_num_sect) then op{{dd_count := in_num_sect}}
  else if nz (reading_fifo op) && (out_num_sect <? 0) then op
  else if (out_num_sect <? 0) && (in_num_sect <=? 0) then op
  else
    let ibytes :=
      if 0 <? in_num_sect then to_int64 (ibs op * in_num_sect) else 0 in
    let obytes := to_int64 (obs op * out_num_sect) in
    if ibytes =? 0 then op{{dd_count := Z.quot obytes (ibs op)}}
    else if (obytes <? ibytes) && negb (FT_REG =? out_type op) then
      op{{dd_count := Z.quot obytes (ibs op)}}
    else op{{dd_count := in_num_sect}}.

Definition count_resume (op : opts_t) (in_num_sect out_num_sect : Z) (w : world)
  : Z * opts_t * world :=
  let op :=
    if dd_count op <? 0
    then op{{dd_count := to_int64 (in_num_sect - skip op)}} else op in
  if out_num_sect <=? seek op then
    (0, op, msg "resume finds no previous copy, restarting" w)
  else
    let obytes := to_int64 (obs op * to_int64 (out_num_sect - seek op)) in
    let ibk := Z.quot obytes (ibs op) in
    if dd_count op <=? ibk then
      (-1, op{{dd_count := 0}}, msg "resume finds copy complete, exiting" w)
    else
      let ibk := to_int64 (Z.quot ibk (bpt_i op) * bpt_i op) in
      let op := op{{skip := to_int64 (skip op + ibk)}} in
      let op :=
        op{{seek := to_int64 (seek op + Z.quot (to_int64 (ibk * ibs op)) (obs op))}} in
      let op := op{{dd_count := to_int64 (dd_count op - ibk)}} in
      (0, op, msg "resume adjusting skip=%ld, seek=%ld, and count=%ld" w).

Definition count_calculate (op : opts_t) (w : world) : Z * opts_t * world :=
  let '(res, in_num_sect, out_num_sect, w) := calc_count op w in
  if nz res then (res, op, w)
  else if (resume (oflagp op) =? 0) && (0 <? dd_count op) then (0, op, w)
  else
    let w :=
      if 1 <? verbose op
      then msg "calc_count: in_num_sect=%ld, out_num_sect=%ld" w else w in
    if nz (skip op) && (FT_REG =? in_type op) && (in_num_sect <? skip op) then
      (-1, op{{dd_count := 0}}, msg "cannot skip to specified offset on %s" w)
    else
      let '(valid_resume, w) :=
        if nz (resume (oflagp op)) then
          if FT_REG =? out_type op then
            if out_num_sect <? 0 then
              (false, msg "resume cannot determine size of OFILE, ignore" w)
            else (true, w)
          else (false, msg "resume expects OFILE to be regular, ignore" w)
        else (false, w) in
      let op :=
        if (dd_count op <? 0) && negb valid_resume
        then count_derive op in_num_sect out_num_sect else op in
      if valid_resume then count_resume op in_num_sect out_num_sect w
      else (0, op, w).

(** *** Read phase: [cp_read_pt], [coe_process_eio], [coe_cp_read_block_reg],
    [cp_read_block_reg], [cp_read_tape], [cp_read_fifo]

    Each helper returns its C return value with the updated [op], [csp] and
    world.  The bytes that land in the work buffer are not modelled, so
    [memset] calls are left out. *)

Definition add_intr (r : response) (op : opts_t) : opts_t :=
  op{{interrupted_retries := to_int (interrupted_retries op + Z.of_nat (intr r))}}.

Definition is_eio (e : Z) : bool := (e =? EIO) || (e =? EREMOTEIO).

Definition zero_coe_limit_count (op : opts_t) : opts_t :=
  if 0 <? coe_limit op then op{{coe_count := 0}} else op.

(** Modelled from the spec: [pt_read] of [ddpt_pt.c] is not among the
    sources.  Section 4.4 gives it as
    [read(side, buf, nblocks) -> (blocks_read, status)]: the answer carries
    the status ([rv]) and the blocks read ([aux]); [op] is left as it is. *)
Definition pt_read (s : side) (blocks : Z) (w : world) : Z * Z * world :=
  let '(r, w) := sys (PtRead s blocks) w in
  (rv r, aux r, w).

Definition cp_read_pt (op : opts_t) (csp : cp_state_t) (w : world)
  : Z * opts_t * cp_state_t * world :=
  let '(res, blks_read, w) := pt_read IFILE (icbpt csp) w in
  if nz res && (blks_read =? 0) then (res, op, csp, w)
  else
    let op := if nz res then op{{err_to_report := res}} else op in
    let csp :=
      if blks_read <? icbpt csp then
        csp{{leave_after_write := to_int (leave_after_write csp + 1)}}
           {{icbpt := blks_read}}
           {{ocbpt := Z.quot (to_int (blks_read * ibs op)) (obs op)}}
      else csp in
    (0, op{{in_full := to_int64 (in_full op + icbpt csp)}}, csp, w).

Definition coe_process_eio (op : opts_t) (skip : Z) : Z * opts_t :=
  let op :=
    if 0 <? coe_limit op
    then op{{coe_count := to_int (coe_count op + 1)}} else op in
  if (0 <? coe_limit op) && (coe_limit op <? coe_count op) then
    (SG_LIB_CAT_MEDIUM_HARD, op)
  else
    let op :=
      if highest_unrecovered op <? 0 then
        op{{highest_unrecovered := skip}}{{lowest_unrecovered := skip}}
      else
        let op :=
          if skip <? lowest_unrecovered op
          then op{{lowest_unrecovered := skip}} else op in
        if highest_unrecovered op <? skip
        then op{{highest_unrecovered := skip}} else op in
    let op := op{{unrecovered_errs := to_int (unrecovered_errs op + 1)}} in
    let op := op{{in_partial := to_int (in_partial op + 1)}} in
    (0, op{{in_full := to_int64 (in_full op - 1)}}).

(** How the single-block loop of [coe_cp_read_block_reg] is left. *)
Inductive coe_exit : Type :=
| CoeDone                       (* k reached icbpt: return 0 *)
| CoeReturn (res : Z)           (* return from inside the loop *)
| CoeShort (k res : Z).         (* goto short_read *)

(** One pass of the [for] loop; [loop] stands for the passes that follow. *)
Definition coe_step
    (loop : Z -> Z -> Z -> opts_t -> cp_state_t -> world
            -> coe_exit * opts_t * cp_state_t * world)
    (ibs k my_skip offset : Z) (op : opts_t) (csp : cp_state_t) (w : world)
  : coe_exit * opts_t * cp_state_t * world :=
  let '(moved, csp, w) :=
    if negb (offset =? if_filepos csp) then
      let '(r, w) := sys (Lseek IFILE offset) w in
      if rv r <? 0 then (false, csp, w)
      else (true, csp{{if_filepos := offset}}, w)
    else (true, csp, w) in
  if negb moved then (CoeReturn SG_LIB_FILE_ERROR, op, csp, w)
  else
    let '(r, w) := sys (Read IFILE ibs) w in
    let op := add_intr r op in
    let res := rv r in
    let next (op : opts_t) (csp : cp_state_t) :=
      loop (to_int (k + 1)) (to_int64 (my_skip + 1)) (to_int64 (offset + ibs))
        (op{{in_full := to_int64 (in_full op + 1)}})
        (csp{{bytes_read := to_int (bytes_read csp + ibs)}}) w in
    if res =? 0 then (CoeShort k res, op, csp{{leave_reason := 0}}, w)
    else if res <? 0 then
      if is_eio (err r) then
        let '(res2, op) := coe_process_eio op my_skip in
        if nz res2 then (CoeReturn res2, op, csp, w) else next op csp
      else (CoeShort k res, op, csp{{leave_reason := SG_LIB_CAT_OTHER}}, w)
    else if res <? ibs then (CoeShort k res, op, csp{{leave_reason := 0}}, w)
    else
      next (zero_coe_limit_count op)
           (csp{{if_filepos := to_int64 (if_filepos csp + ibs)}}).

(** The [for] loop, [n] blocks still to read. *)
Fixpoint coe_loop (n : nat) (ibs k my_skip offset : Z)
    (op : opts_t) (csp : cp_state_t) (w : world)
  : coe_exit * opts_t * cp_state_t * world :=
  match n with
  | O => (CoeDone, op, csp, w)
  | S n' => coe_step (coe_loop n' ibs) ibs k my_skip offset op csp w
  end.

(** The code after the label [short_read]. *)
Definition coe_short_read (ibs k res : Z) (op : opts_t) (csp : cp_state_t)
  : opts_t * cp_state_t :=
  let total_read := to_int (to_int (ibs * k) + (if 0 <? res then res else 0)) in
  let csp := csp{{icbpt := Z.quot total_read ibs}} in
  let '(op, csp) :=
    if 0 <? Z.rem total_read ibs then
      (op{{in_partial := to_int (in_partial op + 1)}},
       csp{{icbpt := to_int (icbpt csp + 1)}})
    else (op, csp) in
  let csp := csp{{ocbpt := Z.quot total_read (obs op)}} in
  let csp := csp{{leave_after_write := to_int (leave_after_write csp + 1)}} in
  if leave_reason csp =? 0 then
    (op, csp{{partial_write_bytes := Z.rem total_read (obs op)}})
  else if 0 <? Z.rem total_read (obs op) then
    (op, csp{{ocbpt := to_int (ocbpt csp + 1)}})
  else (op, csp).

Definition coe_cp_read_block_reg (op : opts_t) (csp : cp_state_t) (w : world)
    (numread_errno : Z) : Z * opts_t * cp_state_t * world :=
  let ibs := ibs_pi op in
  if numread_errno =? 0 then
    (0, op,
     csp{{icbpt := 0}}{{ocbpt := 0}}
        {{leave_after_write := to_int (leave_after_write csp + 1)}}
        {{leave_reason := 0}}, w)
  else if (numread_errno <? 0)
          && negb ((- EIO =? numread_errno) || (- EREMOTEIO =? numread_errno)) then
    (SG_LIB_CAT_OTHER, op, csp, w)
  else if (numread_errno <? 0) && (icbpt csp =? 1) then
    let '(res2, op) := coe_process_eio op (skip op) in
    if nz res2 then (res2, op, csp, w)
    else
      (0, op{{in_full := to_int64 (in_full op + 1)}},
       csp{{bytes_read := to_int (bytes_read csp + ibs)}}, w)
  else
    let num_read :=
      if numread_errno <? 0 then 0
      else to_int (Z.quot numread_errno ibs * ibs) in
    let k := Z.quot num_read ibs in
    let op :=
      if 0 <? k
      then zero_coe_limit_count (op{{in_full := to_int64 (in_full op + k)}})
      else op in
    let csp := csp{{bytes_read := num_read}} in
    let my_skip := to_int64 (skip op + k) in
    let offset := to_int64 (my_skip * ibs) in
    let '(ex, op, csp, w) :=
      coe_loop (Z.to_nat (icbpt csp - k)) ibs k my_skip offset op csp w in
    match ex with
    | CoeDone => (0, op, csp, w)
    | CoeReturn res => (res, op, csp, w)
    | CoeShort k res =>
        let '(op, csp) := coe_short_read ibs k res op csp in (0, op, csp, w)
    end.

(** The Windows branch ([SG_LIB_WIN32]) is not modelled. *)
Definition cp_read_block_reg (op : opts_t) (csp : cp_state_t) (w : world)
  : Z * opts_t * cp_state_t * world :=
  let offset := to_int64 (skip op * ibs_pi op) in
  let numbytes := to_int (icbpt csp * ibs_pi op) in
  let ibs := ibs_pi op in
  let '(moved, csp, w) :=
    if negb (offset =? if_filepos csp) then
      let '(r, w) := sys (Lseek IFILE offset) w in
      if rv r <? 0 then (false, csp, w)
      else (true, csp{{if_filepos := offset}}, w)
    else (true, csp, w) in
  if negb moved then (SG_LIB_FILE_ERROR, op, csp, w)
  else
    let '(r, w) := sys (Read IFILE numbytes) w in
    let op := add_intr r op in
    let res := rv r in
    if nz (coe (iflagp op)) && (res <? numbytes) then
      let res2 := if 0 <=? res then res else to_int (- err r) in
      let csp :=
        if 0 <? res2
        then csp{{if_filepos := to_int64 (if_filepos csp + res2)}} else csp in
      coe_cp_read_block_reg op csp w res2
    else if res <? 0 then
      if is_eio (err r) then (SG_LIB_CAT_MEDIUM_HARD, op, csp, w)
      else (SG_LIB_CAT_OTHER, op, csp, w)
    else
      let '(op, csp, w) :=
        if res <? numbytes then
          let csp := csp{{icbpt := Z.quot res ibs}} in
          let '(op, csp) :=
            if 0 <? Z.rem res ibs then
              (op{{in_partial := to_int (in_partial op + 1)}}
                 {{in_full := to_int64 (in_full op - 1)}},
               csp{{icbpt := to_int (icbpt csp + 1)}})
            else (op, csp) in
          let csp := csp{{ocbpt := Z.quot res (obs op)}} in
          let csp :=
            csp{{leave_after_write := to_int (leave_after_write csp + 1)}} in
          let csp := csp{{leave_reason := 0}} in
          let '(res2, op, csp, w) :=
            if (ibs <=? res) && (res <=? to_int (numbytes - ibs)) then
              (* "Want to check for a EIO lurking" *)
              let '(r2, w) := sys (Read IFILE ibs) w in
              let op := add_intr r2 op in
              if rv r2 <? 0 then
                if is_eio (err r2) then
                  (rv r2,
                   op{{unrecovered_errs := to_int (unrecovered_errs op + 1)}},
                   csp{{leave_reason := SG_LIB_CAT_MEDIUM_HARD}}, w)
                else (rv r2, op, csp{{leave_reason := SG_LIB_CAT_OTHER}}, w)
              else
                (rv r2, op,
                 csp{{if_filepos := to_int64 (if_filepos csp + rv r2)}}, w)
            else (0, op, csp, w) in
          let csp :=
            if leave_reason csp =? 0 then
              csp{{partial_write_bytes := Z.rem (to_int (res + res2)) (obs op)}}
            else if 0 <? Z.rem res (obs op) then
              csp{{ocbpt := to_int (ocbpt csp + 1)}}
            else csp in
          (op, csp, w)
        else (op, csp, w) in
      let csp := csp{{if_filepos := to_int64 (if_filepos csp + res)}} in
      let csp := csp{{bytes_read := res}} in
      (0, op{{in_full := to_int64 (in_full op + icbpt csp)}}, csp, w).

Definition cp_read_tape (op : opts_t) (csp : cp_state_t) (w : world)
  : Z * opts_t * cp_state_t * world :=
  let num := to_int (icbpt csp * ibs op) in
  let op := op{{read_tape_numbytes := num}} in
  let '(r, w) := sys (Read IFILE num) w in
  let op := add_intr r op in
  let res := rv r in
  if res <? 0 then
    let op := op{{last_tape_read_len := 0}} in
    if is_eio (err r) then (SG_LIB_CAT_MEDIUM_HARD, op, csp, w)
    else (SG_LIB_CAT_OTHER, op, csp, w)
  else
    let op :=
      if 1 <? verbose op then
        if res =? last_tape_read_len op then
          op{{consec_same_len_reads := to_int (consec_same_len_reads op + 1)}}
        else op{{last_tape_read_len := res}}{{consec_same_len_reads := 1}}
      else op in
    let '(op, csp) :=
      if res <? num then
        let csp := csp{{icbpt := Z.quot res (ibs op)}} in
        let '(op, csp) :=
          if 0 <? Z.rem res (ibs op) then
            (op{{in_partial := to_int (in_partial op + 1)}}
               {{in_full := to_int64 (in_full op - 1)}},
             csp{{icbpt := to_int (icbpt csp + 1)}})
          else (op, csp) in
        let csp := csp{{ocbpt := Z.quot res (obs op)}} in
        let csp :=
          csp{{leave_after_write := to_int (leave_after_write csp + 1)}} in
        let csp := csp{{leave_reason := REASON_TAPE_SHORT_READ}} in
        (op, csp{{partial_write_bytes := Z.rem res (obs op)}})
      else (op, csp) in
    let csp := csp{{if_filepos := to_int64 (if_filepos csp + res)}} in
    let csp := csp{{bytes_read := res}} in
    (0, op{{in_full := to_int64 (in_full op + icbpt csp)}}, csp, w).

(** One pass of the gathering loop of [cp_read_fifo]; [loop] stands for the
    passes that follow, and [None] is the [return] on a read error. *)
Definition fifo_step
    (loop : Z -> opts_t -> cp_state_t -> world
            -> option Z * opts_t * cp_state_t * world)
    (numbytes k : Z) (op : opts_t) (csp : cp_state_t) (w : world)
  : option Z * opts_t * cp_state_t * world :=
  let '(r, w) := sys (Read IFILE (to_int (numbytes - k))) w in
  let op := add_intr r op in
  let res := rv r in
  if res <? 0 then (None, op, csp, w)
  else if res =? 0 then
    let csp := csp{{icbpt := Z.quot k (ibs op)}} in
    let '(op, csp) :=
      if 0 <? Z.rem k (ibs op) then
        (op{{in_partial := to_int (in_partial op + 1)}}
           {{in_full := to_int64 (in_full op - 1)}},
         csp{{icbpt := to_int (icbpt csp + 1)}})
      else (op, csp) in
    let csp := csp{{ocbpt := Z.quot k (obs op)}} in
    let csp :=
      csp{{leave_after_write := to_int (leave_after_write csp + 1)}} in
    let csp := csp{{leave_reason := 0}} in
    (Some k, op, csp{{partial_write_bytes := Z.rem k (obs op)}}, w)
  else loop (to_int (k + res)) op csp w.

(** The gathering loop of [cp_read_fifo].  Every pass but the last adds at
    least one byte, so [numbytes] passes are enough. *)
Fixpoint fifo_loop (n : nat) (numbytes k : Z)
    (op : opts_t) (csp : cp_state_t) (w : world)
  : option Z * opts_t * cp_state_t * world :=
  if negb (k <? numbytes) then (Some k, op, csp, w)
  else
    match n with
    | O => (Some k, op, csp, w)
    | S n' => fifo_step (fifo_loop n' numbytes) numbytes k op csp w
    end.

Definition cp_read_fifo (op : opts_t) (csp : cp_state_t) (w : world)
  : Z * opts_t * cp_state_t * world :=
  let offset := to_int64 (skip op * ibs op) in
  let numbytes := to_int (icbpt csp * ibs op) in
  let csp :=
    if negb (offset =? if_filepos csp)
    then csp{{if_filepos := offset}} else csp in
  let '(ok, op, csp, w) := fifo_loop (Z.to_nat numbytes) numbytes 0 op csp w in
  match ok with
  | None => (SG_LIB_CAT_OTHER, op, csp, w)
  | Some k =>
      let csp := csp{{if_filepos := to_int64 (if_filepos csp + k)}} in
      let csp := csp{{bytes_read := k}} in
      (0, op{{in_full := to_int64 (in_full op + icbpt csp)}}, csp, w)
  end.

(** *** Secondary output and read-back: [cp_write_of2], [cp_read_of_pt],
    [cp_read_of_block_reg] *)

(** The [do ... while] loop that writes to a fifo "if making progress";
    it yields the last [res], [errno] and [off].  Each further pass needs
    [off] to have grown, so [numbytes] further passes are enough. *)
Fixpoint write_loop (n : nat) (s : side) (fifo : bool) (numbytes off : Z)
    (op : opts_t) (w : world) : Z * Z * Z * opts_t * world :=
  let '(r, w) := sys (Write s (to_int (numbytes - off))) w in
  let op := add_intr r op in
  if fifo && (0 <? rv r) then
    let off := to_int (off + rv r) in
    if off <? numbytes then
      match n with
      | O => (rv r, err r, off, op, w)
      | S n' => write_loop n' s fifo numbytes off op w
      end
    else (rv r, err r, off, op, w)
  else (rv r, err r, off, op, w).

Definition cp_write_of2 (op : opts_t) (csp : cp_state_t) (w : world)
  : Z * opts_t * cp_state_t * world :=
  let numbytes := to_int (to_int (ocbpt csp * obs op) + partial_write_bytes csp) in
  let '(res, _, off, op, w) :=
    write_loop (Z.to_nat numbytes) OFILE2 (ft_has FT_FIFO (out2_type op))
      numbytes 0 op w in
  let res := if numbytes <=? off then numbytes else res in
  if res <? 0 then (-1, op, csp, w)
  else (0, op, csp{{bytes_of2 := res}}, w).

Definition cp_read_of_pt (op : opts_t) (csp : cp_state_t) (w : world)
  : Z * opts_t * cp_state_t * world :=
  let '(res, blks_read, w) := pt_read OFILE (ocbpt csp) w in
  if nz res then (res, op, csp, w)
  else if negb (blks_read =? ocbpt csp) then (1, op, csp, w)
  else (0, op, csp, w).

Definition cp_read_of_block_reg (op : opts_t) (csp : cp_state_t) (w : world)
  : Z * opts_t * cp_state_t * world :=
  let offset := to_int64 (seek op * obs op) in
  let numbytes := to_int (ocbpt csp * obs op) in
  let '(moved, csp, w) :=
    if negb (offset =? of_filepos csp) then
      let '(r, w) := sys (Lseek OFILE offset) w in
      if rv r <? 0 then (false, csp, w)
      else (true, csp{{of_filepos := offset}}, w)
    else (true, csp, w) in
  if negb moved then (SG_LIB_FILE_ERROR, op, csp, w)
  else
    let numbytes :=
      if 0 <? partial_write_bytes csp
      then to_int (numbytes + partial_write_bytes csp) else numbytes in
    let '(r, w) := sys (Read OFILE numbytes) w in
    let op := add_intr r op in
    if rv r <? 0 then (-1, op, csp, w)
    else if rv r =? numbytes then
      (0, op, csp{{of_filepos := to_int64 (of_filepos csp + numbytes)}}, w)
    else (1, op, csp, w).

(** *** Write phase: [cp_write_pt], [cp_write_tape], [cp_write_block_reg] *)

(** Modelled from the spec: [pt_write] of [ddpt_pt.c] is not among the
    sources.  Section 4.4 gives it as [write(buf, nblocks, lba)] with a
    status; the answer carries the status ([rv]). *)
Definition pt_write (blocks lba : Z) (w : world) : Z * world :=
  let '(r, w) := sys (PtWrite blocks lba) w in (rv r, w).

(** Modelled from the spec: [pt_write_same16] of [ddpt_pt.c] is not among
    the sources.  Section 4.4 gives it as
    [write_same(buf, block_size, nblocks, lba)], "used for TRIM of
    identified runs"; the answer carries the status ([rv]). *)
Definition pt_write_same16 (blocks lba : Z) (w : world) : Z * world :=
  let '(r, w) := sys (PtWriteSame16 blocks lba) w in (rv r, w).

Definition cp_write_pt (op : opts_t) (csp : cp_state_t) (seek_delta blks : Z)
    (w : world) : Z * opts_t * cp_state_t * world :=
  let aseek := to_int64 (seek op + seek_delta) in
  if nz (nowrite (oflagp op)) then (0, op, csp, w)
  else
    let '(csp, blks) :=
      if (0 <? partial_write_bytes csp) && nz (pad (oflagp op)) then
        (csp{{ocbpt := to_int (ocbpt csp + 1)}}, to_int (blks + 1))
      else (csp, blks) in
    let '(res, w) := pt_write blks aseek w in
    if nz res then (res, op, csp, w)
    else (0, op{{out_full := to_int64 (out_full op + blks)}}, csp, w).

(** What follows a [write] that was asked for [numbytes] bytes in
    [cp_write_tape] and [cp_write_block_reg]. *)
Definition cp_write_result (res e numbytes blks obs : Z)
    (op : opts_t) (csp : cp_state_t) : Z * opts_t * cp_state_t :=
  if res <? 0 then
    if is_eio e then (SG_LIB_CAT_MEDIUM_HARD, op, csp)
    else (SG_LIB_CAT_OTHER, op, csp)
  else if res <? numbytes then
    let csp := csp{{of_filepos := to_int64 (of_filepos csp + res)}} in
    let csp := csp{{bytes_of := res}} in
    let op := op{{out_full := to_int64 (out_full op + Z.quot res obs)}} in
    let op :=
      if 0 <? Z.rem res obs then
        op{{out_partial := to_int (out_partial op + 1)}}
          {{out_full := to_int64 (out_full op + 1)}}
      else op in
    (-1, op, csp)
  else
    let csp := csp{{of_filepos := to_int64 (of_filepos csp + numbytes)}} in
    let csp := csp{{bytes_of := numbytes}} in
    (0, op{{out_full := to_int64 (out_full op + blks)}}, csp).

Definition cp_write_tape (op : opts_t) (csp : cp_state_t) (w : world)
  : Z * opts_t * cp_state_t * world :=
  let blks := ocbpt csp in
  let numbytes := to_int (blks * obs op) in
  if nz (nowrite (oflagp op)) then (0, op, csp, w)
  else
    let '(op, csp, blks, numbytes) :=
      if 0 <? partial_write_bytes csp then
        let numbytes := to_int (numbytes + partial_write_bytes csp) in
        if nz (nopad (oflagp op)) then
          (op{{out_partial := to_int (out_partial op + 1)}}, csp, blks, numbytes)
        else
          (op, csp{{ocbpt := to_int (ocbpt csp + 1)}}, to_int (blks + 1),
           to_int (to_int (blks + 1) * obs op))
      else (op, csp, blks, numbytes) in
    let '(r, w) := sys (Write OFILE numbytes) w in
    let op := add_intr r op in
    (* "Handle EOM early warning": one retry *)
    let '(r, op, w) :=
      if nz (ignoreew (oflagp op)) && (rv r =? -1) && (err r =? ENOSPC) then
        let '(r, w) := sys (Write OFILE numbytes) w in (r, add_intr r op, w)
      else (r, op, w) in
    let '(res, op, csp) :=
      cp_write_result (rv r) (err r) numbytes blks (obs op) op csp in
    (res, op, csp, w).

(** The Windows branch ([SG_LIB_WIN32]) is not modelled. *)
Definition cp_write_block_reg (op : opts_t) (csp : cp_state_t)
    (seek_delta blks : Z) (w : world) : Z * opts_t * cp_state_t * world :=
  let aseek := to_int64 (seek op + seek_delta) in
  let numbytes := to_int (blks * obs_pi op) in
  let obs := obs_pi op in
  if nz (nowrite (oflagp op)) then (0, op, csp, w)
  else
    let offset := to_int64 (aseek * obs) in
    let '(op, csp, blks, numbytes) :=
      if 0 <? partial_write_bytes csp then
        if nz (pad (oflagp op)) then
          (op, csp{{ocbpt := to_int (ocbpt csp + 1)}}, to_int (blks + 1),
           to_int (to_int (blks + 1) * obs))
        else if ft_has FT_BLOCK (out_type op) then (op, csp, blks, numbytes)
        else
          (op{{out_partial := to_int (out_partial op + 1)}}, csp, blks,
           to_int (numbytes + partial_write_bytes csp))
      else (op, csp, blks, numbytes) in
    let '(moved, csp, w) :=
      if negb (offset =? of_filepos csp)
         && negb (REASON_TAPE_SHORT_READ =? leave_reason csp) then
        let '(r, w) := sys (Lseek OFILE offset) w in
        if rv r <? 0 then (false, csp, w)
        else (true, csp{{of_filepos := offset}}, w)
      else (true, csp, w) in
    if negb moved then (SG_LIB_FILE_ERROR, op, csp, w)
    else
      let '(res, e, off, op, w) :=
        write_loop (Z.to_nat numbytes) OFILE (ft_has FT_FIFO (out_type op))
          numbytes 0 op w in
      let res := if numbytes <=? off then numbytes else res in
      let '(res, op, csp) := cp_write_result res e numbytes blks obs op csp in
      (res, op, csp, w).

(** *** Sparse, sparing and trim: [cp_sparse_cleanup], [cp_finer_comp_wr] *)

Definition cp_sparse_cleanup (op : opts_t) (csp : cp_state_t) (w : world)
  : opts_t * cp_state_t * world :=
  let offset := to_int64 (seek op * obs op) in
  if of_filepos csp <? offset then
    if (strunc (oflagp op) =? 0) && (1 <? sparse (oflagp op)) then (op, csp, w)
    else
      let '(st, w) := sys (Fstat OFILE) w in
      if rv st <? 0 then (op, csp, w)
      else if offset =? aux st then (op, csp, w)
      else if offset <? aux st then (op, csp, w)
      else if nz (strunc (oflagp op)) then
        let '(_, w) := sys (Ftruncate offset) w in (op, csp, w)
      else if sparse (oflagp op) =? 1 then
        let '(res, op, csp, w) := cp_write_block_reg op csp (-1) 1 w in
        if res <? 0 then (op, csp, w)
        else (op{{out_sparse := to_int64 (out_sparse op - 1)}}, csp, w)
      else (op, csp, w)
  else (op, csp, w).

(** The write of a run found by [cp_finer_comp_wr]. *)
Definition finer_write (op : opts_t) (csp : cp_state_t) (seek_delta blks : Z)
    (w : world) : Z * opts_t * cp_state_t * world :=
  if ft_has FT_DEV_NULL (out_type op) then (0, op, csp, w)
  else if ft_has FT_PT (out_type op) then cp_write_pt op csp seek_delta blks w
  else cp_write_block_reg op csp seek_delta blks w.

(** The trim of a run found by [cp_finer_comp_wr]: "continue past trim
    errors". *)
Definition finer_trim (op : opts_t) (obs tr_len tr_k : Z) (w : world)
  : opts_t * world :=
  let '(res, w) :=
    pt_write_same16 (Z.quot tr_len obs) (to_int64 (seek op + Z.quot tr_k obs)) w in
  (if nz res then op{{trim_errs := to_int (trim_errs op + 1)}} else op, w).

(** The runs being gathered by the loop of [cp_finer_comp_wr]. *)
Record finer_runs : Type := {
  need_wr : bool; wr_len : Z; wr_k : Z;
  need_tr : bool; tr_len : Z; tr_k : Z
}.

(** One pass of the [for] loop of [cp_finer_comp_wr]; [loop] stands for
    the passes that follow, and the first component is the value returned
    from inside the loop, if any. *)
Definition finer_step
    (loop : Z -> finer_runs -> opts_t -> cp_state_t -> world
            -> option Z * finer_runs * opts_t * cp_state_t * world)
    (b2p : cmp_buf) (trim_check : bool) (obs numbytes chunk k : Z)
    (fr : finer_runs) (op : opts_t) (csp : cp_state_t) (w : world)
  : option Z * finer_runs * opts_t * cp_state_t * world :=
  let n :=
    if to_int (k + chunk) <? numbytes then chunk else to_int (numbytes - k) in
  let '(r, w) := sys (Memcmp b2p k n) w in
  if rv r =? 0 then
    let '(res, op, csp, w) :=
      if need_wr fr then
        finer_write op csp (Z.quot (wr_k fr) obs) (Z.quot (wr_len fr) obs) w
      else (0, op, csp, w) in
    if nz res then (Some res, fr, op, csp, w)
    else
      let fr :=
        {| need_wr := false; wr_len := wr_len fr; wr_k := wr_k fr;
           need_tr := need_tr fr || trim_check;
           tr_len :=
             if need_tr fr then to_int (tr_len fr + n)
             else if trim_check then n else tr_len fr;
           tr_k :=
             if need_tr fr then tr_k fr
             else if trim_check then k else tr_k fr |} in
      let op := op{{out_sparse := to_int64 (out_sparse op + Z.quot n obs)}} in
      loop (to_int (k + chunk)) fr op csp w
  else
    let '(op, w) :=
      if need_tr fr then finer_trim op obs (tr_len fr) (tr_k fr) w
      else (op, w) in
    let fr :=
      {| need_wr := true;
         wr_len := if need_wr fr then to_int (wr_len fr + n) else n;
         wr_k := if need_wr fr then wr_k fr else k;
         need_tr := false; tr_len := tr_len fr; tr_k := tr_k fr |} in
    loop (to_int (k + chunk)) fr op csp w.

(** The [for] loop of [cp_finer_comp_wr].  [chunk] is at least one byte at
    both call sites, so [numbytes] passes are enough. *)
Fixpoint finer_loop (fuel : nat) (b2p : cmp_buf) (trim_check : bool)
    (obs numbytes chunk k : Z) (fr : finer_runs)
    (op : opts_t) (csp : cp_state_t) (w : world)
  : option Z * finer_runs * opts_t * cp_state_t * world :=
  if negb (k <? numbytes) then (None, fr, op, csp, w)
  else
    match fuel with
    | O => (None, fr, op, csp, w)
    | S fuel' =>
        finer_step (finer_loop fuel' b2p trim_check obs numbytes chunk)
          b2p trim_check obs numbytes chunk k fr op csp w
    end.

Definition cp_finer_comp_wr (op : opts_t) (csp : cp_state_t) (b2p : cmp_buf)
    (w : world) : Z * opts_t * cp_state_t * world :=
  let oblks := ocbpt csp in
  let obs := obs op in
  if oblks <=? obpc op then finer_write op csp 0 oblks w
  else
    let numbytes := to_int (oblks * obs) in
    let numbytes :=
      if ft_has FT_REG (out_type op) && (0 <? partial_write_bytes csp)
      then to_int (numbytes + partial_write_bytes csp) else numbytes in
    let chunk := to_int (obpc op * obs) in
    let trim_check :=
      nz (sparse (oflagp op)) && nz (wsame16 (oflagp op))
      && ft_has FT_PT (out_type op) in
    let fr0 :=
      {| need_wr := false; wr_len := 0; wr_k := 0;
         need_tr := false; tr_len := 0; tr_k := 0 |} in
    let '(ret, fr, op, csp, w) :=
      finer_loop (Z.to_nat numbytes) b2p trim_check obs numbytes chunk 0 fr0
        op csp w in
    match ret with
    | Some res => (res, op, csp, w)
    | None =>
        let '(res, op, csp, w) :=
          if need_wr fr then
            finer_write op csp (Z.quot (wr_k fr) obs) (Z.quot (wr_len fr) obs) w
          else (0, op, csp, w) in
        if nz res then (res, op, csp, w)
        else
          let '(op, w) :=
            if need_tr fr then finer_trim op obs (tr_len fr) (tr_k fr) w
            else (op, w) in
          (0, op, csp, w)
    end.

(** *** [process_signals], [do_fadvise], [cp_construct_pt_zero_buff] *)

(** The environment says which fatal signal, if any, is pending ([rv],
    0 for none); a pending info signal only prints a progress report.  A
    fatal signal is raised again with its default action and ends the
    process. *)
Definition process_signals (w : world) : Z * world :=
  let '(r, w) := sys Signals w in (rv r, w).

Definition do_fadvise (op : opts_t) (bytes_if bytes_of bytes_of2 : Z)
    (w : world) : opts_t * world :=
  if HAVE_POSIX_FADVISE then
    let in_valid := (FT_REG =? in_type op) || (FT_BLOCK =? in_type op) in
    let out2_valid := (FT_REG =? out2_type op) || (FT_BLOCK =? out2_type op) in
    let out_valid := (FT_REG =? out_type op) || (FT_BLOCK =? out_type op) in
    let '(op, w) :=
      if nz (nocache (iflagp op)) && (0 <? bytes_if) && in_valid then
        let op :=
          if (lowest_skip op <? 0) || (lowest_skip op <? skip op)
          then op{{lowest_skip := skip op}} else op in
        let '(_, w) :=
          sys (PosixFadvise IFILE (to_int64 (lowest_skip op * ibs op))
                 (to_int64 (to_int64 (to_int64 (skip op - lowest_skip op) * ibs op)
                            + bytes_if))) w in
        (op, w)
      else (op, w) in
    let w :=
      if nz (Z.land (nocache (oflagp op)) 2) && (0 <? bytes_of2) && out2_valid
      then snd (sys (PosixFadvise OFILE2 0 0) w) else w in
    if nz (Z.land (nocache (oflagp op)) 1) && (0 <? bytes_of) && out_valid then
      let op :=
        if (lowest_seek op <? 0) || (lowest_seek op <? seek op)
        then op{{lowest_seek := seek op}} else op in
      let '(_, w) :=
        sys (PosixFadvise OFILE (to_int64 (lowest_seek op * obs op))
               (to_int64 (to_int64 (to_int64 (seek op - lowest_seek op) * obs op)
                          + bytes_of))) w in
      (op, w)
    else (op, w)
  else (op, w).

(** [pt_construct_obj] and [calloc] answer 0 for [NULL]. *)
Definition cp_construct_pt_zero_buff (op : opts_t) (obpt : Z) (w : world)
  : Z * opts_t * world :=
  let '(ok, op, w) :=
    if ft_has FT_PT (in_type op) && negb (if_ptvp op) then
      let '(r, w) := sys PtConstructObj w in
      (nz (rv r), op{{if_ptvp := nz (rv r)}}, w)
    else (true, op, w) in
  if negb ok then (-1, op, w)
  else
    let '(ok, op, w) :=
      if ft_has FT_PT (out_type op) && negb (of_ptvp op) then
        let '(r, w) := sys PtConstructObj w in
        (nz (rv r), op{{of_ptvp := nz (rv r)}}, w)
      else (true, op, w) in
    if negb ok then (-1, op, w)
    else if nz (sparse (oflagp op)) && negb (zeros_buff op) then
      let '(r, w) := sys (Calloc (to_int (obpt * obs op))) w in
      if nz (rv r) then (0, op{{zeros_buff := true}}, w) else (-1, op, w)
    else (0, op, w).

(** *** [do_copy]

    The body of the main loop is cut at its comments: the planning of the
    chunk, "Start of reading section", the secondary output with the sparse
    and sparing tests, "Start of writing section", and the code after the
    label [bypass_write].  [could_be_last] only selects a message of
    [cp_write_tape] and is left out. *)

Definition cp_plan (continual_read : bool) (ibpt obpt : Z)
    (op : opts_t) (csp : cp_state_t) : cp_state_t :=
  let csp := csp{{bytes_read := 0}}{{bytes_of := 0}}{{bytes_of2 := 0}} in
  if (ibpt <=? dd_count op) || continual_read then
    csp{{icbpt := ibpt}}{{ocbpt := obpt}}
  else
    let csp := csp{{icbpt := to_int (dd_count op)}} in
    let res := to_int (dd_count op) in
    let n := to_int (res * ibs op) in
    let csp := csp{{ocbpt := Z.quot n (obs op)}} in
    if nz (Z.rem n (obs op)) then csp{{ocbpt := to_int (ocbpt csp + 1)}}
    else csp.

Definition cp_read (op : opts_t) (csp : cp_state_t) (w : world)
  : Z * opts_t * cp_state_t * world :=
  if ft_has FT_PT (in_type op) then cp_read_pt op csp w
  else if ft_has FT_FIFO (in_type op) then cp_read_fifo op csp w
  else if ft_has FT_TAPE (in_type op) then cp_read_tape op csp w
  else cp_read_block_reg op csp w.

(** Where the tests between the reading and the writing section lead. *)
Inductive cmp_exit : Type :=
| ToWrite (sparing_skip sparse_skip : bool)   (* on to the writing section *)
| ToBypass                                    (* goto bypass_write *)
| ToBreak (ret : Z).                          (* break *)

Definition cp_sparse (op : opts_t) (csp : cp_state_t) (w : world)
  : cmp_exit * opts_t * cp_state_t * world :=
  if nz (sparse (oflagp op)) then
    let n := to_int (to_int (ocbpt csp * obs op) + partial_write_bytes csp) in
    let '(r, w) := sys (Memcmp ZEROS_BUFF 0 n) w in
    if rv r =? 0 then
      if nz (wsame16 (oflagp op)) && ft_has FT_PT (out_type op) then
        let '(res, w) := pt_write_same16 (ocbpt csp) (seek op) w in
        (ToWrite false true,
         if nz res then op{{trim_errs := to_int (trim_errs op + 1)}} else op,
         csp, w)
      else (ToWrite false true, op, csp, w)
    else if nz (obpc op) then
      let '(ret, op, csp, w) := cp_finer_comp_wr op csp ZEROS_BUFF w in
      if nz ret then (ToBreak ret, op, csp, w) else (ToBypass, op, csp, w)
    else (ToWrite false false, op, csp, w)
  else (ToWrite false false, op, csp, w).

Definition cp_sparing (sparse_skip : bool) (op : opts_t) (csp : cp_state_t)
    (w : world) : cmp_exit * opts_t * cp_state_t * world :=
  if nz (sparing (oflagp op)) && negb sparse_skip then
    let '(res, op, csp, w) :=
      if ft_has FT_PT (out_type op) then cp_read_of_pt op csp w
      else cp_read_of_block_reg op csp w in
    if res =? 0 then
      let n := to_int (to_int (ocbpt csp * obs op) + partial_write_bytes csp) in
      let '(r, w) := sys (Memcmp WRKPOS2 0 n) w in
      if rv r =? 0 then (ToWrite true sparse_skip, op, csp, w)
      else if nz (obpc op) then
        let '(ret, op, csp, w) := cp_finer_comp_wr op csp WRKPOS2 w in
        if nz ret then (ToBreak ret, op, csp, w) else (ToBypass, op, csp, w)
      else (ToWrite false sparse_skip, op, csp, w)
    else (ToBreak res, op, csp, w)
  else (ToWrite false sparse_skip, op, csp, w).

(** The sparse test followed by the sparing test. *)
Definition cp_tests (op : opts_t) (csp : cp_state_t) (w : world)
  : cmp_exit * opts_t * cp_state_t * world :=
  let '(ex, op, csp, w) := cp_sparse op csp w in
  match ex with
  | ToWrite _ sparse_skip => cp_sparing sparse_skip op csp w
  | _ => (ex, op, csp, w)
  end.

(** From the end of the reading section to the writing section. *)
Definition cp_compare (op : opts_t) (csp : cp_state_t) (w : world)
  : cmp_exit * opts_t * cp_state_t * world :=
  let '(ret, op, csp, w) :=
    if 0 <=? out2fd op then cp_write_of2 op csp w else (0, op, csp, w) in
  if nz ret then (ToBreak ret, op, csp, w) else cp_tests op csp w.

(** The writing section after its call of [process_signals]. *)
Definition cp_write (sparing_skip sparse_skip : bool)
    (op : opts_t) (csp : cp_state_t) (w : world)
  : Z * opts_t * cp_state_t * world :=
  if sparing_skip || sparse_skip then
    let op := op{{out_sparse := to_int64 (out_sparse op + ocbpt csp)}} in
    let op :=
      if 0 <? partial_write_bytes csp
      then op{{out_sparse_partial := to_int (out_sparse_partial op + 1)}}
      else op in
    (0, op, csp, w)
  else if ft_has FT_PT (out_type op) then cp_write_pt op csp 0 (ocbpt csp) w
  else if ft_has FT_DEV_NULL (out_type op) then (0, op, csp, w)
  else if ft_has FT_TAPE (out_type op) then cp_write_tape op csp w
  else cp_write_block_reg op csp 0 (ocbpt csp) w.

(** The code after the label [bypass_write]. *)
Definition cp_bypass_write (op : opts_t) (csp : cp_state_t) (w : world)
  : iter_exit * opts_t * cp_state_t * world :=
  let '(op, w) := do_fadvise op (bytes_read csp) (bytes_of csp) (bytes_of2 csp) w in
  let op :=
    if 0 <? dd_count op
    then op{{dd_count := to_int64 (dd_count op - icbpt csp)}} else op in
  let op := op{{skip := to_int64 (skip op + icbpt csp)}} in
  let op := op{{seek := to_int64 (seek op + ocbpt csp)}} in
  if nz (leave_after_write csp) then
    if REASON_TAPE_SHORT_READ =? leave_reason csp then
      (Continue, op, csp{{partial_write_bytes := 0}}{{leave_after_write := 0}}, w)
    else (Break (leave_reason csp), op, csp, w)
  else (Continue, op, csp, w).

(** Where a pass through the body stands when the reading section and the
    tests are done. *)
Inductive stage : Type :=
| AtWrite (sparing_skip sparse_skip : bool)   (* "Start of writing section" *)
| AtBypass                                    (* at the label bypass_write *)
| Left (ex : iter_exit).                      (* the loop was left *)

(** The body of the main loop up to "Start of writing section". *)
Definition cp_to_write (continual_read : bool) (ibpt obpt : Z)
    (op : opts_t) (csp : cp_state_t) (w : world)
  : stage * opts_t * cp_state_t * world :=
  let csp := cp_plan continual_read ibpt obpt op csp in
  let '(sig, w) := process_signals w in
  if nz sig then (Left (Killed sig), op, csp, w)
  else
    let '(ret, op, csp, w) := cp_read op csp w in
    if nz ret then (Left (Break ret), op, csp, w)
    else if icbpt csp =? 0 then (Left (Break 0), op, csp, w)
    else
      let '(ex, op, csp, w) := cp_compare op csp w in
      match ex with
      | ToBreak ret => (Left (Break ret), op, csp, w)
      | ToBypass => (AtBypass, op, csp, w)
      | ToWrite sparing_skip sparse_skip =>
          (AtWrite sparing_skip sparse_skip, op, csp, w)
      end.

(** The writing section and the code after it. *)
Definition cp_from_write (sparing_skip sparse_skip : bool)
    (op : opts_t) (csp : cp_state_t) (w : world)
  : iter_exit * opts_t * cp_state_t * world :=
  let '(sig, w) := process_signals w in
  if nz sig then (Killed sig, op, csp, w)
  else
    let '(ret, op, csp, w) := cp_write sparing_skip sparse_skip op csp w in
    if nz ret then (Break ret, op, csp, w) else cp_bypass_write op csp w.

(** One pass through the body of the main loop. *)
Definition do_copy_iter (continual_read : bool) (ibpt obpt : Z)
    (op : opts_t) (csp : cp_state_t) (w : world)
  : iter_exit * opts_t * cp_state_t * world :=
  let '(st, op, csp, w) := cp_to_write continual_read ibpt obpt op csp w in
  match st with
  | Left ex => (ex, op, csp, w)
  | AtBypass => cp_bypass_write op csp w
  | AtWrite sparing_skip sparse_skip =>
      cp_from_write sparing_skip sparse_skip op csp w
  end.

(** How the main loop ends: by its condition or a [break] with the value
    of [ret], by a fatal signal, or not within [fuel] passes. *)
Inductive loop_exit : Type :=
| LoopReturn (ret : Z)
| LoopKilled (sig : Z)
| LoopFuel.

Fixpoint do_copy_loop (fuel : nat) (continual_read : bool) (ibpt obpt : Z)
    (op : opts_t) (csp : cp_state_t) (w : world)
  : loop_exit * opts_t * cp_state_t * world :=
  if (0 <? dd_count op) || continual_read then
    match fuel with
    | O => (LoopFuel, op, csp, w)
    | S fuel' =>
        let '(ex, op, csp, w) := do_copy_iter continual_read ibpt obpt op csp w in
        match ex with
        | Continue => do_copy_loop fuel' continual_read ibpt obpt op csp w
        | Break ret => (LoopReturn ret, op, csp, w)
        | Killed sig => (LoopKilled sig, op, csp, w)
        end
    end
  else (LoopReturn 0, op, csp, w).

Definition cp_state_zero : cp_state_t :=
  {| icbpt := 0; ocbpt := 0; partial_write_bytes := 0; if_filepos := 0;
     of_filepos := 0; bytes_read := 0; bytes_of := 0; bytes_of2 := 0;
     leave_after_write := 0; leave_reason := 0 |}.

(** The code of [do_copy] after the main loop, up to [copy_end]. *)
Definition do_copy_finish (op : opts_t) (csp : cp_state_t) (w : world)
  : opts_t * world :=
  let '(op, csp, w) :=
    if ft_has FT_REG (out_type op) && (nowrite (oflagp op) =? 0)
       && nz (sparse (oflagp op))
    then cp_sparse_cleanup op csp w else (op, csp, w) in
  if nz (Z.land (Z.lor (Z.lor (Z.lor (Z.lor FT_PT FT_DEV_NULL) FT_FIFO) FT_CHAR)
                   FT_TAPE) (out_type op)) then (op, w)
  else if HAVE_FDATASYNC && nz (fdatasync (oflagp op)) then
    (op, snd (sys Fdatasync w))
  else if HAVE_FSYNC && nz (fsync (oflagp op)) then (op, snd (sys Fsync w))
  else (op, w).

(** The code at the label [copy_end]. *)
Definition do_copy_end (op : opts_t) (w : world) : opts_t * world :=
  let '(op, w) :=
    if if_ptvp op
    then (op{{if_ptvp := false}}, snd (sys (PtDestructObj IFILE) w))
    else (op, w) in
  if of_ptvp op
  then (op{{of_ptvp := false}}, snd (sys (PtDestructObj OFILE) w))
  else (op, w).

Definition do_copy (fuel : nat) (op : opts_t) (w : world)
  : loop_exit * opts_t * world :=
  let continual_read := nz (reading_fifo op) && (dd_count op <? 0) in
  if (dd_count op <=? 0) && negb (nz (reading_fifo op)) then (LoopReturn 0, op, w)
  else
    let csp := cp_state_zero in
    let ibpt := bpt_i op in
    let obpt := Z.quot (to_int (ibs op * bpt_i op)) (obs op) in
    let '(ret, op, w) := cp_construct_pt_zero_buff op obpt w in
    if nz ret then
      let '(op, w) := do_copy_end op w in (LoopReturn ret, op, w)
    else
      let '(ex, op, csp, w) := do_copy_loop fuel continual_read ibpt obpt op csp w in
      match ex with
      | LoopReturn ret =>
          let '(op, w) := do_copy_finish op csp w in
          let '(op, w) := do_copy_end op w in
          (LoopReturn ret, op, w)
      | _ => (ex, op, w)
      end.

(** *** Opening the files: [dd_filetype], [open_if], [open_of] *)

(** [dd_filetype] (Unix version): "." is the null device; otherwise the
    environment classifies the name ([stat] and the device numbers) and
    answers with one of the [FT_] values. *)
Definition dd_filetype (s : side) (filename : string) (w : world) : Z * world :=
  if String.eqb filename "." then (FT_DEV_NULL, w)
  else let '(r, w) := sys (Stat s) w in (rv r, w).

Definition ft_any3 (a b c t : Z) : bool := nz (Z.land (Z.lor (Z.lor a b) c) t).

(** [flock] is compiled in on Linux only. *)
Definition open_flock (fl : flags_t) (s : side) (fd : Z) (w : world)
  : Z * world :=
  if SG_LIB_LINUX && nz (flock fl) then
    let '(r, w) := sys (Flock s) w in
    if rv r <? 0 then (- SG_LIB_FLOCK_ERR, snd (sys (Close s) w)) else (fd, w)
  else (fd, w).

(** Modelled from the spec: [pt_open_if] and [pt_open_of] of [ddpt_pt.c]
    are not among the sources; the answer carries the descriptor or the
    negative error ([rv]). *)
Definition pt_open (s : side) (w : world) : Z * world :=
  let '(r, w) := sys (PtOpen s) w in (rv r, w).

Definition open_if (op : opts_t) (w : world) : Z * opts_t * world :=
  let '(ty, w) := dd_filetype IFILE (inf op) w in
  let op := op{{in_type := ty}} in
  if ft_has FT_ERROR (in_type op) then (- SG_LIB_FILE_ERROR, op, w)
  else
    let op :=
      if ft_any3 FT_BLOCK FT_TAPE FT_OTHER (in_type op) && nz (pt (iflagp op))
      then op{{in_type := Z.lor (in_type op) FT_PT}} else op in
    let op :=
      if ft_any3 FT_FIFO FT_CHAR FT_TAPE (in_type op)
      then op{{reading_fifo := to_int (reading_fifo op + 1)}} else op in
    if ft_has FT_TAPE (in_type op) && ft_has FT_PT (in_type op) then
      (- SG_LIB_FILE_ERROR, op, w)
    else if ft_has FT_PT (in_type op) then
      let '(fd, w) := pt_open IFILE w in
      if fd =? -1 then (- SG_LIB_FILE_ERROR, op, w)
      else if fd <? -1 then (- SG_LIB_CAT_OTHER, op, w)
      else let '(fd, w) := open_flock (iflagp op) IFILE fd w in (fd, op, w)
    else
      let '(r, w) := sys (Open IFILE false) w in
      if rv r <? 0 then (- SG_LIB_FILE_ERROR, op, w)
      else
        let w :=
          if HAVE_POSIX_FADVISE && nz (nocache (iflagp op))
          then snd (sys (PosixFadvise IFILE 0 0) w) else w in
        let '(fd, w) := open_flock (iflagp op) IFILE (rv r) w in (fd, op, w).

(** The Windows branch is not modelled.  [Stat OFILE] here is the second
    [stat] of [open_of] ([rv] 0 when the file exists, [aux] its size). *)
Definition open_of (op : opts_t) (w : world) : Z * opts_t * world :=
  let ofp := oflagp op in
  let '(ty, w) := dd_filetype OFILE (outf op) w in
  let op := op{{out_type := ty}} in
  let op :=
    if ft_any3 FT_BLOCK FT_TAPE FT_OTHER (out_type op) && nz (pt ofp)
    then op{{out_type := Z.lor (out_type op) FT_PT}} else op in
  let op := op{{out_type_hold := out_type op}} in
  if ft_has FT_TAPE (out_type op) && ft_has FT_PT (out_type op) then
    (- SG_LIB_FILE_ERROR, op, w)
  else if ft_has FT_PT (out_type op) then
    let '(fd, w) := pt_open OFILE w in
    if fd =? -1 then (- SG_LIB_FILE_ERROR, op, w)
    else if fd <? -1 then (- SG_LIB_CAT_OTHER, op, w)
    else let '(fd, w) := open_flock ofp OFILE fd w in (fd, op, w)
  else if ft_has FT_DEV_NULL (out_type op) then
    let '(fd, w) := open_flock ofp OFILE (-1) w in (fd, op, w)
  else
    let '(st, w) := sys (Stat OFILE) w in
    let outf_exists := rv st =? 0 in
    let truncating :=
      ft_has FT_REG (out_type op) && outf_exists && nz (trunc ofp)
      && negb (nz (nowrite ofp)) in
    let offset :=
      if truncating && (0 <? seek op) then to_int64 (seek op * obs op) else 0 in
    let needs_ftruncate :=
      truncating && (0 <? seek op) && (offset <? aux st) in
    let o_trunc := truncating && negb (0 <? seek op) in
    let '(r, w) := sys (Open OFILE o_trunc) w in
    if rv r <? 0 then (- SG_LIB_FILE_ERROR, op, w)
    else
      let '(ok, w) :=
        if needs_ftruncate && (0 <? offset) then
          let '(t, w) := sys (Ftruncate offset) w in (negb (rv t <? 0), w)
        else (true, w) in
      if negb ok then (- SG_LIB_FILE_ERROR, op, w)
      else
        let op :=
          if negb outf_exists && ft_has FT_ERROR (out_type op)
          then op{{out_type := FT_REG}}{{out_type_hold := FT_REG}} else op in
        let '(fd, w) := open_flock ofp OFILE (rv r) w in (fd, op, w).

(** *** [main]

    [main] is cut into the part that opens the files, the adjustment of the
    flags to the file types, [count_calculate], the preparations before the
    copy, [do_copy] and the code at the label [cleanup].  Not modelled:
    messages, the redirection of stderr for [verbose=-1], the installation
    of signal handlers, the choice of the cdb size, the time stamps for the
    throughput, the tape position reports and the tape ioctls before
    closing. *)

Inductive main_exit : Type :=
| Exit (status : Z)
| MainKilled (sig : Z)
| MainFuel.

Definition flags_zero : flags_t :=
  {| append := 0; coe := 0; direct := 0; errblk := 0; excl := 0;
     fdatasync := 0; flock := 0; force := 0; fsync := 0; ignoreew := 0;
     nocache := 0; nofm := 0; nopad := 0; norcap := 0; nowrite := 0; pad := 0;
     prealloc := 0; pt := 0; resume := 0; self := 0; sparing := 0; sparse := 0;
     ssync := 0; strunc := 0; sync := 0; trunc := 0; wsame16 := 0 |}.

(** [ops] as [main] sets it up before [process_cl]. *)
Definition ops_init : opts_t :=
  {| ibs := 0; obs := 0; ibs_pi := 0; obs_pi := 0; ibs_hold := 0; bpt_i := 0;
     bpt_given := 0; obpc := 0; skip := 0; seek := 0; dd_count := -1;
     inf := ""; outf := ""; out2f := ""; outf_given := 0; verbose := 0;
     quiet := 0; iflagp := flags_zero; oflagp := flags_zero;
     in_type := FT_OTHER; out_type := FT_OTHER; out_type_hold := 0;
     out2_type := 0; infd := -1; outfd := -1; out2fd := -1; reading_fifo := 0;
     read1_or_transfer := 0; rdprotect := 0; wrprotect := 0; rdprot_typ := 0;
     wrprot_typ := 0; rdp_i_exp := 0; wrp_i_exp := 0; coe_limit := 0;
     coe_count := 0; in_full := 0; in_partial := 0; out_full := 0;
     out_partial := 0; out_sparse := 0; out_sparse_partial := 0;
     out_sparse_active := 0; out_sparing_active := 0; out_trim_active := 0;
     unrecovered_errs := 0; highest_unrecovered := -1; lowest_unrecovered := 0;
     trim_errs := 0; interrupted_retries := 0; err_to_report := 0;
     read_tape_numbytes := 0; last_tape_read_len := 0;
     consec_same_len_reads := 0;
     lowest_skip := if HAVE_POSIX_FADVISE then -1 else 0;
     lowest_seek := if HAVE_POSIX_FADVISE then -1 else 0;
     errblk_fp := false; zeros_buff := false; if_ptvp := false;
     of_ptvp := false |}.

(** The secondary output file; the first component is a [return] of
    [main]. *)
Definition main_open_of2 (op : opts_t) (w : world) : option Z * opts_t * world :=
  if negb (String.eqb (out2f op) "") then
    if String.eqb (out2f op) "-" then
      (None, op{{out2_type := FT_FIFO}}{{out2fd := STDOUT_FILENO}}, w)
    else
      let '(ty, w) := dd_filetype OFILE2 (out2f op) w in
      let op := op{{out2_type := ty}} in
      if ft_has FT_DEV_NULL (out2_type op) then (None, op{{out2fd := -1}}, w)
      else if negb (nz (Z.land (Z.lor FT_REG FT_FIFO) (out2_type op))) then
        (Some SG_LIB_FILE_ERROR, op, w)
      else
        let '(r, w) := sys (Open OFILE2 false) w in
        if rv r <? 0 then (Some (err r), op, w)
        else (None, op{{out2fd := rv r}}, w)
  else (None, op{{out2fd := -1}}, w).

(** The default [bpt] when none was given and a tape is involved (and the
    FreeBSD limit for pass-through devices). *)
Definition main_default_bpt (op : opts_t) : opts_t :=
  if bpt_given op =? 0 then
    if ft_has FT_TAPE (in_type op) || ft_has FT_TAPE (out_type op) then
      op{{bpt_i := 1}}
    else if SG_LIB_FREEBSD
            && (ft_has FT_PT (in_type op) || ft_has FT_PT (out_type op))
            && (ibs op <=? 32768)
            && (32768 <? to_int (bpt_i op * ibs op)) then
      op{{bpt_i := Z.quot 32768 (ibs op)}}
    else op
  else op.

(** From the test of [ops.inf] to the default [bpt] for tapes; the first
    component is a [return] of [main]. *)
Definition main_open (op : opts_t) (w : world) : option Z * opts_t * world :=
  if String.eqb (inf op) "" then (Some SG_LIB_SYNTAX_ERROR, op, w)
  else
    let '(fd, op, w) :=
      if String.eqb (inf op) "-" then
        (STDIN_FILENO,
         op{{in_type := FT_FIFO}}{{reading_fifo := to_int (reading_fifo op + 1)}},
         w)
      else open_if op w in
    if (fd <? 0) && negb (String.eqb (inf op) "-") then
      (Some (to_int (- fd)), op, w)
    else
      let op := op{{infd := fd}} in
      let op := if String.eqb (outf op) "" then op{{outf := "."%string}} else op in
      let '(fd, op, w) :=
        if String.eqb (outf op) "-" then
          (STDOUT_FILENO, op{{out_type := FT_FIFO}}{{out_type_hold := FT_FIFO}}, w)
        else open_of op w in
      if (fd <? -1) && negb (String.eqb (outf op) "-") then
        (Some (to_int (- fd)), op, w)
      else
        let op := op{{outfd := fd}} in
        let '(ret, op, w) := main_open_of2 op w in
        match ret with
        | Some status => (Some status, op, w)
        | None => (None, main_default_bpt op, w)
        end.

(** The adjustment of [sparse] and [sparing] to the type of the output. *)
Definition main_flags (op : opts_t) : opts_t :=
  let op :=
    if nz (sparse (iflagp op)) && negb (nz (sparse (oflagp op))) then
      if ft_has FT_DEV_NULL (out_type op) then
        op{{oflagp -> sparse := to_int (sparse (oflagp op) + 1)}}
      else op
    else op in
  let op :=
    if nz (sparse (oflagp op)) then
      if nz (Z.land (Z.lor FT_FIFO FT_TAPE) (out_type op)) then
        op{{oflagp -> sparse := 0}}
      else
        let op := op{{out_sparse_active := 1}} in
        if nz (wsame16 (oflagp op)) then op{{out_trim_active := 1}} else op
    else op in
  if nz (sparing (oflagp op)) then
    if nz (Z.land (Z.lor (Z.lor FT_DEV_NULL FT_FIFO) FT_TAPE) (out_type op)) then
      op{{oflagp -> sparing := 0}}
    else op{{out_sparing_active := 1}}
  else op.

(** The protection information block ([PI_WORK]); [inl] is a [goto cleanup]
    with that value of [ret]. *)
Definition main_pi (op : opts_t) : Z + opts_t :=
  let op := op{{ibs_pi := ibs op}}{{obs_pi := obs op}} in
  let pi_len (e : Z) := to_int ((if nz e then to_int (Z.shiftl 1 e) else 1) * 8) in
  let rd : Z + opts_t :=
    if nz (rdprotect op) then
      if (rdprot_typ op =? 0) || negb (ft_has FT_PT (in_type op)) then
        inl SG_LIB_CAT_OTHER
      else if negb (ibs op =? obs op) then inl SG_LIB_CAT_OTHER
      else if nz (wrprotect op) && negb (rdp_i_exp op =? wrp_i_exp op) then
        inl SG_LIB_CAT_OTHER
      else
        inr (op{{ibs_pi := to_int (ibs_pi op + pi_len (rdp_i_exp op))}}
               {{obs_pi := to_int (obs_pi op + pi_len (rdp_i_exp op))}})
    else inr op in
  match rd with
  | inl ret => inl ret
  | inr op =>
      if nz (wrprotect op) then
        if (wrprot_typ op =? 0) || negb (ft_has FT_PT (out_type op)) then
          inl SG_LIB_CAT_OTHER
        else if negb (ibs op =? obs op) then inl SG_LIB_CAT_OTHER
        else
          inr (op{{ibs_pi := to_int (ibs_pi op + pi_len (wrp_i_exp op))}}
                 {{obs_pi := to_int (obs_pi op + pi_len (wrp_i_exp op))}})
      else inr op
  end.

(** The pre-allocation of the output ([fallocate] on Linux, else
    [posix_fallocate]); [false] is the failure. *)
Definition main_prealloc (op : opts_t) (w : world) : bool * opts_t * world :=
  if nz (prealloc (oflagp op)) then
    if SG_LIB_LINUX then
      if HAVE_FALLOCATE then
        let '(r, w) := sys (Fallocate true) w in
        let '(res, op, w) :=
          if rv r =? -1 then
            if (err r =? ENOTTY) || (err r =? EINVAL) || (err r =? EOPNOTSUPP) then
              let '(r2, w) := sys (Fallocate false) w in (rv r2, op, w)
            else (rv r, op, w)
          else (rv r, op{{oflagp -> prealloc := 0}}, w) in
        (negb (res =? -1), op, w)
      else (true, op, w)
    else if HAVE_POSIX_FALLOCATE then
      let '(r, w) := sys PosixFallocate w in (negb (rv r =? -1), op, w)
    else (true, op, w)
  else (true, op, w).

(** From [count_calculate]'s return to the call of [do_copy]; [inl] is a
    [goto cleanup] with that value of [ret]. *)
Definition main_prepare (op : opts_t) (w : world) : Z * opts_t * world + opts_t * world :=
  match main_pi op with
  | inl ret => inl (ret, op{{ibs_pi := ibs op}}{{obs_pi := obs op}}, w)
  | inr op =>
      if (dd_count op <? 0) && negb (nz (reading_fifo op)) then
        inl (SG_LIB_CAT_OTHER, op, w)
      else
        let op :=
          if nz (prealloc (oflagp op))
             && nz (Z.land (Z.lor (Z.lor (Z.lor FT_DEV_NULL FT_FIFO) FT_TAPE) FT_PT)
                      (out_type op))
          then op{{oflagp -> prealloc := 0}} else op in
        let '(psz, w) :=
          if nz (direct (iflagp op)) || nz (direct (oflagp op)) then
            let '(r, w) := sys SysconfPagesize w in (rv r, w)
          else (0, w) in
        let size := to_uint64 (to_int (ibs_pi op * bpt_i op) + psz) in
        let '(b, w) := sys (Calloc size) w in
        if rv b =? 0 then inl (SG_LIB_CAT_OTHER, op, w)
        else
          let '(ok, w) :=
            if nz (sparing (oflagp op)) then
              let '(b2, w) := sys (Calloc size) w in (nz (rv b2), w)
            else (true, w) in
          if negb ok then inl (SG_LIB_CAT_OTHER, op, w)
          else
            let op :=
              op{{read1_or_transfer :=
                    if ft_has FT_DEV_NULL (out_type op) then 1 else 0}} in
            let '(op, w) :=
              if nz (errblk (iflagp op)) then open_errblk op w else (op, w) in
            let '(ok, op, w) := main_prealloc op w in
            if negb ok then inl (SG_LIB_CAT_OTHER, op, w) else inr (op, w)
  end.

(** The code at the label [cleanup] and the final [return]. *)
Definition main_cleanup (ret : Z) (op : opts_t) (w : world) : Z * world :=
  let w :=
    if ft_has FT_PT (in_type op) then snd (sys (PtClose IFILE) w)
    else if (0 <=? infd op) && negb (STDIN_FILENO =? infd op)
    then snd (sys (Close IFILE) w) else w in
  let w :=
    if ft_has FT_PT (out_type op) then snd (sys (PtClose OFILE) w) else w in
  let w :=
    if (0 <=? outfd op) && negb (STDOUT_FILENO =? outfd op)
       && negb (ft_has FT_DEV_NULL (out_type op))
    then snd (sys (Close OFILE) w) else w in
  let w :=
    if (0 <=? out2fd op) && negb (STDOUT_FILENO =? out2fd op)
    then snd (sys (Close OFILE2) w) else w in
  let ret :=
    if (ret =? 0) && nz (err_to_report op) then err_to_report op else ret in
  (if 0 <=? ret then ret else SG_LIB_CAT_OTHER, w).

(** The options and the world as [do_copy] is about to be called, or the
    exit status when [main] ends before. *)
Definition main_setup (pr : parse_result) (w : world) : Z * world + opts_t * world :=
  let '(res, op) := process_cl ops_init pr in
  if res <? 0 then inl (0, w)
  else if 0 <? res then inl (res, w)
  else
    match main_open op w with
    | (Some status, _, w) => inl (status, w)
    | (None, op, w) =>
        let op := main_flags op in
        let '(ret, op, w) := count_calculate op w in
        if nz ret then inl (main_cleanup ret op w)
        else
          match main_prepare op w with
          | inl (ret, op, w) => inl (main_cleanup ret op w)
          | inr (op, w) => inr (op, w)
          end
    end.

Definition main (fuel : nat) (pr : parse_result) (w : world) : main_exit * world :=
  match main_setup pr w with
  | inl (status, w) => (Exit status, w)
  | inr (op, w) =>
      let '(ex, op, w) := do_copy fuel op w in
      match ex with
      | LoopKilled sig => (MainKilled sig, w)
      | LoopFuel => (MainFuel, w)
      | LoopReturn ret =>
          let '(op, w) :=
            if nz (errblk (iflagp op)) then close_errblk op w else (op, w) in
          let w :=
            if nz (ssync (oflagp op)) && ft_has FT_PT (out_type op)
            then snd (sys PtSyncCache w) else w in
          let '(status, w) := main_cleanup ret op w in
          (Exit status, w)
      end
  end.

End Ddpt.

(** * Flag and conversion words: [process_flags], [process_conv]

    Both functions copy their argument into [char buff[256]], cut it at the
    commas and compare each word with the names they know; a word that is
    known raises one counter of a [struct flags_t] by one. *)

(** The four members of [struct flags_t] that only the pass-through layer
    ([ddpt_pt.c]) reads: [process_flags] raises them and nothing else in
    [ddpt.c] looks at them.  They are kept in a record beside [flags_t]. *)
Record pt_flags_t : Type := {
  dpo : Z;
  fua : Z;
  fua_nv : Z;
  rarc : Z
}.

Definition pt_flags_zero : pt_flags_t :=
  {| dpo := 0; fua := 0; fua_nv := 0; rarc := 0 |}.

(** [strncpy(buff, arg, sizeof(buff)); buff[sizeof(buff) - 1] = '\0';] *)
Definition strncpy_buff (arg : string) : string := substring 0 255 arg.

(** The words that the [do ... while] loop meets: [strchr(cp, ',')] ends
    the word at the next comma, and the loop goes on with what follows it,
    be it empty. *)
Fixpoint comma_words (s : string) : list string :=
  match s with
  | EmptyString => [EmptyString]
  | String c s' =>
      if Ascii.eqb c ","%char then EmptyString :: comma_words s'
      else
        match comma_words s' with
        | w :: r => String c w :: r
        | [] => [String c EmptyString]
        end
  end.

(** [++x] on an [int]. *)
Definition incr (x : Z) : Z := to_int (x + 1).

(** The chain of [strcmp]s of [process_flags]; [None] is
    "unrecognised flag". *)
Definition flag_word (w : string) (fp : flags_t) (pp : pt_flags_t)
  : option (flags_t * pt_flags_t) :=
  if String.eqb w "append" then Some (fp{{append := incr (append fp)}}, pp)
  else if String.eqb w "coe" then Some (fp{{coe := incr (coe fp)}}, pp)
  else if String.eqb w "direct" then Some (fp{{direct := incr (direct fp)}}, pp)
  else if String.eqb w "dpo" then
    Some (fp, {| dpo := incr (dpo pp); fua := fua pp; fua_nv := fua_nv pp;
                 rarc := rarc pp |})
  else if String.eqb w "errblk" then Some (fp{{errblk := incr (errblk fp)}}, pp)
  else if String.eqb w "excl" then Some (fp{{excl := incr (excl fp)}}, pp)
  else if String.eqb w "fdatasync" then
    Some (fp{{fdatasync := incr (fdatasync fp)}}, pp)
  else if String.eqb w "flock" then Some (fp{{flock := incr (flock fp)}}, pp)
  else if String.eqb w "force" then Some (fp{{force := incr (force fp)}}, pp)
  else if String.eqb w "fsync" then Some (fp{{fsync := incr (fsync fp)}}, pp)
  else if String.eqb w "fua_nv" then
    Some (fp, {| dpo := dpo pp; fua := fua pp; fua_nv := incr (fua_nv pp);
                 rarc := rarc pp |})
  else if String.eqb w "fua" then
    Some (fp, {| dpo := dpo pp; fua := incr (fua pp); fua_nv := fua_nv pp;
                 rarc := rarc pp |})
  else if String.eqb w "ignoreew" then
    Some (fp{{ignoreew := incr (ignoreew fp)}}, pp)
  else if String.eqb w "nocache" then Some (fp{{nocache := incr (nocache fp)}}, pp)
  else if String.eqb w "nofm" then Some (fp{{nofm := incr (nofm fp)}}, pp)
  else if String.eqb w "nopad" then Some (fp{{nopad := incr (nopad fp)}}, pp)
  else if String.eqb w "norcap" then Some (fp{{norcap := incr (norcap fp)}}, pp)
  else if String.eqb w "nowrite" then Some (fp{{nowrite := incr (nowrite fp)}}, pp)
  else if String.eqb w "null" then Some (fp, pp)
  else if String.eqb w "pad" then Some (fp{{pad := incr (pad fp)}}, pp)
  else if String.eqb w "pre-alloc" || String.eqb w "prealloc" then
    Some (fp{{prealloc := incr (prealloc fp)}}, pp)
  else if String.eqb w "pt" then Some (fp{{pt := incr (pt fp)}}, pp)
  else if String.eqb w "rarc" then
    Some (fp, {| dpo := dpo pp; fua := fua pp; fua_nv := fua_nv pp;
                 rarc := incr (rarc pp) |})
  else if String.eqb w "resume" then Some (fp{{resume := incr (resume fp)}}, pp)
  else if String.eqb w "self" then Some (fp{{self := incr (self fp)}}, pp)
  else if String.eqb w "sparing" then Some (fp{{sparing := incr (sparing fp)}}, pp)
  else if String.eqb w "sparse" then Some (fp{{sparse := incr (sparse fp)}}, pp)
  else if String.eqb w "ssync" then Some (fp{{ssync := incr (ssync fp)}}, pp)
  else if String.eqb w "strunc" then Some (fp{{strunc := incr (strunc fp)}}, pp)
  else if String.eqb w "sync" then Some (fp{{sync := incr (sync fp)}}, pp)
  else if String.eqb w "trim" || String.eqb w "unmap" then
    Some (fp{{wsame16 := incr (wsame16 fp)}}, pp)
  else if String.eqb w "trunc" then Some (fp{{trunc := incr (trunc fp)}}, pp)
  else None.

(** The loop of [process_flags] over the words of [buff]. *)
Fixpoint flags_loop (ws : list string) (fp : flags_t) (pp : pt_flags_t)
  : Z * flags_t * pt_flags_t :=
  match ws with
  | [] => (0, fp, pp)
  | w :: r =>
      match flag_word w fp pp with
      | Some (fp', pp') => flags_loop r fp' pp'
      | None => (1, fp, pp)
      end
  end.

(** What a word has raised before a word that is not known stays raised:
    the counters are reached through the pointer [fp]. *)
Definition process_flags (arg : string) (fp : flags_t) (pp : pt_flags_t)
  : Z * flags_t * pt_flags_t :=
  let buff := strncpy_buff arg in
  if String.eqb buff "" then (1, fp, pp)
  else flags_loop (comma_words buff) fp pp.

(** The chain of [strcmp]s of [process_conv]. *)
Definition conv_word (w : string) (ifp ofp : flags_t)
  : option (flags_t * flags_t) :=
  if String.eqb w "fdatasync" then
    Some (ifp, ofp{{fdatasync := incr (fdatasync ofp)}})
  else if String.eqb w "fsync" then Some (ifp, ofp{{fsync := incr (fsync ofp)}})
  else if String.eqb w "noerror" then Some (ifp{{coe := incr (coe ifp)}}, ofp)
  else if String.eqb w "notrunc" then Some (ifp, ofp)
  else if String.eqb w "null" then Some (ifp, ofp)
  else if String.eqb w "resume" then Some (ifp, ofp{{resume := incr (resume ofp)}})
  else if String.eqb w "sparing" then
    Some (ifp, ofp{{sparing := incr (sparing ofp)}})
  else if String.eqb w "sparse" then Some (ifp, ofp{{sparse := incr (sparse ofp)}})
  else if String.eqb w "sync" then Some (ifp, ofp)
  else if String.eqb w "trunc" then Some (ifp, ofp{{trunc := incr (trunc ofp)}})
  else None.

Fixpoint conv_loop (ws : list string) (ifp ofp : flags_t)
  : Z * flags_t * flags_t :=
  match ws with
  | [] => (0, ifp, ofp)
  | w :: r =>
      match conv_word w ifp ofp with
      | Some (ifp', ofp') => conv_loop r ifp' ofp'
      | None => (1, ifp, ofp)
      end
  end.

Definition process_conv (arg : string) (ifp ofp : flags_t)
  : Z * flags_t * flags_t :=
  let buff := strncpy_buff arg in
  if String.eqb buff "" then (1, ifp, ofp)
  else conv_loop (comma_words buff) ifp ofp.

(** * Concrete platforms, environments, runs and observations

    The values below instantiate the header constants and the
    environment for the runs that the theorems are applied to; the
    observations (what a run has kept, read and written) are what the
    theorems are stated with. *)

(** Regular files with 512-byte input blocks and 1024-byte output blocks,
    four input blocks to the chunk. *)
Definition op_chunk : opts_t :=
  (ops_init (h := linux_h)){{ibs := 512}}{{obs := 1024}}{{ibs_pi := 512}}
    {{obs_pi := 1024}}{{bpt_i := 4}}{{dd_count := 8}}{{in_type := 4}}
    {{out_type := 4}}{{infd := 3}}{{outfd := 4}}.

Definition op_tape : opts_t := op_chunk{{in_type := 128}}.

Definition op_null : opts_t := op_chunk{{out_type := 8}}.

Definition op_sparse : opts_t := op_chunk{{oflagp -> sparse := 1}}.

Definition op_prefix : opts_t :=
  op_chunk{{obs := 512}}{{obs_pi := 512}}{{bpt_i := 128}}{{dd_count := 1000}}.

(** Reading a hexadecimal numeral back. *)
Definition hex_value (c : ascii) : Z :=
  let n := Z.of_nat (nat_of_ascii c) in
  if n <? 58 then n - 48 else n - 87.

Fixpoint hex_parse (s : string) (acc : Z) : Z :=
  match s with
  | EmptyString => acc
  | String c s' => hex_parse s' (16 * acc + hex_value c)
  end.

Definition resp (v : Z) : response :=
  {| rv := v; err := 0; aux := 0; aux2 := 0; intr := 0; txt := "" |}.

(** The input ends after 700 bytes: the first read is short, the next one
    finds the end of the file. *)
Definition env_eof : environment := fun c t =>
  match c, t with
  | Read IFILE _, 1%nat => resp 700
  | _, _ => resp 0
  end.

(** A tape gives 100 bytes where 512 were asked for. *)
Definition env_tape : environment := fun c _ =>
  match c with
  | Read IFILE _ => resp 100
  | _ => resp 0
  end.

Definition resp_err (e : Z) : response :=
  {| rv := -1; err := e; aux := 0; aux2 := 0; intr := 0; txt := "" |}.

(** Every read of the input fails with [EIO]. *)
Definition env_eio : environment := fun c _ =>
  match c with
  | Read IFILE _ => resp_err 5
  | _ => resp 0
  end.

Definition resp_txt (s : string) : response :=
  {| rv := 0; err := 0; aux := 0; aux2 := 0; intr := 0; txt := s |}.

Definition world0 : world := {| tick := 0; log := []; journal := "" |}.

Definition eof_chunk_run : stage * opts_t * cp_state_t * world :=
  cp_to_write (h := linux_h) env_eof false 4 4
    (op_chunk{{obs := 512}}{{obs_pi := 512}}) cp_state_zero world0.

Definition tape_run : Z * opts_t * cp_state_t * world :=
  cp_read (h := linux_h) env_tape op_tape (cp_state_zero{{icbpt := 1}}) world0.

Definition env_errblk : environment := fun c _ =>
  match c with
  | FopenErrblk => resp 1
  | Strftime => resp_txt "2013-05-08 12:00:00"
  | _ => resp 0
  end.

Definition world_errblk : world :=
  {| tick := 0; log := []; journal := "0x10" ++ nl |}.

Definition op_bpt_mismatch : opts_t :=
  (ops_init (h := linux_h)){{ibs := 512}}{{obs := 1000}}{{inf := "a"%string}}.

(** What the reading section and the tests before the writing section leave
    alone: the block sizes, the type of the output and its count of full
    records; the chunk as planned; the output writes made so far. *)
Definition op_kept (op : opts_t) : Z * Z * Z * Z :=
  (ibs op, obs op, out_type op, out_full op).

Definition csp_kept (csp : cp_state_t) : Z * Z * Z * Z :=
  (icbpt csp, ocbpt csp, partial_write_bytes csp, leave_after_write csp).

Definition w_kept (w : world) : list call := filter is_output_write (log w).

(** A regular input file of 512-byte blocks read two at a time with
    [iflag=coe coe_limit=1]; the output is the null device. *)
Definition op_coe : opts_t :=
  (ops_init (h := linux_h)){{ibs := 512}}{{obs := 512}}{{ibs_pi := 512}}
    {{obs_pi := 512}}{{bpt_i := 2}}{{dd_count := 6}}{{in_type := 4}}
    {{out_type := 8}}{{infd := 3}}{{iflagp -> coe := 1}}{{coe_limit := 1}}.

Definition op_coe2 : opts_t := op_coe{{coe_limit := 2}}.

(** Three blocks read one at a time, all of them bad, with [coe_limit=2]. *)
Definition eio_loop_run : coe_exit * opts_t * cp_state_t * world :=
  coe_loop (h := linux_h) env_eio 3 512 0 0 0 op_coe2
    (cp_state_zero{{icbpt := 3}}) world0.

(** Blocks 1 and 4 of the input are bad, the other four are good: the
    first chunk is read short and its second block fails, the second chunk
    is read in one piece, the third chunk fails at its first block. *)
Definition env_coe : environment := fun c t =>
  match c, t with
  | Read IFILE _, 1%nat => resp 512
  | Read IFILE _, 2%nat => resp_err 5
  | Read IFILE n, 6%nat => resp n
  | Read IFILE _, _ => resp_err 5
  | _, _ => resp 0
  end.

Definition run_coe : loop_exit * opts_t * world :=
  do_copy (h := linux_h) env_coe 10 op_coe world0.

Definition resp_aux (a : Z) : response :=
  {| rv := 0; err := 0; aux := a; aux2 := 0; intr := 0; txt := "" |}.

(** Regular files: the input holds 4096 bytes, the output 100; every read
    and write is done in full. *)
Definition env_files : environment := fun c _ =>
  match c with
  | Stat _ => resp 4
  | Open _ _ => resp 3
  | Fstat IFILE => resp_aux 4096
  | Fstat OFILE => resp_aux 100
  | Read IFILE n => resp n
  | Write OFILE n => resp n
  | Calloc _ => resp 1
  | _ => resp 0
  end.

(** A full chunk of [op_chunk], up to the writing section. *)
Definition chunk_run : stage * opts_t * cp_state_t * world :=
  cp_to_write (h := linux_h) env_files false 4 2 op_chunk cp_state_zero world0.

(** The last chunk when three input blocks are left. *)
Definition last_chunk_run : stage * opts_t * cp_state_t * world :=
  cp_to_write (h := linux_h) env_files false 4 2 (op_chunk{{dd_count := 3}})
    cp_state_zero world0.

Definition null_run : loop_exit * opts_t * world :=
  do_copy (h := linux_h) env_files 10 op_null world0.

Definition bulk_run : Z * opts_t * cp_state_t * world :=
  cp_read_block_reg (h := linux_h) env_files (op_coe{{coe_count := 1}})
    (cp_state_zero{{icbpt := 2}}) world0.

(** [ddpt if=in of=out oflag=resume count=1] *)
Definition op_resume : opts_t :=
  (ops_init (h := linux_h)){{inf := "in"%string}}{{outf := "out"%string}}
    {{oflagp -> resume := 1}}{{dd_count := 1}}.

(** [ddpt if=in of=- oflag=strunc count=2] *)
Definition op_strunc : opts_t :=
  (ops_init (h := linux_h)){{inf := "in"%string}}{{outf := "-"%string}}
    {{oflagp -> strunc := 1}}{{dd_count := 2}}.

(** ** What the copy leaves alone

    [op_given] collects the members of [opts_t] that hold what the command
    line and the opening of the files have settled: block sizes, names,
    flags, file types and descriptors.  [op_pos] is the position of the
    copy. *)
Definition op_given (op : opts_t) :=
  ((ibs op, obs op, ibs_pi op, obs_pi op, ibs_hold op, bpt_i op, bpt_given op,
    obpc op),
   (inf op, outf op, out2f op, outf_given op, verbose op, quiet op),
   (iflagp op, oflagp op),
   (in_type op, out_type op, out_type_hold op, out2_type op),
   (infd op, outfd op, out2fd op, reading_fifo op, read1_or_transfer op),
   (rdprotect op, wrprotect op, rdprot_typ op, wrprot_typ op, rdp_i_exp op,
    wrp_i_exp op),
   (coe_limit op, errblk_fp op)).

Definition op_pos (op : opts_t) : Z * Z * Z := (skip op, seek op, dd_count op).

Definition op_frame (op : opts_t) := (op_given op, op_pos op).

(** ** A copy between regular files with nothing going wrong *)

(** The bytes asked of the input file and the bytes handed to the output
    file, summed over the calls of a log. *)
Definition bytes_in (l : list call) : Z :=
  fold_right (fun c n => match c with Read IFILE k => k + n | _ => n end) 0 l.

Definition bytes_out (l : list call) : Z :=
  fold_right (fun c n => match c with Write OFILE k => k + n | _ => n end) 0 l.

(** The counters of blocks that [print_stats] reports. *)
Definition op_tally (op : opts_t) : Z * Z * Z * Z :=
  (in_full op, in_partial op, out_full op, out_partial op).

(** A copy from a regular file to a regular file with no protection
    information, no secondary output, and the output flags [sparse],
    [sparing] and [nowrite] off; [ibs * bpt] fits an [int] and is a multiple
    of [obs], as [cl_sanity_defaults] demands. *)
Definition plain {h : ddpt_h} (op : opts_t) : Prop :=
  in_type op = FT_REG /\ out_type op = FT_REG /\ out2fd op < 0 /\
  sparse (oflagp op) = 0 /\ sparing (oflagp op) = 0 /\
  nowrite (oflagp op) = 0 /\
  ibs_pi op = ibs op /\ obs_pi op = obs op /\
  0 < ibs op /\ 0 < obs op /\ 0 < bpt_i op /\
  ibs op * bpt_i op <= INT_MAX /\ (ibs op * bpt_i op) mod obs op = 0.

(** The counters and positions do not leave the range of [int64_t] while
    [dd_count] blocks are copied. *)
Definition roomy (op : opts_t) : Prop :=
  0 <= dd_count op /\
  0 <= skip op /\ skip op + dd_count op <= INT64_MAX /\
  0 <= seek op /\ seek op + dd_count op * ibs op / obs op <= INT64_MAX /\
  0 <= in_full op /\ in_full op + dd_count op <= INT64_MAX /\
  0 <= out_full op /\ out_full op + dd_count op * ibs op / obs op <= INT64_MAX.

(** [ddpt if=in of=out ibs=512 obs=1024 bpt=4 count=8] between regular
    files, every call answered in full. *)
Definition plain_run : loop_exit * opts_t * world :=
  do_copy (h := linux_h) env_files 8 op_chunk world0.

(** ** [oflag=nowrite] *)

(** The calls that put data on the output: [write] on OFILE and the
    pass-through WRITE.  WRITE SAME (a trim) is not among them. *)
Definition is_data_write (c : call) : bool :=
  match c with
  | Write OFILE _ | PtWrite _ _ => true
  | _ => false
  end.

Definition w_data (w : world) : list call := filter is_data_write (log w).

(** What [oflag=nowrite] keeps: the output flags, the count of blocks
    written and the data written. *)
Definition nw_kept (op : opts_t) (w : world) :=
  (nowrite (oflagp op), out_full op, out_type op, w_data w).

(** [ddpt if=in of=out ibs=512 obs=1024 bpt=4 count=8 oflag=nowrite] *)
Definition op_nowrite : opts_t := op_chunk{{oflagp -> nowrite := 1}}.

(** ** Pipes: reads and writes that come in pieces *)

(** A pipe that gives at most 300 bytes to a [read] and takes at most 300
    bytes from a [write]. *)
Definition env_pipe : environment := fun c _ =>
  match c with
  | Read _ n => resp (Z.min n 300)
  | Write _ n => resp (Z.min n 300)
  | _ => resp 0
  end.

(** Two blocks of 512 bytes to be read from a pipe. *)
Definition fifo_read_run : Z * opts_t * cp_state_t * world :=
  cp_read_fifo (h := linux_h) env_pipe (op_chunk{{in_type := 16}})
    (cp_state_zero{{icbpt := 2}}{{ocbpt := 1}}) world0.

(** One block of 1024 bytes to be written to a pipe. *)
Definition fifo_write_run : Z * opts_t * cp_state_t * world :=
  cp_write_block_reg (h := linux_h) env_pipe (op_chunk{{out_type := 16}})
    (cp_state_zero{{icbpt := 2}}{{ocbpt := 1}}) 0 1 world0.

(** ** The count when none is given *)

(** [ddpt if=in of=out bs=512 skip=3], no count given. *)
Definition op_derive : opts_t :=
  (ops_init (h := linux_h)){{in_type := 4}}{{out_type := 4}}{{ibs := 512}}
    {{obs := 512}}{{skip := 3}}.

(** ** What the sanity pass lets through *)

(** The options that the later steps of [cl_sanity_defaults] leave as the
    first steps have set them. *)
Definition san_kept (op : opts_t) :=
  (ibs op, obs op, bpt_i op, skip op,
   (trunc (oflagp op), resume (oflagp op), append (oflagp op),
    sparing (oflagp op), strunc (oflagp op))).

(** ** [oflag=sparing] onto an output that holds the data already *)

(** The output answers every read in full; every comparison of a chunk with
    what was read from the output finds them equal. *)
Definition env_same : environment := fun c _ =>
  match c with
  | Read _ n => resp n
  | Write OFILE n => resp n
  | Calloc _ => resp 1
  | _ => resp 0
  end.

(** [ddpt if=in of=out ibs=512 obs=1024 bpt=4 count=8 oflag=sparing] *)
Definition op_sparing : opts_t := op_chunk{{oflagp -> sparing := 1}}.

Definition sparing_run : loop_exit * opts_t * world :=
  do_copy (h := linux_h) env_same 8 op_sparing world0.

(** The tests that leave a chunk unwritten: the writing section is entered
    with [sparing_skip] set, or the loop is left. *)
Definition spared (ex : cmp_exit) : Prop :=
  match ex with
  | ToWrite sparing_skip _ => sparing_skip = true
  | ToBypass => False
  | ToBreak _ => True
  end.

(** ** The end of the input *)

(** The input ends 700 bytes into the chunk: the read of the chunk gives
    700 bytes, and the next read finds the end of the file. *)
Definition env_short : environment := fun c _ =>
  match c with
  | Read IFILE 2048 => resp 700
  | Write OFILE n => resp n
  | _ => resp 0
  end.

(** The first pass of [ddpt if=in of=out ibs=512 obs=1024 bpt=4 count=8]
    over such an input. *)
Definition short_run : iter_exit * opts_t * cp_state_t * world :=
  do_copy_iter (h := linux_h) env_short false 4 2 op_chunk cp_state_zero world0.

(** ** A read that fails *)

(** Every read of the input fails with [EIO]. *)
Definition env_read_fails : environment := fun c _ =>
  match c with
  | Read IFILE _ => resp_err 5
  | Write OFILE n => resp n
  | _ => resp 0
  end.

Definition read_fails_run : iter_exit * opts_t * cp_state_t * world :=
  do_copy_iter (h := linux_h) env_read_fails false 4 2 op_chunk cp_state_zero world0.

(** * Properties *)

Lemma to_int_small (z : Z) : INT_MIN <= z <= INT_MAX -> to_int z = z.
Proof.
  unfold to_int, wrap, INT_MIN, INT_MAX. intros Hz.
  rewrite Z.mod_small by lia. lia.
Qed.

Lemma to_int64_small (z : Z) : INT64_MIN <= z <= INT64_MAX -> to_int64 z = z.
Proof.
  unfold to_int64, wrap, INT64_MIN, INT64_MAX. intros Hz.
  rewrite Z.mod_small by lia. lia.
Qed.

Lemma to_uint64_add (a b : Z) :
  to_uint64 (to_uint64 a + to_uint64 b) = to_uint64 (a + b).
Proof. unfold to_uint64. now rewrite <- Z.add_mod by lia. Qed.

Lemma PRIx64_mod (v : Z) : PRIx64 (to_uint64 v) = PRIx64 v.
Proof. unfold PRIx64, to_uint64. now rewrite Z.mod_mod by lia. Qed.

Lemma hex_value_digit (d : Z) : 0 <= d < 16 -> hex_value (hex_digit d) = d.
Proof.
  intros Hd.
  assert (d = 0 \/ d = 1 \/ d = 2 \/ d = 3 \/ d = 4 \/ d = 5 \/ d = 6 \/ d = 7 \/
          d = 8 \/ d = 9 \/ d = 10 \/ d = 11 \/ d = 12 \/ d = 13 \/ d = 14 \/ d = 15)
    as H by lia.
  repeat (destruct H as [-> | H]; [reflexivity |]). subst. reflexivity.
Qed.

Lemma string_app_assoc (s t u : string) :
  ((s ++ t) ++ u = s ++ (t ++ u))%string.
Proof. induction s as [| c s IH]; cbn; [reflexivity | now rewrite IH]. Qed.

Lemma hex_parse_app (s t : string) (acc : Z) :
  hex_parse (s ++ t) acc = hex_parse t (hex_parse s acc).
Proof. revert acc. induction s as [| c s IH]; intros acc; cbn; auto. Qed.

Lemma hex_digits_spec (n : nat) : forall (z : Z) (acc : string),
  0 <= z < 16 ^ Z.of_nat n -> (0 < n)%nat ->
  exists s, hex_digits n z acc = (s ++ acc)%string /\ hex_parse s 0 = z.
Proof.
  induction n as [| n IH]; intros z acc Hz Hn; [lia |].
  cbn [hex_digits].
  assert (Hd : 0 <= z mod 16 < 16) by (apply Z.mod_pos_bound; lia).
  destruct (Z.eqb_spec (z / 16) 0) as [E | E].
  - exists (String (hex_digit (z mod 16)) ""). split; [reflexivity |].
    cbn [hex_parse]. rewrite hex_value_digit by lia.
    pose proof (Z.div_mod z 16 ltac:(lia)). lia.
  - destruct n as [| n'].
    + exfalso. apply E. apply Z.div_small. cbn in Hz. lia.
    + destruct (IH (z / 16) (String (hex_digit (z mod 16)) acc)) as (s & Hs & Hp).
      * split; [apply Z.div_pos; lia |].
        apply Z.div_lt_upper_bound; [lia |].
        replace (16 * 16 ^ Z.of_nat (S n')) with (16 ^ Z.of_nat (S (S n'))); [lia |].
        rewrite (Nat2Z.inj_succ (S n')), Z.pow_succ_r by lia. reflexivity.
      * lia.
      * exists (s ++ String (hex_digit (z mod 16)) "")%string. split.
        -- rewrite Hs. rewrite string_app_assoc. reflexivity.
        -- rewrite hex_parse_app, Hp. cbn [hex_parse]. rewrite hex_value_digit by lia.
           pose proof (Z.div_mod z 16 ltac:(lia)). lia.
Qed.

(** [PRIx64] prints the value modulo 2^64 in hexadecimal. *)
Lemma PRIx64_value (v : Z) : hex_parse (PRIx64 v) 0 = to_uint64 v.
Proof.
  unfold PRIx64.
  destruct (hex_digits_spec 16 (to_uint64 v) "") as (s & Hs & Hp).
  - unfold to_uint64. change (16 ^ Z.of_nat 16) with (2 ^ 64).
    apply Z.mod_pos_bound. lia.
  - lia.
  - rewrite Hs. rewrite hex_parse_app. cbn. exact Hp.
Qed.

Lemma linux_h_ok : ddpt_h_ok linux_h.
Proof. constructor; vm_compute; try reflexivity; try (split; congruence); congruence. Qed.

(** C9, counterexample: opening the journal does not truncate it.  A journal
    that already holds the line [0x10] still holds it, before the new
    [# start:] line, after [open_errblk] (the file is opened with mode
    "a"). *)
Lemma errblk_open_keeps_old_entries :
  journal world_errblk = ("0x10" ++ nl)%string /\
  journal (snd (open_errblk (h := linux_h) env_errblk (ops_init (h := linux_h)) world_errblk))
  = ("0x10" ++ nl ++ "# start: 2013-05-08 12:00:00" ++ nl)%string /\
  journal (snd (open_errblk (h := linux_h) env_errblk (ops_init (h := linux_h)) world_errblk))
  <> ("# start: 2013-05-08 12:00:00" ++ nl)%string.
Proof. repeat split; try reflexivity. vm_compute. discriminate. Qed.

(** C9: when [fopen] succeeds, [open_errblk] appends the line
    [# start: <timestamp>] to what the journal already holds; [put_errblk]
    appends one line [0x<lba in hex>]; [put_range_errblk] with [num = 1]
    does what [put_errblk] does, and with [num > 1] appends one line
    [0x<lba>-0x<lba + num - 1>]. *)
Theorem errblk_journal_appends {h : ddpt_h} (env : environment)
    (op : opts_t) (w : world) (lba num : Z) :
  (rv (env FopenErrblk (tick w)) <> 0 ->
   errblk_fp (fst (open_errblk env op w)) = true /\
   journal (snd (open_errblk env op w)) =
     (journal w ++
      (if HAVE_GETTIMEOFDAY
       then "# start: " ++ txt (env Strftime (S (tick w))) ++ nl
       else "# start" ++ nl))%string) /\
  (errblk_fp op = true ->
   journal (put_errblk lba op w) = (journal w ++ "0x" ++ PRIx64 lba ++ nl)%string /\
   put_range_errblk lba 1 op w = put_errblk lba op w /\
   (1 < num ->
    journal (put_range_errblk lba num op w) =
      (journal w ++ "0x" ++ PRIx64 lba ++ "-0x" ++ PRIx64 (lba + (num - 1)) ++ nl)%string)).
Proof.
  split.
  - intros Hopen. unfold open_errblk, sys. cbn.
    destruct (Z.eqb_spec (rv (env FopenErrblk (tick w))) 0) as [E | _]; [contradiction |].
    destruct HAVE_GETTIMEOFDAY; cbn; split; reflexivity.
  - intros Hfp. unfold put_range_errblk, put_errblk. rewrite Hfp.
    repeat split.
    intros Hnum.
    destruct (Z.eqb_spec num 1) as [E | _]; [lia |].
    destruct (Z.ltb_spec 1 num) as [_ | E]; [| lia].
    rewrite to_uint64_add, PRIx64_mod. reflexivity.
Qed.

(** C9, witness: a fresh journal, and the range of three blocks from 255. *)
Lemma errblk_journal_appends_witness :
  journal (snd (open_errblk (h := linux_h) env_errblk (ops_init (h := linux_h)) world0))
  = ("# start: 2013-05-08 12:00:00" ++ nl)%string /\
  journal (put_range_errblk 255 3 ((ops_init (h := linux_h)){{errblk_fp := true}}) world0)
  = ("0xff-0x101" ++ nl)%string.
Proof.
  destruct (errblk_journal_appends (h := linux_h) env_errblk
              (ops_init (h := linux_h)) world0 255 3) as [H1 _].
  destruct (errblk_journal_appends (h := linux_h) env_errblk
              ((ops_init (h := linux_h)){{errblk_fp := true}}) world0 255 3) as [_ H2].
  split.
  - destruct H1 as [_ H1]; [vm_compute; discriminate |]. rewrite H1. reflexivity.
  - destruct H2 as (_ & _ & H2); [reflexivity |]. rewrite H2; [reflexivity | lia].
Defined.

Lemma rem_zero_iff_mod_zero (a b : Z) : Z.rem a b = 0 <-> a mod b = 0.
Proof.
  destruct (Z.eq_dec b 0) as [-> | Hb].
  - rewrite Z.rem_0_r_ext by reflexivity. rewrite Z.mod_0_r. tauto.
  - rewrite Z.rem_divide, Z.mod_divide by assumption. tauto.
Qed.



(** ** Symbolic execution of the model

    The helpers are straight-line code over records, so their properties
    are proved by running them one binding at a time: the expression bound
    next is computed, the conditions it depends on are decided by cases,
    and only then is its value put into the rest of the code. *)

Create HintDb ddpt.

#[global] Hint Unfold sys nz ft_has ft_any3 is_eio add_intr zero_coe_limit_count
  pt_read pt_write pt_write_same16 process_signals msg pt_read_capacity
  get_blkdev_capacity pt_open fputs_errblk andb orb negb : ddpt.

(** The kernel compares the code before and after each step; it is to
    unfold the code, not the arithmetic. *)
Strategy 200 [to_int to_int64 to_uint64 Z.add Z.mul Z.sub Z.opp Z.quot Z.rem
              Z.land Z.lor Z.ltb Z.leb Z.eqb Z.to_nat Z.of_nat].

Arguments constant {E} newValue _ /.

Arguments to_int : simpl never.

Arguments to_int64 : simpl never.

Arguments to_uint64 : simpl never.

Arguments Z.mul : simpl never.

Arguments Z.add : simpl never.

Arguments Z.sub : simpl never.

Arguments Z.opp : simpl never.

Arguments Z.quot : simpl never.

Arguments Z.rem : simpl never.

Arguments Z.land : simpl never.

Arguments Z.lor : simpl never.

Arguments Z.ltb : simpl never.

Arguments Z.leb : simpl never.

Arguments Z.eqb : simpl never.

Arguments Z.to_nat : simpl never.

Arguments Z.of_nat : simpl never.

Arguments hex_digits : simpl never.

Arguments PRIx64 : simpl never.

Arguments open_errblk : simpl never.

Arguments put_errblk : simpl never.

Arguments put_range_errblk : simpl never.

Arguments close_errblk : simpl never.

Arguments default_bpt_i : simpl never.

Arguments cl_defaults : simpl never.

Arguments cl_trunc : simpl never.

Arguments cl_self : simpl never.

Arguments cl_implied_sparse : simpl never.

Arguments cl_sanity_defaults : simpl never.

Arguments process_cl : simpl never.

Arguments calc_count_pt : simpl never.

Arguments calc_count_blk : simpl never.

Arguments calc_count_reg : simpl never.

Arguments calc_count_in : simpl never.

Arguments calc_count_out : simpl never.

Arguments calc_count : simpl never.

Arguments count_derive : simpl never.

Arguments count_resume : simpl never.

Arguments count_calculate : simpl never.

Arguments cp_read_pt : simpl never.

Arguments coe_process_eio : simpl never.

Arguments coe_step : simpl never.

Arguments fifo_step : simpl never.

Arguments finer_step : simpl never.

Arguments coe_loop : simpl never.

Arguments coe_short_read : simpl never.

Arguments coe_cp_read_block_reg : simpl never.

Arguments cp_read_block_reg : simpl never.

Arguments cp_read_tape : simpl never.

Arguments fifo_loop : simpl never.

Arguments cp_read_fifo : simpl never.

Arguments write_loop : simpl never.

Arguments cp_write_of2 : simpl never.

Arguments cp_read_of_pt : simpl never.

Arguments cp_read_of_block_reg : simpl never.

Arguments cp_write_pt : simpl never.

Arguments cp_write_result : simpl never.

Arguments cp_write_tape : simpl never.

Arguments cp_write_block_reg : simpl never.

Arguments cp_sparse_cleanup : simpl never.

Arguments finer_write : simpl never.

Arguments finer_trim : simpl never.

Arguments finer_loop : simpl never.

Arguments cp_finer_comp_wr : simpl never.

Arguments do_fadvise : simpl never.

Arguments cp_construct_pt_zero_buff : simpl never.

Arguments cp_plan : simpl never.

Arguments cp_read : simpl never.

Arguments cp_sparse : simpl never.

Arguments cp_sparing : simpl never.

Arguments cp_tests : simpl never.

Arguments cp_compare : simpl never.

Arguments cp_write : simpl never.

Arguments cp_bypass_write : simpl never.

Arguments cp_to_write : simpl never.

Arguments cp_from_write : simpl never.

Arguments do_copy_iter : simpl never.

Arguments do_copy_loop : simpl never.

Arguments do_copy_finish : simpl never.

Arguments do_copy_end : simpl never.

Arguments do_copy : simpl never.

Arguments dd_filetype : simpl never.

Arguments open_flock : simpl never.

Arguments open_if : simpl never.

Arguments open_of : simpl never.

Arguments main_open_of2 : simpl never.

Arguments main_default_bpt : simpl never.

Arguments main_open : simpl never.

Arguments main_flags : simpl never.

Arguments main_pi : simpl never.

Arguments main_prealloc : simpl never.

Arguments main_prepare : simpl never.

Arguments main_cleanup : simpl never.

Arguments main_setup : simpl never.

Arguments main : simpl never.

Ltac norm H := autounfold with ddpt in H; cbn in H.

Ltac split_conds H :=
  repeat match type of H with
  | context [if ?c then _ else _] =>
      lazymatch c with
      | context [if _ then _ else _] => fail
      | _ =>
          first [ match goal with Hc : c = _ |- _ => rewrite Hc in H end
                | destruct c eqn:? ];
          cbn in H
      end
  end.

Ltac zeta1 H :=
  lazymatch type of H with
  | (let x := ?e in @?b x) = ?r =>
      let t := eval cbv beta in (b e) in change (t = r) in H
  end.

(** Opening a record names each field after its projection, so that a
    goal reads as the structure does.  A name that is already taken in the
    goal keeps the one [destruct] has chosen. *)

Ltac name_flags :=
  try rename append0 into append;
  try rename coe0 into coe;
  try rename direct0 into direct;
  try rename errblk0 into errblk;
  try rename excl0 into excl;
  try rename fdatasync0 into fdatasync;
  try rename flock0 into flock;
  try rename force0 into force;
  try rename fsync0 into fsync;
  try rename ignoreew0 into ignoreew;
  try rename nocache0 into nocache;
  try rename nofm0 into nofm;
  try rename nopad0 into nopad;
  try rename norcap0 into norcap;
  try rename nowrite0 into nowrite;
  try rename pad0 into pad;
  try rename prealloc0 into prealloc;
  try rename pt0 into pt;
  try rename resume0 into resume;
  try rename self0 into self;
  try rename sparing0 into sparing;
  try rename sparse0 into sparse;
  try rename ssync0 into ssync;
  try rename strunc0 into strunc;
  try rename sync0 into sync;
  try rename trunc0 into trunc;
  try rename wsame17 into wsame16.

Ltac name_opts :=
  try rename ibs0 into ibs;
  try rename obs0 into obs;
  try rename ibs_pi0 into ibs_pi;
  try rename obs_pi0 into obs_pi;
  try rename ibs_hold0 into ibs_hold;
  try rename bpt_i0 into bpt_i;
  try rename bpt_given0 into bpt_given;
  try rename obpc0 into obpc;
  try rename skip0 into skip;
  try rename seek0 into seek;
  try rename dd_count0 into dd_count;
  try rename inf0 into inf;
  try rename outf0 into outf;
  try rename out2f0 into out2f;
  try rename outf_given0 into outf_given;
  try rename verbose0 into verbose;
  try rename quiet0 into quiet;
  try rename iflagp0 into iflagp;
  try rename oflagp0 into oflagp;
  try rename in_type0 into in_type;
  try rename out_type0 into out_type;
  try rename out_type_hold0 into out_type_hold;
  try rename out2_type0 into out2_type;
  try rename infd0 into infd;
  try rename outfd0 into outfd;
  try rename out2fd0 into out2fd;
  try rename reading_fifo0 into reading_fifo;
  try rename read1_or_transfer0 into read1_or_transfer;
  try rename rdprotect0 into rdprotect;
  try rename wrprotect0 into wrprotect;
  try rename rdprot_typ0 into rdprot_typ;
  try rename wrprot_typ0 into wrprot_typ;
  try rename rdp_i_exp0 into rdp_i_exp;
  try rename wrp_i_exp0 into wrp_i_exp;
  try rename coe_limit0 into coe_limit;
  try rename coe_count0 into coe_count;
  try rename in_full0 into in_full;
  try rename in_partial0 into in_partial;
  try rename out_full0 into out_full;
  try rename out_partial0 into out_partial;
  try rename out_sparse0 into out_sparse;
  try rename out_sparse_partial0 into out_sparse_partial;
  try rename out_sparse_active0 into out_sparse_active;
  try rename out_sparing_active0 into out_sparing_active;
  try rename out_trim_active0 into out_trim_active;
  try rename unrecovered_errs0 into unrecovered_errs;
  try rename highest_unrecovered0 into highest_unrecovered;
  try rename lowest_unrecovered0 into lowest_unrecovered;
  try rename trim_errs0 into trim_errs;
  try rename interrupted_retries0 into interrupted_retries;
  try rename err_to_report0 into err_to_report;
  try rename read_tape_numbytes0 into read_tape_numbytes;
  try rename last_tape_read_len0 into last_tape_read_len;
  try rename consec_same_len_reads0 into consec_same_len_reads;
  try rename lowest_skip0 into lowest_skip;
  try rename lowest_seek0 into lowest_seek;
  try rename errblk_fp0 into errblk_fp;
  try rename zeros_buff0 into zeros_buff;
  try rename if_ptvp0 into if_ptvp;
  try rename of_ptvp0 into of_ptvp.

Ltac name_csp :=
  try rename icbpt0 into icbpt;
  try rename ocbpt0 into ocbpt;
  try rename partial_write_bytes0 into partial_write_bytes;
  try rename if_filepos0 into if_filepos;
  try rename of_filepos0 into of_filepos;
  try rename bytes_read0 into bytes_read;
  try rename bytes_of0 into bytes_of;
  try rename bytes_of3 into bytes_of2;
  try rename leave_after_write0 into leave_after_write;
  try rename leave_reason0 into leave_reason.

Ltac name_world :=
  try rename tick0 into tick;
  try rename log0 into log;
  try rename journal0 into journal.

Ltac name_runs :=
  try rename need_wr0 into need_wr;
  try rename wr_len0 into wr_len;
  try rename wr_k0 into wr_k;
  try rename need_tr0 into need_tr;
  try rename tr_len0 into tr_len;
  try rename tr_k0 into tr_k.

Ltac open z :=
  lazymatch type of z with
  | flags_t => destruct z; name_flags
  | opts_t => destruct z; name_opts
  | cp_state_t => destruct z; name_csp
  | world => destruct z; name_world
  | finer_runs => destruct z; name_runs
  end.

(** One step: the binding, condition, tuple pattern or exit at the head of
    the left-hand side of [H]. *)
Ltac sx1 H :=
  lazymatch type of H with
  | (let x := ?e in _) = _ =>
      let v := fresh "v" in
      let Hv := fresh "Hv" in
      remember e as v eqn:Hv in H; norm Hv; split_conds Hv; subst v; zeta1 H
  | (if ?c then _ else _) = _ =>
      let v := fresh "v" in
      let Hv := fresh "Hv" in
      remember c as v eqn:Hv in H; norm Hv; split_conds Hv;
      destruct v; try discriminate Hv; symmetry in Hv; cbv beta iota in H
  | (let (a, b) := ?e in _) = _ =>
      let x := fresh "x" in
      let y := fresh "y" in
      tryif is_var e then destruct e as [x y]
      else
        (let v := fresh "v" in
         let Hv := fresh "Hv" in
         remember e as v eqn:Hv in H; norm Hv; split_conds Hv;
         destruct v as [x y]; try (injection Hv as -> ->));
      cbv beta iota in H; try open x; try open y
  | (match ?c with _ => _ end) = _ =>
      is_var c; destruct c; cbv beta iota in H
  end.

Ltac sx H := repeat sx1 H.

(** Boolean tests recorded along a path, turned into (in)equalities. *)
Ltac bools :=
  repeat match goal with
  | H : ?x = ?x |- _ => clear H
  | H : true = false |- _ => discriminate H
  | H : false = true |- _ => discriminate H
  | H : true = _ |- _ => symmetry in H
  | H : false = _ |- _ => symmetry in H
  | H : (_ <? _) = true |- _ => apply Z.ltb_lt in H
  | H : (_ <? _) = false |- _ => apply Z.ltb_ge in H
  | H : (_ <=? _) = true |- _ => apply Z.leb_le in H
  | H : (_ <=? _) = false |- _ => apply Z.leb_gt in H
  | H : (_ =? _) = true |- _ => apply Z.eqb_eq in H
  | H : (_ =? _) = false |- _ => apply Z.eqb_neq in H
  end.

(** The tests recorded along a path, used to decide the same tests in the
    goal. *)
Ltac bool_rw :=
  repeat match goal with
  | H : _ = true |- _ => rewrite H
  | H : _ = false |- _ => rewrite H
  | H : true = _ |- _ => rewrite <- H
  | H : false = _ |- _ => rewrite <- H
  end.

Arguments op_kept : simpl never.

Arguments csp_kept : simpl never.

Arguments w_kept : simpl never.

Lemma to_int_1 : to_int (0 + 1) = 1.
Proof. reflexivity. Qed.

Ltac open_states :=
  repeat match goal with
  | o : opts_t |- _ => open o
  | c : cp_state_t |- _ => open c
  | w : world |- _ => open w
  end.

Ltac kept_done :=
  repeat match goal with
  | H : _ /\ _ |- _ => destruct H
  end;
  open_states; unfold op_kept, csp_kept, w_kept in *; cbn in *;
  repeat match goal with
  | H : _ /\ _ |- _ => destruct H
  end;
  repeat split; intros; try reflexivity;
  try (subst; rewrite to_int_1 in *; discriminate);
  repeat match goal with
  | H : ?A -> _ |- _ =>
      let HA := fresh in
      assert (HA : A) by congruence; specialize (H HA); clear HA
  end;
  try congruence;
  try (exfalso; bools; congruence).

Ltac leaf H :=
  norm H; split_conds H; try discriminate H;
  try (injection H; clear H; intros; subst); kept_done.

(** The calls met along a path, written [call = result], and a lemma about
    one of them put to use; what the lemma asks for must follow from what
    is known. *)
Ltac orient :=
  repeat match goal with
  | Hp : (_, _) = ?c |- _ =>
      lazymatch c with
      | (_, _) => fail
      | _ => symmetry in Hp
      end
  end.

Ltac side :=
  unfold op_kept, csp_kept, w_kept in *; cbn in *;
  repeat match goal with
  | H : _ /\ _ |- _ => destruct H
  end;
  first [reflexivity | assumption | congruence].

Ltac use L :=
  orient;
  repeat match goal with
  | Hp : _ = (_, _) |- _ => apply L in Hp; [| solve [side] ..]
  end.


Section CoeLimit.

Context {h : ddpt_h} (Hok : ddpt_h_ok h) (env : environment).

Lemma coe_process_eio_count (op op' : opts_t) (skip r : Z) :
  coe_process_eio op skip = (r, op') ->
  0 < coe_limit op -> 0 <= coe_count op < INT_MAX ->
  0 <= unrecovered_errs op < INT_MAX ->
  coe_limit op' = coe_limit op /\
  coe_count op' = coe_count op + 1 /\
  (coe_count op < coe_limit op ->
   r = 0 /\ unrecovered_errs op' = unrecovered_errs op + 1) /\
  (coe_limit op <= coe_count op ->
   r = SG_LIB_CAT_MEDIUM_HARD /\ unrecovered_errs op' = unrecovered_errs op).
Proof.
  open op. cbn. intros H Hlim Hcnt Hun.
  cbv beta delta [coe_process_eio] in H.
  sx H.
  all: injection H as <- <-; cbn; bools.
  all: rewrite ?(to_int_small (_ + 1)) in * by (unfold INT_MIN, INT_MAX in *; lia).
  all: repeat split; try reflexivity; try lia.
Qed.

Hypothesis Hread :
  forall nb t, rv (env (Read IFILE nb) t) = -1 /\ err (env (Read IFILE nb) t) = EIO.

Hypothesis Hseek : forall off t, 0 <= rv (env (Lseek IFILE off) t).


End CoeLimit.


Section Tape.

Context {h : ddpt_h} (Hok : ddpt_h_ok h) (env : environment).

Lemma do_copy_loop_S (fuel : nat) (cr : bool) (ibpt obpt : Z)
    (op : opts_t) (csp : cp_state_t) (w : world) :
  do_copy_loop env (S fuel) cr ibpt obpt op csp w =
  if (0 <? dd_count op) || cr then
    let '(ex, op, csp, w) := do_copy_iter env cr ibpt obpt op csp w in
    match ex with
    | Continue => do_copy_loop env fuel cr ibpt obpt op csp w
    | Break ret => (LoopReturn ret, op, csp, w)
    | Killed sig => (LoopKilled sig, op, csp, w)
    end
  else (LoopReturn 0, op, csp, w).
Proof. reflexivity. Qed.


End Tape.


(** C3, the run that shows the slip: with [coe_limit=1], a bad block in the
    first chunk, a second chunk read in one piece, and a bad block at the
    start of the third chunk, the copy ends with [SG_LIB_CAT_MEDIUM_HARD]
    after one zero-filled block: the two good blocks of the second chunk did
    not reset [coe_count]. *)
Lemma coe_count_survives_good_chunk :
  fst (fst run_coe) = LoopReturn (SG_LIB_CAT_MEDIUM_HARD (ddpt_h := linux_h)) /\
  unrecovered_errs (snd (fst run_coe)) = 1 /\
  rev (log (snd run_coe)) =
    [Signals; Read IFILE 1024; Read IFILE 512; Signals;
     Signals; Lseek IFILE 1024; Read IFILE 1024; Signals;
     Signals; Read IFILE 1024; Read IFILE 512].
Proof. vm_compute. repeat split. Qed.

Section BulkRead.

Context {h : ddpt_h} (Hok : ddpt_h_ok h) (env : environment).

(** C3, as the code has it: a chunk that [cp_read_block_reg] reads in full
    with its one [read] returns 0 and leaves [coe_count] as it was, whatever
    [coe_limit] is; only the single-block reads of the fallback reset it. *)
Theorem bulk_read_keeps_coe_count (op op' : opts_t) (csp csp' : cp_state_t)
    (w w' : world) (res : Z) :
  0 <= to_int (icbpt csp * ibs_pi op) ->
  (forall t, rv (env (Read IFILE (to_int (icbpt csp * ibs_pi op))) t)
             = to_int (icbpt csp * ibs_pi op)) ->
  (forall off t, 0 <= rv (env (Lseek IFILE off) t)) ->
  cp_read_block_reg env op csp w = (res, op', csp', w') ->
  res = 0 /\ bytes_read csp' = to_int (icbpt csp * ibs_pi op) /\
  leave_after_write csp' = leave_after_write csp /\
  coe_limit op' = coe_limit op /\ coe_count op' = coe_count op.
Proof.
  open op; open csp; open w. cbn. intros Hpos Hread Hseek H.
  cbv beta delta [cp_read_block_reg] in H. sx H.
  all: pose proof (Hread tick) as E1; pose proof (Hread (S tick)) as E2;
    pose proof (Hseek (to_int64 (skip * ibs_pi)) tick) as E3;
    rewrite ?E1, ?E2 in *; bools; try lia.
  all: injection H as <- <- <- <-; cbn; repeat split; reflexivity.
Qed.

End BulkRead.

(** C3, witness: a chunk of two blocks read in full with [coe_count = 1]. *)
Lemma bulk_read_keeps_coe_count_witness :
  fst (fst (fst bulk_run)) = 0 /\ coe_count (snd (fst (fst bulk_run))) = 1.
Proof.
  destruct (bulk_read_keeps_coe_count (h := linux_h) env_files
              (op_coe{{coe_count := 1}}) (snd (fst (fst bulk_run)))
              (cp_state_zero{{icbpt := 2}}) (snd (fst bulk_run))
              world0 (snd bulk_run) (fst (fst (fst bulk_run))))
    as (H1 & _ & _ & _ & H2);
    [vm_compute; discriminate | intros; reflexivity
     | intros; vm_compute; discriminate | vm_compute; reflexivity |].
  split; [exact H1 | exact H2].
Defined.

Section Sparse.

Context {h : ddpt_h} (env : environment).

Lemma cp_sparse_zero_chunk op csp w ex op' csp' w' :
  cp_sparse env op csp w = (ex, op', csp', w') ->
  sparse (oflagp op) <> 0 ->
  rv (env (Memcmp ZEROS_BUFF 0
             (to_int (to_int (ocbpt csp * obs op) + partial_write_bytes csp)))
          (tick w)) = 0 ->
  ex = ToWrite false true /\ csp' = csp /\
  log w' =
    (if nz (wsame16 (oflagp op)) && ft_has FT_PT (out_type op)
     then [PtWriteSame16 (ocbpt csp) (seek op)] else []) ++
    Memcmp ZEROS_BUFF 0
      (to_int (to_int (ocbpt csp * obs op) + partial_write_bytes csp))
    :: log w /\
  out_sparse op' = out_sparse op /\
  out_sparse_partial op' = out_sparse_partial op /\
  out_full op' = out_full op /\ out_partial op' = out_partial op.
Proof.
  intros Hs Hsp Hz. open op; open csp; open w. cbn in Hsp, Hz |- *.
  cbv beta delta [cp_sparse] in Hs. sx Hs.
  all: norm Hs; split_conds Hs.
  all: try (injection Hs as <- <- <- <-; cbn; autounfold with ddpt; cbn;
            bool_rw; cbn; repeat split; reflexivity).
  all: bools; congruence.
Qed.

Lemma cp_sparse_off op csp w :
  sparse (oflagp op) = 0 ->
  cp_sparse env op csp w = (ToWrite false false, op, csp, w).
Proof.
  intros Hsp. unfold cp_sparse, nz. rewrite Hsp. reflexivity.
Qed.


End Sparse.


Section Kept.

Context {h : ddpt_h} (Hok : ddpt_h_ok h) (env : environment).

Lemma cp_read_pt_kept op csp w res op' csp' w' :
  cp_read_pt env op csp w = (res, op', csp', w') ->
  op_kept op' = op_kept op /\ w_kept w' = w_kept w /\
  (leave_after_write csp = 0 -> leave_after_write csp' = 0 ->
   csp_kept csp' = csp_kept csp).
Proof.
  open op; open csp; open w. intros H. cbv beta delta [cp_read_pt] in H. sx H.
  all: norm H; split_conds H.
  all: leaf H.
Qed.

Lemma coe_process_eio_kept op skip r op' :
  coe_process_eio op skip = (r, op') -> op_kept op' = op_kept op.
Proof.
  open op. intros H. cbv beta delta [coe_process_eio] in H. sx H.
  all: leaf H.
Qed.

Lemma coe_short_read_kept ibs k res op csp op' csp' :
  coe_short_read ibs k res op csp = (op', csp') ->
  op_kept op' = op_kept op /\
  (leave_after_write csp = 0 -> leave_after_write csp' = 0 ->
   csp_kept csp' = csp_kept csp).
Proof.
  open op; open csp. intros H. cbv beta delta [coe_short_read] in H. sx H.
  all: leaf H.
Qed.

Lemma coe_loop_kept ibs n :
  forall k my_skip offset op csp w ex op' csp' w',
  coe_loop env n ibs k my_skip offset op csp w = (ex, op', csp', w') ->
  op_kept op' = op_kept op /\ w_kept w' = w_kept w /\
  csp_kept csp' = csp_kept csp.
Proof.
  induction n as [| n IH]; intros k my_skip offset op csp w ex op' csp' w' H.
  - change (coe_loop env 0 ibs k my_skip offset op csp w) with (CoeDone, op, csp, w) in H.
    injection H as <- <- <- <-. repeat split.
  - change (coe_loop env (S n) ibs k my_skip offset op csp w)
      with (coe_step env (coe_loop env n ibs) ibs k my_skip offset op csp w) in H.
    open op; open csp; open w. cbv beta delta [coe_step] in H. sx H.
    all: norm H; split_conds H.
    all: use coe_process_eio_kept; use IH.
    all: leaf H.
Qed.

Lemma coe_cp_read_block_reg_kept op csp w n res op' csp' w' :
  coe_cp_read_block_reg env op csp w n = (res, op', csp', w') ->
  op_kept op' = op_kept op /\ w_kept w' = w_kept w /\
  (leave_after_write csp = 0 -> leave_after_write csp' = 0 ->
   csp_kept csp' = csp_kept csp).
Proof.
  open op; open csp; open w. intros H.
  cbv beta delta [coe_cp_read_block_reg] in H. sx H.
  all: use coe_process_eio_kept; use coe_loop_kept; use coe_short_read_kept.
  all: leaf H.
Qed.

Lemma cp_read_block_reg_kept op csp w res op' csp' w' :
  cp_read_block_reg env op csp w = (res, op', csp', w') ->
  op_kept op' = op_kept op /\ w_kept w' = w_kept w /\
  (leave_after_write csp = 0 -> leave_after_write csp' = 0 ->
   csp_kept csp' = csp_kept csp).
Proof.
  open op; open csp; open w. intros H.
  cbv beta delta [cp_read_block_reg] in H. sx H.
  all: use coe_cp_read_block_reg_kept.
  all: leaf H.
Qed.

Lemma cp_read_tape_kept op csp w res op' csp' w' :
  cp_read_tape env op csp w = (res, op', csp', w') ->
  op_kept op' = op_kept op /\ w_kept w' = w_kept w /\
  (leave_after_write csp = 0 -> leave_after_write csp' = 0 ->
   csp_kept csp' = csp_kept csp).
Proof.
  open op; open csp; open w. intros H.
  cbv beta delta [cp_read_tape] in H. sx H.
  all: leaf H.
Qed.

Lemma fifo_loop_kept numbytes n :
  forall k op csp w ok op' csp' w',
  fifo_loop env n numbytes k op csp w = (ok, op', csp', w') ->
  op_kept op' = op_kept op /\ w_kept w' = w_kept w /\
  (leave_after_write csp = 0 -> leave_after_write csp' = 0 ->
   csp_kept csp' = csp_kept csp).
Proof.
  induction n as [| n IH]; intros k op csp w ok op' csp' w' H.
  - change (fifo_loop env 0 numbytes k op csp w)
      with (if negb (k <? numbytes) then (Some k, op, csp, w)
            else (Some k, op, csp, w)) in H.
    destruct (negb (k <? numbytes)); injection H as <- <- <- <-; repeat split.
  - change (fifo_loop env (S n) numbytes k op csp w)
      with (if negb (k <? numbytes) then (Some k, op, csp, w)
            else fifo_step env (fifo_loop env n numbytes) numbytes k op csp w) in H.
    destruct (negb (k <? numbytes)); [injection H as <- <- <- <-; repeat split |].
    open op; open csp; open w. cbv beta delta [fifo_step] in H. sx H.
    all: use IH.
    all: leaf H.
Qed.

Lemma cp_read_fifo_kept op csp w res op' csp' w' :
  cp_read_fifo env op csp w = (res, op', csp', w') ->
  op_kept op' = op_kept op /\ w_kept w' = w_kept w /\
  (leave_after_write csp = 0 -> leave_after_write csp' = 0 ->
   csp_kept csp' = csp_kept csp).
Proof.
  open op; open csp; open w. intros H.
  cbv beta delta [cp_read_fifo] in H. sx H.
  all: use fifo_loop_kept.
  all: leaf H.
Qed.

Lemma cp_read_kept op csp w res op' csp' w' :
  cp_read env op csp w = (res, op', csp', w') ->
  op_kept op' = op_kept op /\ w_kept w' = w_kept w /\
  (leave_after_write csp = 0 -> leave_after_write csp' = 0 ->
   csp_kept csp' = csp_kept csp).
Proof.
  unfold cp_read.
  destruct (ft_has FT_PT (in_type op)); [apply cp_read_pt_kept |].
  destruct (ft_has FT_FIFO (in_type op)); [apply cp_read_fifo_kept |].
  destruct (ft_has FT_TAPE (in_type op)); [apply cp_read_tape_kept |].
  apply cp_read_block_reg_kept.
Qed.

Lemma write_loop_kept fifo numbytes n :
  forall off op w res e off' op' w',
  write_loop env n OFILE2 fifo numbytes off op w = (res, e, off', op', w') ->
  op_kept op' = op_kept op /\ w_kept w' = w_kept w.
Proof.
  induction n as [| n IH]; intros off op w res e off' op' w' H.
  - open op; open w. cbv beta iota fix delta [write_loop] in H. sx H.
    all: leaf H.
  - open op; open w. cbv beta iota fix delta [write_loop] in H. sx H.
    all: use IH.
    all: leaf H.
Qed.

Lemma cp_write_of2_kept op csp w res op' csp' w' :
  cp_write_of2 env op csp w = (res, op', csp', w') ->
  op_kept op' = op_kept op /\ w_kept w' = w_kept w /\
  csp_kept csp' = csp_kept csp.
Proof.
  open op; open csp; open w. intros H.
  cbv beta delta [cp_write_of2] in H. sx H.
  all: use write_loop_kept.
  all: leaf H.
Qed.

Lemma cp_read_of_pt_kept op csp w res op' csp' w' :
  cp_read_of_pt env op csp w = (res, op', csp', w') ->
  op_kept op' = op_kept op /\ w_kept w' = w_kept w /\
  csp_kept csp' = csp_kept csp.
Proof.
  open op; open csp; open w. intros H.
  cbv beta delta [cp_read_of_pt] in H. sx H.
  all: leaf H.
Qed.

Lemma cp_read_of_block_reg_kept op csp w res op' csp' w' :
  cp_read_of_block_reg env op csp w = (res, op', csp', w') ->
  op_kept op' = op_kept op /\ w_kept w' = w_kept w /\
  csp_kept csp' = csp_kept csp.
Proof.
  open op; open csp; open w. intros H.
  cbv beta delta [cp_read_of_block_reg] in H. sx H.
  all: leaf H.
Qed.

End Kept.


Section Chunk.

Context {h : ddpt_h} (Hok : ddpt_h_ok h) (env : environment).

Lemma cp_sparse_to_write op csp w a b op' csp' w' :
  cp_sparse env op csp w = (ToWrite a b, op', csp', w') ->
  op_kept op' = op_kept op /\ csp_kept csp' = csp_kept csp.
Proof.
  open op; open csp; open w. intros H.
  cbv beta delta [cp_sparse] in H. sx H.
  all: leaf H.
Qed.

Lemma cp_sparing_to_write s op csp w a b op' csp' w' :
  cp_sparing env s op csp w = (ToWrite a b, op', csp', w') ->
  op_kept op' = op_kept op /\ csp_kept csp' = csp_kept csp.
Proof.
  open op; open csp; open w. intros H.
  cbv beta delta [cp_sparing] in H. sx H.
  all: use cp_read_of_pt_kept; use cp_read_of_block_reg_kept.
  all: leaf H.
Qed.

Lemma cp_compare_to_write op csp w a b op' csp' w' :
  cp_compare env op csp w = (ToWrite a b, op', csp', w') ->
  op_kept op' = op_kept op /\ csp_kept csp' = csp_kept csp.
Proof.
  open op; open csp; open w. intros H.
  cbv beta delta [cp_compare cp_tests] in H. sx H.
  all: use cp_write_of2_kept; use cp_sparse_to_write; use cp_sparing_to_write.
  all: leaf H.
Qed.

Lemma cp_to_write_at_write cr ibpt obpt op csp w a b op' csp' w' :
  cp_to_write env cr ibpt obpt op csp w = (AtWrite a b, op', csp', w') ->
  leave_after_write (cp_plan cr ibpt obpt op csp) = 0 ->
  leave_after_write csp' = 0 ->
  op_kept op' = op_kept op /\
  csp_kept csp' = csp_kept (cp_plan cr ibpt obpt op csp).
Proof.
  intros H. cbv beta delta [cp_to_write] in H.
  remember (cp_plan cr ibpt obpt op csp) as csp0 eqn:E. clear E.
  open op; open csp0; open w. sx H.
  all: use cp_read_kept; use cp_compare_to_write.
  all: leaf H.
Qed.

Lemma cp_plan_kept cr ibpt obpt op csp :
  partial_write_bytes (cp_plan cr ibpt obpt op csp) = partial_write_bytes csp /\
  leave_after_write (cp_plan cr ibpt obpt op csp) = leave_after_write csp.
Proof.
  destruct (cp_plan cr ibpt obpt op csp) as [] eqn:H.
  open op; open csp. cbv beta delta [cp_plan] in H. sx H.
  all: norm H; split_conds H.
  all: injection H; clear H; intros; subst; cbn; split; reflexivity.
Qed.

Lemma cp_plan_full cr ibpt obpt op csp :
  (ibpt <=? dd_count op) || cr = true ->
  icbpt (cp_plan cr ibpt obpt op csp) = ibpt /\
  ocbpt (cp_plan cr ibpt obpt op csp) = obpt.
Proof.
  intros Hc. unfold cp_plan. rewrite Hc. open csp. cbn. split; reflexivity.
Qed.

Lemma cp_plan_last cr ibpt obpt op csp :
  (ibpt <=? dd_count op) || cr = false ->
  icbpt (cp_plan cr ibpt obpt op csp) = to_int (dd_count op) /\
  ocbpt (cp_plan cr ibpt obpt op csp) =
    if nz (Z.rem (to_int (to_int (dd_count op) * ibs op)) (obs op))
    then to_int (Z.quot (to_int (to_int (dd_count op) * ibs op)) (obs op) + 1)
    else Z.quot (to_int (to_int (dd_count op) * ibs op)) (obs op).
Proof.
  intros Hc. unfold cp_plan. rewrite Hc. open csp. cbn.
  destruct (nz _); cbn; split; reflexivity.
Qed.

Lemma quot_exact (a b : Z) : Z.rem a b = 0 <-> a = Z.quot a b * b.
Proof.
  pose proof (Z.quot_rem' a b). lia.
Qed.

Lemma quot_round_up (a b : Z) :
  0 <= a -> 0 < b -> Z.rem a b <> 0 -> a <> (Z.quot a b + 1) * b.
Proof.
  intros Ha Hb Hr. pose proof (Z.quot_rem' a b).
  pose proof (Z.rem_bound_pos a b Ha Hb). lia.
Qed.


End Chunk.


Lemma ft_has_false (a b : Z) : ft_has a b = false -> (Z.land a b =? 0) = true.
Proof. unfold ft_has, nz. destruct (Z.land a b =? 0); [reflexivity | discriminate]. Qed.

Lemma ft_has_true (a b : Z) : ft_has a b = true -> (Z.land a b =? 0) = false.
Proof. unfold ft_has, nz. destruct (Z.land a b =? 0); [discriminate | reflexivity]. Qed.

Section DevNull.

Context {h : ddpt_h} (Hok : ddpt_h_ok h) (env : environment).

(** The tests of the type of the output that the copy makes, decided for
    the null device. *)
Ltac dev_null :=
  pose proof (ft_has_false _ _ (ft_dev_null_pt h Hok));
  pose proof (ft_has_false _ _ (ft_dev_null_reg h Hok));
  pose proof (ft_has_false _ _ (ft_dev_null_tape h Hok));
  pose proof (ft_has_true _ _ (ft_dev_null_bit h Hok)).

Lemma finer_write_quiet op csp sd blks w res op' csp' w' :
  finer_write env op csp sd blks w = (res, op', csp', w') ->
  out_type op = FT_DEV_NULL ->
  op_kept op' = op_kept op /\ w_kept w' = w_kept w.
Proof.
  intros H Hdn. unfold finer_write in H. rewrite Hdn in H.
  rewrite (ft_dev_null_bit h Hok) in H. injection H as <- <- <- <-.
  repeat split.
Qed.

Lemma finer_loop_quiet b2p obs numbytes chunk n :
  forall k fr op csp w ret fr' op' csp' w',
  finer_loop env n b2p false obs numbytes chunk k fr op csp w
    = (ret, fr', op', csp', w') ->
  out_type op = FT_DEV_NULL -> need_tr fr = false ->
  op_kept op' = op_kept op /\ w_kept w' = w_kept w /\ need_tr fr' = false.
Proof.
  induction n as [| n IH]; intros k fr op csp w ret fr' op' csp' w' H Hdn Htr.
  - change (finer_loop env 0 b2p false obs numbytes chunk k fr op csp w)
      with (if negb (k <? numbytes) then (@None Z, fr, op, csp, w)
            else (@None Z, fr, op, csp, w)) in H.
    destruct (negb (k <? numbytes)); injection H as <- <- <- <- <-; repeat split;
      assumption.
  - change (finer_loop env (S n) b2p false obs numbytes chunk k fr op csp w)
      with (if negb (k <? numbytes) then (@None Z, fr, op, csp, w)
            else finer_step env (finer_loop env n b2p false obs numbytes chunk)
                   b2p false obs numbytes chunk k fr op csp w) in H.
    destruct (negb (k <? numbytes));
      [injection H as <- <- <- <- <-; repeat split; assumption |].
    open op; open csp; open w; open fr. cbn in Hdn, Htr. subst.
    cbv beta delta [finer_step] in H. sx H.
    all: use finer_write_quiet.
    all: use IH.
    all: leaf H.
Qed.

Lemma cp_finer_comp_wr_quiet op csp b2p w res op' csp' w' :
  cp_finer_comp_wr env op csp b2p w = (res, op', csp', w') ->
  out_type op = FT_DEV_NULL ->
  op_kept op' = op_kept op /\ w_kept w' = w_kept w.
Proof.
  intros H Hdn. open op; open csp; open w. cbn in Hdn. subst. dev_null.
  cbv beta delta [cp_finer_comp_wr] in H. sx H.
  all: use finer_loop_quiet; use finer_write_quiet.
  all: leaf H.
Qed.

Lemma cp_sparse_quiet op csp w ex op' csp' w' :
  cp_sparse env op csp w = (ex, op', csp', w') ->
  out_type op = FT_DEV_NULL ->
  op_kept op' = op_kept op /\ w_kept w' = w_kept w.
Proof.
  intros H Hdn. open op; open csp; open w. cbn in Hdn. subst. dev_null.
  cbv beta delta [cp_sparse] in H. sx H.
  all: use cp_finer_comp_wr_quiet.
  all: leaf H.
Qed.

Lemma cp_sparing_quiet s op csp w ex op' csp' w' :
  cp_sparing env s op csp w = (ex, op', csp', w') ->
  out_type op = FT_DEV_NULL ->
  op_kept op' = op_kept op /\ w_kept w' = w_kept w.
Proof.
  intros H Hdn. open op; open csp; open w. cbn in Hdn. subst. dev_null.
  cbv beta delta [cp_sparing] in H. sx H.
  all: use cp_read_of_pt_kept; use cp_read_of_block_reg_kept.
  all: use cp_finer_comp_wr_quiet.
  all: leaf H.
Qed.

Lemma cp_compare_quiet op csp w ex op' csp' w' :
  cp_compare env op csp w = (ex, op', csp', w') ->
  out_type op = FT_DEV_NULL ->
  op_kept op' = op_kept op /\ w_kept w' = w_kept w.
Proof.
  intros H Hdn. open op; open csp; open w. cbn in Hdn. subst.
  cbv beta delta [cp_compare cp_tests] in H. sx H.
  all: use cp_write_of2_kept; use cp_sparse_quiet; use cp_sparing_quiet.
  all: leaf H.
Qed.

Lemma cp_to_write_quiet cr ibpt obpt op csp w st op' csp' w' :
  cp_to_write env cr ibpt obpt op csp w = (st, op', csp', w') ->
  out_type op = FT_DEV_NULL ->
  op_kept op' = op_kept op /\ w_kept w' = w_kept w.
Proof.
  intros H Hdn. cbv beta delta [cp_to_write] in H.
  remember (cp_plan cr ibpt obpt op csp) as csp0 eqn:E. clear E.
  open op; open csp0; open w. cbn in Hdn. subst. sx H.
  all: use cp_read_kept; use cp_compare_quiet.
  all: leaf H.
Qed.

Lemma cp_write_dev_null a b op csp w res op' csp' w' :
  cp_write env a b op csp w = (res, op', csp', w') ->
  out_type op = FT_DEV_NULL ->
  res = 0 /\ op_kept op' = op_kept op /\ w' = w.
Proof.
  intros H Hdn. open op; open csp; open w. cbn in Hdn. subst. dev_null.
  cbv beta delta [cp_write] in H. sx H.
  all: norm H; split_conds H; try discriminate.
  all: try (injection H; clear H; intros; subst; repeat split; reflexivity).
  all: exfalso; bools; congruence.
Qed.

Lemma cp_write_quiet a b op csp w res op' csp' w' :
  cp_write env a b op csp w = (res, op', csp', w') ->
  out_type op = FT_DEV_NULL ->
  op_kept op' = op_kept op /\ w_kept w' = w_kept w.
Proof.
  intros H Hdn. destruct (cp_write_dev_null _ _ _ _ _ _ _ _ _ H Hdn) as (_ & E & ->).
  split; [exact E | reflexivity].
Qed.

Lemma do_fadvise_kept op a b c w op' w' :
  do_fadvise env op a b c w = (op', w') ->
  op_kept op' = op_kept op /\ w_kept w' = w_kept w.
Proof.
  intros H. open op; open w. cbv beta delta [do_fadvise] in H. sx H.
  all: leaf H.
Qed.

Lemma cp_bypass_write_kept op csp w ex op' csp' w' :
  cp_bypass_write env op csp w = (ex, op', csp', w') ->
  op_kept op' = op_kept op /\ w_kept w' = w_kept w.
Proof.
  intros H. open op; open csp; open w. cbv beta delta [cp_bypass_write] in H. sx H.
  all: use do_fadvise_kept.
  all: leaf H.
Qed.

Lemma cp_from_write_quiet a b op csp w ex op' csp' w' :
  cp_from_write env a b op csp w = (ex, op', csp', w') ->
  out_type op = FT_DEV_NULL ->
  op_kept op' = op_kept op /\ w_kept w' = w_kept w.
Proof.
  intros H Hdn. open op; open csp; open w. cbn in Hdn. subst.
  cbv beta delta [cp_from_write] in H. sx H.
  all: use cp_write_quiet; use cp_bypass_write_kept.
  all: leaf H.
Qed.

Lemma do_copy_iter_quiet cr ibpt obpt op csp w ex op' csp' w' :
  do_copy_iter env cr ibpt obpt op csp w = (ex, op', csp', w') ->
  out_type op = FT_DEV_NULL ->
  op_kept op' = op_kept op /\ w_kept w' = w_kept w.
Proof.
  intros H Hdn. open op; open csp; open w. cbn in Hdn. subst.
  cbv beta delta [do_copy_iter] in H. sx H.
  all: use cp_to_write_quiet; use cp_bypass_write_kept; use cp_from_write_quiet.
  all: leaf H.
Qed.

Lemma do_copy_loop_quiet cr ibpt obpt fuel :
  forall op csp w ex op' csp' w',
  do_copy_loop env fuel cr ibpt obpt op csp w = (ex, op', csp', w') ->
  out_type op = FT_DEV_NULL ->
  op_kept op' = op_kept op /\ w_kept w' = w_kept w.
Proof.
  induction fuel as [| fuel IH]; intros op csp w ex op' csp' w' H Hdn.
  - change (do_copy_loop env 0 cr ibpt obpt op csp w)
      with (if (0 <? dd_count op) || cr then (LoopFuel, op, csp, w)
            else (LoopReturn 0, op, csp, w)) in H.
    destruct ((0 <? dd_count op) || cr); injection H as <- <- <- <-; split; reflexivity.
  - change (do_copy_loop env (S fuel) cr ibpt obpt op csp w)
      with (if (0 <? dd_count op) || cr then
              let '(ex, op, csp, w) := do_copy_iter env cr ibpt obpt op csp w in
              match ex with
              | Continue => do_copy_loop env fuel cr ibpt obpt op csp w
              | Break ret => (LoopReturn ret, op, csp, w)
              | Killed sig => (LoopKilled sig, op, csp, w)
              end
            else (LoopReturn 0, op, csp, w)) in H.
    destruct ((0 <? dd_count op) || cr);
      [| injection H as <- <- <- <-; split; reflexivity].
    open op; open csp; open w. cbn in Hdn. subst. sx H.
    all: use do_copy_iter_quiet; use IH.
    all: leaf H.
Qed.

Lemma cp_construct_pt_zero_buff_kept op obpt w res op' w' :
  cp_construct_pt_zero_buff env op obpt w = (res, op', w') ->
  op_kept op' = op_kept op /\ w_kept w' = w_kept w.
Proof.
  intros H. open op; open w. cbv beta delta [cp_construct_pt_zero_buff] in H. sx H.
  all: leaf H.
Qed.

Lemma do_copy_finish_quiet op csp w op' w' :
  do_copy_finish env op csp w = (op', w') ->
  out_type op = FT_DEV_NULL ->
  op_kept op' = op_kept op /\ w_kept w' = w_kept w.
Proof.
  intros H Hdn. open op; open csp; open w. cbn in Hdn. subst. dev_null.
  cbv beta delta [do_copy_finish] in H. sx H.
  all: leaf H.
Qed.

Lemma do_copy_end_kept op w op' w' :
  do_copy_end env op w = (op', w') ->
  op_kept op' = op_kept op /\ w_kept w' = w_kept w.
Proof.
  intros H. open op; open w. cbv beta delta [do_copy_end] in H. sx H.
  all: leaf H.
Qed.

(** C8: when the output is the null device, [do_copy], however it ends and
    for any number of passes, leaves [out_full] as it was and makes no write
    to the output ([write], [WRITE] or [WRITE SAME]); and the writing
    section of a chunk makes no call at all and returns 0. *)
Theorem dev_null_output_counts_nothing (fuel : nat) (op op' : opts_t)
    (w w' : world) (ex : loop_exit) :
  out_type op = FT_DEV_NULL ->
  do_copy env fuel op w = (ex, op', w') ->
  out_full op' = out_full op /\ out_type op' = FT_DEV_NULL /\
  filter is_output_write (log w') = filter is_output_write (log w) /\
  (forall a b csp r op1 csp1 w1,
     cp_write env a b op csp w = (r, op1, csp1, w1) ->
     r = 0 /\ w1 = w /\ out_full op1 = out_full op).
Proof.
  intros Hdn H. split; [| split; [| split]].
  4: { intros a b csp r op1 csp1 w1 Hw.
       destruct (cp_write_dev_null _ _ _ _ _ _ _ _ _ Hw Hdn) as (-> & E & ->).
       unfold op_kept in E. injection E as _ _ _ E. repeat split. exact E. }
  all: destruct op, w; cbn in Hdn; subst;
    cbv beta delta [do_copy] in H; sx H.
  all: use cp_construct_pt_zero_buff_kept; use do_copy_loop_quiet;
    use do_copy_finish_quiet; use do_copy_end_kept.
  all: norm H; split_conds H; try discriminate H;
    try (injection H; clear H; intros; subst).
  all: repeat match goal with Hc : _ /\ _ |- _ => destruct Hc end.
  all: open_states; unfold op_kept, w_kept in *; cbn in *; congruence.
Qed.

End DevNull.

(** C8, witness: eight blocks copied to the null device. *)
Lemma dev_null_output_counts_nothing_witness :
  in_full (snd (fst null_run)) = 8 /\ out_full (snd (fst null_run)) = 0 /\
  filter is_output_write (log (snd null_run)) = [].
Proof.
  destruct (dev_null_output_counts_nothing (h := linux_h) linux_h_ok env_files 10
              op_null (snd (fst null_run)) world0 (snd null_run) (fst (fst null_run)))
    as (H1 & _ & H2 & _);
    [reflexivity | vm_compute; reflexivity |].
  split; [vm_compute; reflexivity | split; [exact H1 | exact H2]].
Defined.



Section Resume.

Context {h : ddpt_h} (Hok : ddpt_h_ok h) (env : environment).

Lemma main_cleanup_negative ret op w :
  ret < 0 -> fst (main_cleanup env ret op w) = SG_LIB_CAT_OTHER.
Proof.
  intros Hneg. unfold main_cleanup. cbn [fst].
  destruct (Z.eqb_spec ret 0) as [E | _]; [lia |]. cbn [andb].
  destruct (Z.leb_spec 0 ret); [lia | reflexivity].
Qed.


Lemma cl_implied_sparse_level op op' :
  cl_implied_sparse op = op' ->
  0 <= sparse (oflagp op) <= INT_MAX - 2 ->
  (wsame16 (oflagp op) <> 0 -> sparse (oflagp op') = sparse (oflagp op) + 2) /\
  (wsame16 (oflagp op) = 0 -> strunc (oflagp op) <> 0 -> sparse (oflagp op) = 0 ->
   sparse (oflagp op') = 1) /\
  (wsame16 (oflagp op) = 0 -> (strunc (oflagp op) = 0 \/ sparse (oflagp op) <> 0) ->
   sparse (oflagp op') = sparse (oflagp op)).
Proof.
  open op. open oflagp.
  cbn. intros H Hr. cbv beta delta [cl_implied_sparse] in H. sx H.
  all: subst op'; cbn; bools.
  all: rewrite ?(to_int_small (sparse + 2)), ?(to_int_small (sparse + 1))
         by (unfold INT_MIN, INT_MAX in *; lia).
  all: repeat split; intros; try lia; try tauto.
  all: rewrite ?(to_int_small (sparse + 2)) in * by (unfold INT_MIN, INT_MAX in *; lia); lia.
Qed.

Lemma main_flags_sparse op op' :
  main_flags op = op' ->
  sparse (oflagp op) <> 0 ->
  (nz (Z.land (Z.lor FT_FIFO FT_TAPE) (out_type op)) = true ->
   sparse (oflagp op') = 0) /\
  (nz (Z.land (Z.lor FT_FIFO FT_TAPE) (out_type op)) = false ->
   sparse (oflagp op') = sparse (oflagp op)).
Proof.
  open op. open oflagp.
  cbn. intros H Hr. cbv beta delta [main_flags] in H. sx H.
  all: subst op'; cbn; unfold nz; bool_rw; cbn.
  all: split; intros; try reflexivity; try discriminate.
  all: exfalso; bools; congruence.
Qed.


End Resume.



Arguments op_given : simpl never.

Arguments op_pos : simpl never.

Arguments op_frame : simpl never.

Ltac frame_done :=
  repeat match goal with H : _ /\ _ |- _ => destruct H end;
  open_states; unfold op_frame, op_given, op_pos in *; cbn in *;
  repeat match goal with H : _ /\ _ |- _ => destruct H end;
  repeat split; intros; try reflexivity;
  repeat match goal with
  | H : ?A -> _ |- _ =>
      let HA := fresh in assert (HA : A) by congruence; specialize (H HA); clear HA
  end;
  try congruence.

Ltac fleaf H :=
  norm H; split_conds H; try discriminate H;
  try (injection H; clear H; intros; subst); frame_done.

Section Frame.

Context {h : ddpt_h} (env : environment).

Lemma cp_read_pt_frame op csp w res op' csp' w' :
  cp_read_pt env op csp w = (res, op', csp', w') -> op_frame op' = op_frame op.
Proof.
  open op; open csp; open w. intros H. cbv beta delta [cp_read_pt] in H. sx H.
  all: fleaf H.
Qed.

Lemma coe_process_eio_frame op skip r op' :
  coe_process_eio op skip = (r, op') -> op_frame op' = op_frame op.
Proof.
  open op. intros H. cbv beta delta [coe_process_eio] in H. sx H.
  all: fleaf H.
Qed.

Lemma coe_short_read_frame ibs k res op csp op' csp' :
  coe_short_read ibs k res op csp = (op', csp') -> op_frame op' = op_frame op.
Proof.
  open op; open csp. intros H. cbv beta delta [coe_short_read] in H. sx H.
  all: fleaf H.
Qed.

Lemma coe_loop_frame ibs n :
  forall k my_skip offset op csp w ex op' csp' w',
  coe_loop env n ibs k my_skip offset op csp w = (ex, op', csp', w') ->
  op_frame op' = op_frame op.
Proof.
  induction n as [| n IH]; intros k my_skip offset op csp w ex op' csp' w' H.
  - change (coe_loop env 0 ibs k my_skip offset op csp w) with (CoeDone, op, csp, w) in H.
    injection H as <- <- <- <-. reflexivity.
  - change (coe_loop env (S n) ibs k my_skip offset op csp w)
      with (coe_step env (coe_loop env n ibs) ibs k my_skip offset op csp w) in H.
    open op; open csp; open w. cbv beta delta [coe_step] in H. sx H.
    all: norm H; split_conds H.
    all: use coe_process_eio_frame; use IH.
    all: fleaf H.
Qed.

Lemma coe_cp_read_block_reg_frame op csp w n res op' csp' w' :
  coe_cp_read_block_reg env op csp w n = (res, op', csp', w') ->
  op_frame op' = op_frame op.
Proof.
  open op; open csp; open w. intros H.
  cbv beta delta [coe_cp_read_block_reg] in H. sx H.
  all: use coe_process_eio_frame; use coe_loop_frame; use coe_short_read_frame.
  all: fleaf H.
Qed.

Lemma cp_read_block_reg_frame op csp w res op' csp' w' :
  cp_read_block_reg env op csp w = (res, op', csp', w') ->
  op_frame op' = op_frame op.
Proof.
  open op; open csp; open w. intros H.
  cbv beta delta [cp_read_block_reg] in H. sx H.
  all: use coe_cp_read_block_reg_frame.
  all: fleaf H.
Qed.

Lemma cp_read_tape_frame op csp w res op' csp' w' :
  cp_read_tape env op csp w = (res, op', csp', w') ->
  op_frame op' = op_frame op.
Proof.
  open op; open csp; open w. intros H.
  cbv beta delta [cp_read_tape] in H. sx H.
  all: fleaf H.
Qed.

Lemma fifo_loop_frame numbytes n :
  forall k op csp w ok op' csp' w',
  fifo_loop env n numbytes k op csp w = (ok, op', csp', w') ->
  op_frame op' = op_frame op.
Proof.
  induction n as [| n IH]; intros k op csp w ok op' csp' w' H.
  - change (fifo_loop env 0 numbytes k op csp w)
      with (if negb (k <? numbytes) then (Some k, op, csp, w)
            else (Some k, op, csp, w)) in H.
    destruct (negb (k <? numbytes)); injection H as <- <- <- <-; reflexivity.
  - change (fifo_loop env (S n) numbytes k op csp w)
      with (if negb (k <? numbytes) then (Some k, op, csp, w)
            else fifo_step env (fifo_loop env n numbytes) numbytes k op csp w) in H.
    destruct (negb (k <? numbytes)); [injection H as <- <- <- <-; reflexivity |].
    open op; open csp; open w. cbv beta delta [fifo_step] in H. sx H.
    all: use IH.
    all: fleaf H.
Qed.

Lemma cp_read_fifo_frame op csp w res op' csp' w' :
  cp_read_fifo env op csp w = (res, op', csp', w') ->
  op_frame op' = op_frame op.
Proof.
  open op; open csp; open w. intros H.
  cbv beta delta [cp_read_fifo] in H. sx H.
  all: use fifo_loop_frame.
  all: fleaf H.
Qed.

Lemma cp_read_frame op csp w res op' csp' w' :
  cp_read env op csp w = (res, op', csp', w') -> op_frame op' = op_frame op.
Proof.
  unfold cp_read.
  destruct (ft_has FT_PT (in_type op)); [apply cp_read_pt_frame |].
  destruct (ft_has FT_FIFO (in_type op)); [apply cp_read_fifo_frame |].
  destruct (ft_has FT_TAPE (in_type op)); [apply cp_read_tape_frame |].
  apply cp_read_block_reg_frame.
Qed.

Lemma write_loop_frame s fifo numbytes n :
  forall off op w res e off' op' w',
  write_loop env n s fifo numbytes off op w = (res, e, off', op', w') ->
  op_frame op' = op_frame op.
Proof.
  induction n as [| n IH]; intros off op w res e off' op' w' H.
  - open op; open w. cbv beta iota fix delta [write_loop] in H. sx H.
    all: fleaf H.
  - open op; open w. cbv beta iota fix delta [write_loop] in H. sx H.
    all: use IH.
    all: fleaf H.
Qed.

Lemma cp_write_of2_frame op csp w res op' csp' w' :
  cp_write_of2 env op csp w = (res, op', csp', w') ->
  op_frame op' = op_frame op /\ icbpt csp' = icbpt csp.
Proof.
  open op; open csp; open w. intros H.
  cbv beta delta [cp_write_of2] in H. sx H.
  all: use write_loop_frame.
  all: fleaf H.
Qed.

Lemma cp_read_of_pt_frame op csp w res op' csp' w' :
  cp_read_of_pt env op csp w = (res, op', csp', w') ->
  op_frame op' = op_frame op /\ icbpt csp' = icbpt csp.
Proof.
  open op; open csp; open w. intros H.
  cbv beta delta [cp_read_of_pt] in H. sx H.
  all: fleaf H.
Qed.

Lemma cp_read_of_block_reg_frame op csp w res op' csp' w' :
  cp_read_of_block_reg env op csp w = (res, op', csp', w') ->
  op_frame op' = op_frame op /\ icbpt csp' = icbpt csp.
Proof.
  open op; open csp; open w. intros H.
  cbv beta delta [cp_read_of_block_reg] in H. sx H.
  all: fleaf H.
Qed.

Lemma cp_write_pt_frame op csp sd blks w res op' csp' w' :
  cp_write_pt env op csp sd blks w = (res, op', csp', w') ->
  op_frame op' = op_frame op /\ icbpt csp' = icbpt csp.
Proof.
  open op; open csp; open w. intros H.
  cbv beta delta [cp_write_pt] in H. sx H.
  all: fleaf H.
Qed.

Lemma cp_write_result_frame res e numbytes blks obs op csp r op' csp' :
  cp_write_result res e numbytes blks obs op csp = (r, op', csp') ->
  op_frame op' = op_frame op /\ icbpt csp' = icbpt csp.
Proof.
  open op; open csp. intros H.
  cbv beta delta [cp_write_result] in H. sx H.
  all: fleaf H.
Qed.

Lemma cp_write_tape_frame op csp w res op' csp' w' :
  cp_write_tape env op csp w = (res, op', csp', w') ->
  op_frame op' = op_frame op /\ icbpt csp' = icbpt csp.
Proof.
  open op; open csp; open w. intros H.
  cbv beta delta [cp_write_tape] in H. sx H.
  all: use cp_write_result_frame.
  all: fleaf H.
Qed.

Lemma cp_write_block_reg_frame op csp sd blks w res op' csp' w' :
  cp_write_block_reg env op csp sd blks w = (res, op', csp', w') ->
  op_frame op' = op_frame op /\ icbpt csp' = icbpt csp.
Proof.
  open op; open csp; open w. intros H.
  cbv beta delta [cp_write_block_reg] in H. sx H.
  all: use write_loop_frame; use cp_write_result_frame.
  all: fleaf H.
Qed.

Lemma finer_write_frame op csp sd blks w res op' csp' w' :
  finer_write env op csp sd blks w = (res, op', csp', w') ->
  op_frame op' = op_frame op /\ icbpt csp' = icbpt csp.
Proof.
  unfold finer_write.
  destruct (ft_has FT_DEV_NULL (out_type op)).
  - intros H. injection H as <- <- <- <-. split; reflexivity.
  - destruct (ft_has FT_PT (out_type op));
      [apply cp_write_pt_frame | apply cp_write_block_reg_frame].
Qed.

Lemma finer_trim_frame op obs tr_len tr_k w op' w' :
  finer_trim env op obs tr_len tr_k w = (op', w') -> op_frame op' = op_frame op.
Proof.
  open op; open w. intros H. cbv beta delta [finer_trim] in H. sx H.
  all: fleaf H.
Qed.

Lemma finer_loop_frame b2p tc obs numbytes chunk n :
  forall k fr op csp w ret fr' op' csp' w',
  finer_loop env n b2p tc obs numbytes chunk k fr op csp w
    = (ret, fr', op', csp', w') ->
  op_frame op' = op_frame op /\ icbpt csp' = icbpt csp.
Proof.
  induction n as [| n IH]; intros k fr op csp w ret fr' op' csp' w' H.
  - change (finer_loop env 0 b2p tc obs numbytes chunk k fr op csp w)
      with (if negb (k <? numbytes) then (@None Z, fr, op, csp, w)
            else (@None Z, fr, op, csp, w)) in H.
    destruct (negb (k <? numbytes)); injection H as <- <- <- <- <-; split;
      reflexivity.
  - change (finer_loop env (S n) b2p tc obs numbytes chunk k fr op csp w)
      with (if negb (k <? numbytes) then (@None Z, fr, op, csp, w)
            else finer_step env (finer_loop env n b2p tc obs numbytes chunk)
                   b2p tc obs numbytes chunk k fr op csp w) in H.
    destruct (negb (k <? numbytes));
      [injection H as <- <- <- <- <-; split; reflexivity |].
    open op; open csp; open w; open fr.
    cbv beta delta [finer_step] in H. sx H.
    all: use finer_write_frame; use finer_trim_frame.
    all: use IH.
    all: fleaf H.
Qed.

Lemma cp_finer_comp_wr_frame op csp b2p w res op' csp' w' :
  cp_finer_comp_wr env op csp b2p w = (res, op', csp', w') ->
  op_frame op' = op_frame op /\ icbpt csp' = icbpt csp.
Proof.
  intros H. open op; open csp; open w.
  cbv beta delta [cp_finer_comp_wr] in H. sx H.
  all: use finer_loop_frame; use finer_write_frame; use finer_trim_frame.
  all: fleaf H.
Qed.

Lemma cp_sparse_cleanup_frame op csp w op' csp' w' :
  cp_sparse_cleanup env op csp w = (op', csp', w') -> op_frame op' = op_frame op.
Proof.
  intros H. open op; open csp; open w.
  cbv beta delta [cp_sparse_cleanup] in H. sx H.
  all: use cp_write_block_reg_frame.
  all: fleaf H.
Qed.

Lemma cp_sparse_frame op csp w ex op' csp' w' :
  cp_sparse env op csp w = (ex, op', csp', w') ->
  op_frame op' = op_frame op /\ icbpt csp' = icbpt csp.
Proof.
  intros H. open op; open csp; open w.
  cbv beta delta [cp_sparse] in H. sx H.
  all: use cp_finer_comp_wr_frame.
  all: fleaf H.
Qed.

Lemma cp_sparing_frame s op csp w ex op' csp' w' :
  cp_sparing env s op csp w = (ex, op', csp', w') ->
  op_frame op' = op_frame op /\ icbpt csp' = icbpt csp.
Proof.
  intros H. open op; open csp; open w.
  cbv beta delta [cp_sparing] in H. sx H.
  all: use cp_read_of_pt_frame; use cp_read_of_block_reg_frame.
  all: use cp_finer_comp_wr_frame.
  all: fleaf H.
Qed.

Lemma cp_compare_frame op csp w ex op' csp' w' :
  cp_compare env op csp w = (ex, op', csp', w') ->
  op_frame op' = op_frame op /\ icbpt csp' = icbpt csp.
Proof.
  intros H. open op; open csp; open w.
  cbv beta delta [cp_compare cp_tests] in H. sx H.
  all: use cp_write_of2_frame; use cp_sparse_frame; use cp_sparing_frame.
  all: fleaf H.
Qed.

Lemma cp_to_write_frame cr ibpt obpt op csp w st op' csp' w' :
  cp_to_write env cr ibpt obpt op csp w = (st, op', csp', w') ->
  op_frame op' = op_frame op.
Proof.
  intros H. cbv beta delta [cp_to_write] in H.
  remember (cp_plan cr ibpt obpt op csp) as csp0 eqn:E. clear E.
  open op; open csp0; open w. sx H.
  all: use cp_read_frame; use cp_compare_frame.
  all: fleaf H.
Qed.

Lemma cp_write_frame a b op csp w res op' csp' w' :
  cp_write env a b op csp w = (res, op', csp', w') ->
  op_frame op' = op_frame op /\ icbpt csp' = icbpt csp.
Proof.
  intros H. open op; open csp; open w.
  cbv beta delta [cp_write] in H. sx H.
  all: use cp_write_pt_frame; use cp_write_tape_frame; use cp_write_block_reg_frame.
  all: fleaf H.
Qed.

Lemma do_fadvise_frame op a b c w op' w' :
  do_fadvise env op a b c w = (op', w') -> op_frame op' = op_frame op.
Proof.
  intros H. open op; open w. unfold do_fadvise, sys in H. split_conds H.
  all: injection H as <- <-; reflexivity.
Qed.

Lemma cp_construct_pt_zero_buff_frame op obpt w res op' w' :
  cp_construct_pt_zero_buff env op obpt w = (res, op', w') ->
  op_frame op' = op_frame op.
Proof.
  intros H. open op; open w. cbv beta delta [cp_construct_pt_zero_buff] in H. sx H.
  all: fleaf H.
Qed.

Lemma do_copy_finish_frame op csp w op' w' :
  do_copy_finish env op csp w = (op', w') -> op_frame op' = op_frame op.
Proof.
  intros H. open op; open csp; open w.
  cbv beta delta [do_copy_finish] in H. sx H.
  all: use cp_sparse_cleanup_frame.
  all: fleaf H.
Qed.

Lemma do_copy_end_frame op w op' w' :
  do_copy_end env op w = (op', w') -> op_frame op' = op_frame op.
Proof.
  intros H. open op; open w. cbv beta delta [do_copy_end] in H. sx H.
  all: fleaf H.
Qed.

End Frame.

Lemma to_int64_congr (a b : Z) :
  a mod 2 ^ 64 = b mod 2 ^ 64 -> to_int64 a = to_int64 b.
Proof.
  unfold to_int64, wrap. intros E.
  rewrite (Z.add_mod a), (Z.add_mod b), E by lia. reflexivity.
Qed.

Lemma to_int64_mod (a : Z) : to_int64 a mod 2 ^ 64 = a mod 2 ^ 64.
Proof.
  unfold to_int64, wrap.
  rewrite Zminus_mod, Z.mod_mod, <- Zminus_mod by lia.
  f_equal. lia.
Qed.

Lemma to_int64_moved (a b i : Z) :
  to_int64 (to_int64 (a + i) + to_int64 (b - i)) = to_int64 (a + b).
Proof.
  apply to_int64_congr.
  rewrite Z.add_mod, !to_int64_mod, <- Z.add_mod by lia.
  f_equal. lia.
Qed.

Lemma op_frame_eq (a b : opts_t) :
  op_frame a = op_frame b ->
  op_given a = op_given b /\ skip a = skip b /\ seek a = seek b /\
  dd_count a = dd_count b.
Proof.
  unfold op_frame, op_pos. intros E.
  pose proof (f_equal fst E) as E1. pose proof (f_equal snd E) as E2.
  cbn [fst snd] in E1, E2.
  pose proof (f_equal (fun p => fst (fst p)) E2).
  pose proof (f_equal (fun p => snd (fst p)) E2).
  pose proof (f_equal snd E2). cbn [fst snd] in *. auto.
Qed.

Lemma op_given_fields (a b : opts_t) :
  op_given a = op_given b ->
  ibs a = ibs b /\ obs a = obs b /\ ibs_pi a = ibs_pi b /\ obs_pi a = obs_pi b /\
  bpt_i a = bpt_i b /\ iflagp a = iflagp b /\ oflagp a = oflagp b /\
  in_type a = in_type b /\ out_type a = out_type b /\ out2fd a = out2fd b.
Proof.
  destruct a, b. unfold op_given. cbn. intros E. injection E. intros. subst.
  repeat split; reflexivity.
Qed.

Section Position.

Context {h : ddpt_h} (env : environment).

Lemma cp_bypass_write_moved op csp w ex op' csp' w' :
  cp_bypass_write env op csp w = (ex, op', csp', w') ->
  op_given op' = op_given op /\
  (0 < dd_count op ->
   to_int64 (skip op' + dd_count op') = to_int64 (skip op + dd_count op)).
Proof.
  intros H. open op; open csp; open w. cbv beta delta [cp_bypass_write] in H. sx H.
  all: use do_fadvise_frame.
  all: norm H; split_conds H; try discriminate H;
    try (injection H; clear H; intros; subst).
  all: open_states; unfold op_frame, op_given, op_pos in *; cbn in *.
  all: repeat match goal with E : (_, _) = (_, _) |- _ => injection E as ? ? end.
  all: subst; split; [reflexivity | intros Hpos].
  all: try apply to_int64_moved.
  all: exfalso; bools; lia.
Qed.

Lemma cp_from_write_moved a b op csp w ex op' csp' w' :
  cp_from_write env a b op csp w = (ex, op', csp', w') ->
  op_given op' = op_given op /\
  (0 < dd_count op ->
   to_int64 (skip op' + dd_count op') = to_int64 (skip op + dd_count op)).
Proof.
  intros H. open op; open csp; open w.
  cbv beta delta [cp_from_write] in H. sx H.
  all: use cp_write_frame; use cp_bypass_write_moved.
  all: fleaf H.
Qed.

Lemma do_copy_iter_moved cr ibpt obpt op csp w ex op' csp' w' :
  do_copy_iter env cr ibpt obpt op csp w = (ex, op', csp', w') ->
  op_given op' = op_given op /\
  (0 < dd_count op ->
   to_int64 (skip op' + dd_count op') = to_int64 (skip op + dd_count op)).
Proof.
  intros H. open op; open csp; open w.
  cbv beta delta [do_copy_iter] in H. sx H.
  all: use cp_to_write_frame; use cp_bypass_write_moved; use cp_from_write_moved.
  all: fleaf H.
Qed.

Lemma do_copy_loop_given cr ibpt obpt fuel :
  forall op csp w ex op' csp' w',
  do_copy_loop env fuel cr ibpt obpt op csp w = (ex, op', csp', w') ->
  op_given op' = op_given op /\
  (cr = false ->
   to_int64 (skip op' + dd_count op') = to_int64 (skip op + dd_count op)).
Proof.
  induction fuel as [| fuel IH]; intros op csp w ex op' csp' w' H.
  - change (do_copy_loop env 0 cr ibpt obpt op csp w)
      with (if (0 <? dd_count op) || cr then (LoopFuel, op, csp, w)
            else (LoopReturn 0, op, csp, w)) in H.
    destruct ((0 <? dd_count op) || cr); injection H as <- <- <- <-; split;
      reflexivity.
  - change (do_copy_loop env (S fuel) cr ibpt obpt op csp w)
      with (if (0 <? dd_count op) || cr then
              let '(ex, op, csp, w) := do_copy_iter env cr ibpt obpt op csp w in
              match ex with
              | Continue => do_copy_loop env fuel cr ibpt obpt op csp w
              | Break ret => (LoopReturn ret, op, csp, w)
              | Killed sig => (LoopKilled sig, op, csp, w)
              end
            else (LoopReturn 0, op, csp, w)) in H.
    destruct ((0 <? dd_count op) || cr) eqn:G;
      [| injection H as <- <- <- <-; split; reflexivity].
    destruct (do_copy_iter env cr ibpt obpt op csp w) as [[[e1 op1] csp1] w1] eqn:E1.
    apply do_copy_iter_moved in E1. destruct E1 as [G1 P1].
    assert (P1' : cr = false ->
              to_int64 (skip op1 + dd_count op1) = to_int64 (skip op + dd_count op)).
    { intros ->. rewrite orb_false_r in G. apply P1. now apply Z.ltb_lt. }
    destruct e1.
    + apply IH in H. destruct H as [G2 P2]. split; [congruence |].
      intros Hc. rewrite (P2 Hc). exact (P1' Hc).
    + injection H as <- <- <- <-. split; assumption.
    + injection H as <- <- <- <-. split; assumption.
Qed.

Lemma do_copy_given fuel op w ex op' w' :
  do_copy env fuel op w = (ex, op', w') ->
  op_given op' = op_given op /\
  (0 <= dd_count op ->
   to_int64 (skip op' + dd_count op') = to_int64 (skip op + dd_count op)).
Proof.
  intros H. unfold do_copy in H.
  destruct ((dd_count op <=? 0) && negb (nz (reading_fifo op))) eqn:G0.
  { injection H as <- <- <-. split; reflexivity. }
  assert (Hcr : 0 <= dd_count op ->
                nz (reading_fifo op) && (dd_count op <? 0) = false).
  { intros Hd. apply andb_false_iff. right. apply Z.ltb_ge. exact Hd. }
  revert H Hcr.
  generalize (nz (reading_fifo op) && (dd_count op <? 0)) as cr. intros cr H Hcr.
  destruct (cp_construct_pt_zero_buff env op
              (Z.quot (to_int (ibs op * bpt_i op)) (obs op)) w)
    as [[r0 op0] w0] eqn:E0.
  apply cp_construct_pt_zero_buff_frame, op_frame_eq in E0.
  destruct E0 as (A0 & B0 & _ & D0).
  destruct (nz r0).
  - destruct (do_copy_end env op0 w0) as [op1 w1] eqn:E1.
    apply do_copy_end_frame, op_frame_eq in E1. destruct E1 as (A1 & B1 & _ & D1).
    injection H as <- <- <-. split; intros; congruence.
  - destruct (do_copy_loop env fuel cr (bpt_i op) _ op0 cp_state_zero w0)
      as [[[e1 op1] csp1] w1] eqn:E1.
    apply do_copy_loop_given in E1. destruct E1 as [G1 P1].
    destruct e1.
    + destruct (do_copy_finish env op1 csp1 w1) as [op2 w2] eqn:E2.
      apply do_copy_finish_frame, op_frame_eq in E2.
      destruct E2 as (A2 & B2 & _ & D2).
      destruct (do_copy_end env op2 w2) as [op3 w3] eqn:E3.
      apply do_copy_end_frame, op_frame_eq in E3.
      destruct E3 as (A3 & B3 & _ & D3).
      injection H as <- <- <-.
      split; [congruence |]. intros Hd.
      rewrite B3, B2, D3, D2, (P1 (Hcr Hd)), B0, D0. reflexivity.
    + injection H as <- <- <-.
      split; [congruence |]. intros Hd. rewrite (P1 (Hcr Hd)), B0, D0. reflexivity.
    + injection H as <- <- <-.
      split; [congruence |]. intros Hd. rewrite (P1 (Hcr Hd)), B0, D0. reflexivity.
Qed.

(** X1: whatever the environment answers and however the copy ends,
    [do_copy] hands back the options it was given: block sizes, [bpt],
    names, flags, file types, descriptors, protection settings and
    [coe_limit] are those of the call. *)
Theorem do_copy_keeps_options (fuel : nat) (op : opts_t) (w : world) :
  op_given (snd (fst (do_copy env fuel op w))) = op_given op.
Proof.
  destruct (do_copy env fuel op w) as [[ex op'] w'] eqn:H.
  apply do_copy_given in H. exact (proj1 H).
Qed.

(** X2: when the count is known ([dd_count >= 0]), the block at which the
    copy is to end, [skip + dd_count] (as a 64-bit integer), is the same
    after [do_copy] as before, whatever was read, whatever failed and
    however the loop was left: [skip] advances by exactly what [dd_count]
    loses. *)
Theorem copy_position_conserved (fuel : nat) (op : opts_t) (w : world) :
  0 <= dd_count op ->
  to_int64 (skip (snd (fst (do_copy env fuel op w)))
            + dd_count (snd (fst (do_copy env fuel op w))))
  = to_int64 (skip op + dd_count op).
Proof.
  intros Hd. destruct (do_copy env fuel op w) as [[ex op'] w'] eqn:H.
  apply do_copy_given in H. exact (proj2 H Hd).
Qed.

End Position.

(** X2, witness: the copy of [run_coe], which ends early with a medium
    error after four of its six blocks. *)
Lemma copy_position_conserved_witness :
  skip (snd (fst run_coe)) = 4 /\ dd_count (snd (fst run_coe)) = 2 /\
  to_int64 (skip (snd (fst run_coe)) + dd_count (snd (fst run_coe)))
  = to_int64 (skip op_coe + dd_count op_coe).
Proof.
  split; [vm_compute; reflexivity |]. split; [vm_compute; reflexivity |].
  apply (copy_position_conserved (h := linux_h) env_coe 10 op_coe world0).
  vm_compute. discriminate.
Defined.

Arguments bytes_in : simpl never.

Arguments bytes_out : simpl never.

Arguments op_tally : simpl never.

(** Arithmetic that stays within [int] is taken out of [to_int]. *)
Ltac ints :=
  rewrite ?Z.sub_0_r, ?Z.add_0_r in *;
  repeat match goal with
  | |- context [to_int ?x] =>
      rewrite (to_int_small x) by (unfold INT_MIN, INT_MAX in *; lia)
  | H : context [to_int ?x] |- _ =>
      rewrite (to_int_small x) in H by (unfold INT_MIN, INT_MAX in *; lia)
  end.

Section Plain.

Context {h : ddpt_h} (Hok : ddpt_h_ok h) (env : environment).

Hypothesis Hsig : forall t, rv (env Signals t) = 0.

Hypothesis Hread : forall n t, rv (env (Read IFILE n) t) = n.

Hypothesis Hwrite : forall n t, rv (env (Write OFILE n) t) = n.

Hypothesis Hseek : forall s off t, 0 <= rv (env (Lseek s off) t).

Ltac seeks :=
  repeat match goal with
  | H : context [rv (env (Lseek ?s ?o) ?t)] |- _ =>
      lazymatch goal with
      | _ : 0 <= rv (env (Lseek s o) t) |- _ => fail
      | _ => pose proof (Hseek s o t)
      end
  end.

(** The tests of a file type that the copy makes, decided for a regular
    file. *)
Ltac regular :=
  pose proof (ft_has_false _ _ (ft_reg_pt h Hok));
  pose proof (ft_has_false _ _ (ft_reg_fifo h Hok));
  pose proof (ft_has_false _ _ (ft_reg_tape h Hok));
  pose proof (ft_has_false _ _ (ft_reg_block h Hok));
  pose proof (ft_has_false _ _ (ft_reg_dev_null h Hok));
  pose proof (ft_has_true _ _ (ft_reg_bit h Hok)).

Ltac answers := rewrite ?Hsig, ?Hread, ?Hwrite in *; seeks.

Lemma cp_read_block_reg_full op csp w res op' csp' w' :
  0 <= icbpt csp * ibs_pi op <= INT_MAX ->
  cp_read_block_reg env op csp w = (res, op', csp', w') ->
  res = 0 /\
  op_tally op' = (to_int64 (in_full op + icbpt csp), in_partial op,
                  out_full op, out_partial op) /\
  (icbpt csp', ocbpt csp', leave_after_write csp', partial_write_bytes csp')
  = (icbpt csp, ocbpt csp, leave_after_write csp, partial_write_bytes csp) /\
  bytes_in (log w') = bytes_in (log w) + icbpt csp * ibs_pi op /\
  bytes_out (log w') = bytes_out (log w).
Proof.
  open op; open csp; open w. cbn. intros Hn H.
  cbv beta delta [cp_read_block_reg] in H.
  sx H.
  all: ints; answers; bools; try lia.
  all: injection H as <- <- <- <-; unfold op_tally, bytes_in, bytes_out; cbn;
    repeat split; try reflexivity; try lia.
Qed.

Lemma write_loop_once n s fifo numbytes off op w :
  fifo = false ->
  write_loop env n s fifo numbytes off op w =
  (rv (env (Write s (to_int (numbytes - off))) (tick w)),
   err (env (Write s (to_int (numbytes - off))) (tick w)), off,
   add_intr (env (Write s (to_int (numbytes - off))) (tick w)) op,
   snd (sys env (Write s (to_int (numbytes - off))) w)).
Proof. intros ->. destruct n; reflexivity. Qed.

Lemma cp_write_block_reg_full op csp sd blks w res op' csp' w' :
  out_type op = FT_REG -> nowrite (oflagp op) = 0 ->
  partial_write_bytes csp = 0 ->
  0 < blks * obs_pi op <= INT_MAX ->
  cp_write_block_reg env op csp sd blks w = (res, op', csp', w') ->
  res = 0 /\
  op_tally op' = (in_full op, in_partial op, to_int64 (out_full op + blks),
                  out_partial op) /\
  (icbpt csp', ocbpt csp', leave_after_write csp', partial_write_bytes csp')
  = (icbpt csp, ocbpt csp, leave_after_write csp, partial_write_bytes csp) /\
  bytes_in (log w') = bytes_in (log w) /\
  bytes_out (log w') = bytes_out (log w) + blks * obs_pi op.
Proof.
  open op; open oflagp; open csp; open w. cbn. intros -> Hnw Hpw Hn H. regular.
  apply Z.eqb_eq in Hnw. assert (Hpw' : (0 <? partial_write_bytes) = false)
    by (apply Z.ltb_ge; lia).
  cbv beta delta [cp_write_block_reg cp_write_result] in H.
  sx H.
  all: orient.
  all: try match goal with
    | Hp : write_loop _ _ _ _ _ _ _ _ = _ |- _ =>
        rewrite write_loop_once in Hp by reflexivity; norm Hp;
        injection Hp; clear Hp; intros; subst
    end.
  all: ints; answers; bools; try lia.
  all: injection H as <- <- <- <-; unfold op_tally, bytes_in, bytes_out; cbn;
    repeat split; try reflexivity; try lia.
Qed.

End Plain.

Section PlainCopy.

Context {h : ddpt_h} (Hok : ddpt_h_ok h) (env : environment).

Hypothesis Hsig : forall t, rv (env Signals t) = 0.

Hypothesis Hread : forall n t, rv (env (Read IFILE n) t) = n.

Hypothesis Hwrite : forall n t, rv (env (Write OFILE n) t) = n.

Hypothesis Hseek : forall s off t, 0 <= rv (env (Lseek s off) t).

Lemma plain_given (a b : opts_t) : op_given a = op_given b -> plain b -> plain a.
Proof.
  intros E. apply op_given_fields in E.
  destruct E as (E1 & E2 & E3 & E4 & E5 & E6 & E7 & E8 & E9 & E10).
  unfold plain. rewrite E1, E2, E3, E4, E5, E7, E8, E9, E10. exact (fun x => x).
Qed.

Lemma cp_plan_plain op csp :
  plain op -> 0 < dd_count op -> (dd_count op * ibs op) mod obs op = 0 ->
  forall csp0,
  csp0 = cp_plan false (bpt_i op) (Z.quot (to_int (ibs op * bpt_i op)) (obs op))
           op csp ->
  icbpt csp0 = Z.min (bpt_i op) (dd_count op) /\
  ocbpt csp0 = Z.min (bpt_i op) (dd_count op) * ibs op / obs op /\
  leave_after_write csp0 = leave_after_write csp /\
  partial_write_bytes csp0 = partial_write_bytes csp.
Proof.
  intros (_ & _ & _ & _ & _ & _ & _ & _ & Hi & Ho & Hb & Hm & Hd) Hc Hl csp0 ->.
  destruct (cp_plan_kept false (bpt_i op) (Z.quot (to_int (ibs op * bpt_i op)) (obs op))
              op csp) as [K1 K2].
  rewrite K1, K2.
  destruct (Z.leb_spec (bpt_i op) (dd_count op)) as [Hle | Hlt].
  - destruct (cp_plan_full false (bpt_i op)
                (Z.quot (to_int (ibs op * bpt_i op)) (obs op)) op csp) as [F1 F2].
    { rewrite orb_false_r. apply Z.leb_le. exact Hle. }
    rewrite F1, F2, Z.min_l by exact Hle.
    rewrite to_int_small by (unfold INT_MIN, INT_MAX in *; nia).
    rewrite Z.quot_div_nonneg by nia. rewrite (Z.mul_comm (bpt_i op)).
    repeat split.
  - destruct (cp_plan_last false (bpt_i op)
                (Z.quot (to_int (ibs op * bpt_i op)) (obs op)) op csp) as [L1 L2].
    { rewrite orb_false_r. apply Z.leb_gt. exact Hlt. }
    rewrite L1, L2, Z.min_r by lia.
    rewrite (to_int_small (dd_count op)) by (unfold INT_MIN, INT_MAX in *; nia).
    rewrite to_int_small by (unfold INT_MIN, INT_MAX in *; nia).
    rewrite Z.rem_mod_nonneg, Hl by nia. change (nz 0) with false. cbv iota.
    rewrite Z.quot_div_nonneg by nia. repeat split.
Qed.

Lemma process_signals_none w :
  process_signals env w = (0, snd (sys env Signals w)).
Proof. unfold process_signals, sys. cbn. rewrite Hsig. reflexivity. Qed.

Lemma bytes_signals w :
  bytes_in (log (snd (sys env Signals w))) = bytes_in (log w) /\
  bytes_out (log (snd (sys env Signals w))) = bytes_out (log w).
Proof. split; reflexivity. Qed.

Lemma cp_compare_plain op csp w :
  plain op -> cp_compare env op csp w = (ToWrite false false, op, csp, w).
Proof.
  intros (_ & _ & H2 & Hs & Hg & _).
  unfold cp_compare.
  destruct (Z.leb_spec 0 (out2fd op)) as [? | _]; [lia |].
  unfold cp_tests, cp_sparse. rewrite Hs. change (nz 0) with false. cbv iota beta.
  unfold cp_sparing. rewrite Hg. reflexivity.
Qed.

Lemma cp_read_plain op csp w :
  plain op -> cp_read env op csp w = cp_read_block_reg env op csp w.
Proof.
  intros (Hi & _). unfold cp_read. rewrite Hi.
  rewrite (ft_reg_pt h Hok), (ft_reg_fifo h Hok), (ft_reg_tape h Hok). reflexivity.
Qed.

Lemma cp_write_plain op csp w :
  plain op ->
  cp_write env false false op csp w = cp_write_block_reg env op csp 0 (ocbpt csp) w.
Proof.
  intros (_ & Ho & _). unfold cp_write. cbn [orb]. rewrite Ho.
  rewrite (ft_reg_pt h Hok), (ft_reg_dev_null h Hok), (ft_reg_tape h Hok). reflexivity.
Qed.

Lemma do_fadvise_tally op a b c w op' w' :
  do_fadvise env op a b c w = (op', w') ->
  op_tally op' = op_tally op /\ bytes_in (log w') = bytes_in (log w) /\
  bytes_out (log w') = bytes_out (log w).
Proof.
  intros H. open op; open w. unfold do_fadvise, sys in H. split_conds H.
  all: injection H as <- <-; repeat split.
Qed.

Lemma cp_bypass_write_plain op csp w ex op' csp' w' :
  leave_after_write csp = 0 -> 0 < dd_count op ->
  cp_bypass_write env op csp w = (ex, op', csp', w') ->
  ex = Continue /\ csp' = csp /\ op_given op' = op_given op /\
  op_pos op' = (to_int64 (skip op + icbpt csp), to_int64 (seek op + ocbpt csp),
                to_int64 (dd_count op - icbpt csp)) /\
  op_tally op' = op_tally op /\ bytes_in (log w') = bytes_in (log w) /\
  bytes_out (log w') = bytes_out (log w).
Proof.
  intros Hl Hd H. unfold cp_bypass_write in H.
  destruct (do_fadvise env op (bytes_read csp) (bytes_of csp) (bytes_of2 csp) w)
    as [op1 w1] eqn:E.
  pose proof (do_fadvise_tally _ _ _ _ _ _ _ E) as (T1 & T2 & T3).
  apply do_fadvise_frame, op_frame_eq in E. destruct E as (G & S1 & S2 & S3).
  rewrite Hl in H. change (nz 0) with false in H. cbv iota in H.
  destruct (Z.ltb_spec 0 (dd_count op1)) as [_ | ?]; [| lia].
  injection H as <- <- <- <-.
  open op1. unfold op_given, op_pos, op_tally in *. cbn in *. subst.
  repeat split; try reflexivity; try assumption.
Qed.

Lemma chunk_bytes op :
  plain op -> 0 < dd_count op -> (dd_count op * ibs op) mod obs op = 0 ->
  0 < Z.min (bpt_i op) (dd_count op) <= bpt_i op /\
  Z.min (bpt_i op) (dd_count op) <= dd_count op /\
  Z.min (bpt_i op) (dd_count op) * ibs op / obs op * obs op
  = Z.min (bpt_i op) (dd_count op) * ibs op /\
  0 < Z.min (bpt_i op) (dd_count op) * ibs op <= INT_MAX /\
  ((dd_count op - Z.min (bpt_i op) (dd_count op)) * ibs op) mod obs op = 0.
Proof.
  intros (_ & _ & _ & _ & _ & _ & _ & _ & Hi & Ho & Hb & Hm & Hd) Hc Hl.
  assert (Hx : (Z.min (bpt_i op) (dd_count op) * ibs op) mod obs op = 0).
  { destruct (Z.min_spec (bpt_i op) (dd_count op)) as [[_ ->] | [_ ->]];
      [rewrite Z.mul_comm |]; assumption. }
  repeat split; try lia; try nia.
  - pose proof (Z.div_exact (Z.min (bpt_i op) (dd_count op) * ibs op) (obs op)). lia.
  - rewrite Z.mul_sub_distr_r, Zminus_mod, Hl, Hx. reflexivity.
Qed.

Lemma do_copy_iter_plain op csp w ex op1 csp1 w1 :
  plain op -> 0 < dd_count op -> (dd_count op * ibs op) mod obs op = 0 ->
  leave_after_write csp = 0 -> partial_write_bytes csp = 0 ->
  do_copy_iter env false (bpt_i op) (Z.quot (to_int (ibs op * bpt_i op)) (obs op))
    op csp w = (ex, op1, csp1, w1) ->
  ex = Continue /\ op_given op1 = op_given op /\
  op_pos op1 =
    (to_int64 (skip op + Z.min (bpt_i op) (dd_count op)),
     to_int64 (seek op + Z.min (bpt_i op) (dd_count op) * ibs op / obs op),
     to_int64 (dd_count op - Z.min (bpt_i op) (dd_count op))) /\
  op_tally op1 =
    (to_int64 (in_full op + Z.min (bpt_i op) (dd_count op)), in_partial op,
     to_int64 (out_full op + Z.min (bpt_i op) (dd_count op) * ibs op / obs op),
     out_partial op) /\
  leave_after_write csp1 = 0 /\ partial_write_bytes csp1 = 0 /\
  bytes_in (log w1) = bytes_in (log w) + Z.min (bpt_i op) (dd_count op) * ibs op /\
  bytes_out (log w1) = bytes_out (log w) + Z.min (bpt_i op) (dd_count op) * ibs op.
Proof.
  intros Hp Hd Hm Hl Hw H.
  pose proof (chunk_bytes op Hp Hd Hm) as (Hc1 & Hc2 & Hc3 & Hc4 & _).
  set (c := Z.min (bpt_i op) (dd_count op)) in *.
  unfold do_copy_iter, cp_to_write in H.
  remember (cp_plan false (bpt_i op) (Z.quot (to_int (ibs op * bpt_i op)) (obs op))
              op csp) as csp0 eqn:E0.
  destruct (cp_plan_plain op csp Hp Hd Hm csp0 E0) as (I0 & O0 & L0 & W0).
  fold c in I0, O0. clear E0.
  rewrite process_signals_none in H. change (nz 0) with false in H. cbv iota in H.
  destruct (bytes_signals w) as [Bi1 Bo1].
  set (wa := snd (sys env Signals w)) in *.
  rewrite (cp_read_plain op csp0 wa Hp) in H.
  destruct (cp_read_block_reg env op csp0 wa) as [[[r op2] csp2] w2] eqn:ER.
  pose proof (cp_read_block_reg_frame env _ _ _ _ _ _ _ ER) as F2.
  apply op_frame_eq in F2. destruct F2 as (G2 & S2 & K2 & D2).
  pose proof (plain_given _ _ G2 Hp) as Hp2.
  pose proof Hp as (_ & _ & _ & _ & _ & _ & Hip & Hop & Hi & Ho & _).
  eapply cp_read_block_reg_full in ER; eauto; [| rewrite I0, Hip; lia].
  destruct ER as (-> & T2 & C2 & Bi2 & Bo2).
  injection C2 as C2a C2b C2c C2d.
  change (nz 0) with false in H. cbv iota in H.
  destruct (Z.eqb_spec (icbpt csp2) 0) as [? | _]; [lia |].
  rewrite (cp_compare_plain op2 csp2 w2 Hp2) in H.
  unfold cp_from_write in H.
  rewrite process_signals_none in H. change (nz 0) with false in H. cbv iota in H.
  destruct (bytes_signals w2) as [Bi3 Bo3].
  set (wb := snd (sys env Signals w2)) in *.
  rewrite (cp_write_plain op2 csp2 wb Hp2) in H.
  destruct (cp_write_block_reg env op2 csp2 0 (ocbpt csp2) wb)
    as [[[r op3] csp3] w3] eqn:EW.
  pose proof (cp_write_block_reg_frame env _ _ _ _ _ _ _ _ _ EW) as [F3 _].
  apply op_frame_eq in F3. destruct F3 as (G3 & S3 & K3 & D3).
  pose proof Hp2 as (_ & Hot & _ & _ & _ & Hnw & _ & Hop2 & _).
  pose proof (op_given_fields _ _ G2) as (Ei & Eo & _).
  eapply cp_write_block_reg_full in EW; eauto;
    [| congruence | rewrite C2b, O0, Hop2, Eo, Hc3; lia].
  destruct EW as (-> & T3 & C3 & Bi4 & Bo4).
  injection C3 as C3a C3b C3c C3d.
  change (nz 0) with false in H. cbv iota in H.
  apply cp_bypass_write_plain in H; [| congruence | lia].
  destruct H as (-> & -> & G4 & P4 & T4 & Bi5 & Bo5).
  split; [reflexivity |]. split; [congruence |].
  unfold op_tally in *. injection T2 as ? ? ? ?. injection T3 as ? ? ? ?.
  injection T4 as ? ? ? ?.
  repeat split.
  - rewrite P4, S3, S2, K3, K2, D3, D2, C3a, C3b, C2a, C2b, I0, O0. reflexivity.
  - congruence.
  - congruence.
  - congruence.
  - rewrite Bi5, Bi4, Bi3, Bi2, Bi1, I0, Hip. reflexivity.
  - rewrite Bo5, Bo4, Bo3, Bo2, Bo1, C2b, O0, Hop2, Eo, Hc3. reflexivity.
Qed.

Lemma do_copy_loop_plain fuel :
  forall op csp w ex op' csp' w',
  plain op -> roomy op -> (dd_count op * ibs op) mod obs op = 0 ->
  leave_after_write csp = 0 -> partial_write_bytes csp = 0 ->
  (Z.to_nat (dd_count op) <= fuel)%nat ->
  do_copy_loop env fuel false (bpt_i op)
    (Z.quot (to_int (ibs op * bpt_i op)) (obs op)) op csp w = (ex, op', csp', w') ->
  ex = LoopReturn 0 /\ op_given op' = op_given op /\
  op_pos op' = (skip op + dd_count op, seek op + dd_count op * ibs op / obs op, 0) /\
  op_tally op' = (in_full op + dd_count op, in_partial op,
                  out_full op + dd_count op * ibs op / obs op, out_partial op) /\
  bytes_in (log w') = bytes_in (log w) + dd_count op * ibs op /\
  bytes_out (log w') = bytes_out (log w) + dd_count op * ibs op.
Proof.
  induction fuel as [| fuel IH]; intros op csp w ex op' csp' w' Hp Hr Hm Hl Hw Hf H.
  - assert (Hz : dd_count op = 0) by (destruct Hr; lia).
    change (do_copy_loop env 0 false (bpt_i op)
              (Z.quot (to_int (ibs op * bpt_i op)) (obs op)) op csp w)
      with (if (0 <? dd_count op) || false then (LoopFuel, op, csp, w)
            else (LoopReturn 0, op, csp, w)) in H.
    rewrite Hz in H. injection H as <- <- <- <-.
    unfold op_pos, op_tally. rewrite Hz, Z.mul_0_l, Zdiv_0_l, !Z.add_0_r.
    repeat split.
  - change (do_copy_loop env (S fuel) false (bpt_i op)
              (Z.quot (to_int (ibs op * bpt_i op)) (obs op)) op csp w)
      with (if (0 <? dd_count op) || false then
              let '(ex, op1, csp1, w1) :=
                do_copy_iter env false (bpt_i op)
                  (Z.quot (to_int (ibs op * bpt_i op)) (obs op)) op csp w in
              match ex with
              | Continue =>
                  do_copy_loop env fuel false (bpt_i op)
                    (Z.quot (to_int (ibs op * bpt_i op)) (obs op)) op1 csp1 w1
              | Break ret => (LoopReturn ret, op1, csp1, w1)
              | Killed sig => (LoopKilled sig, op1, csp1, w1)
              end
            else (LoopReturn 0, op, csp, w)) in H.
    rewrite orb_false_r in H.
    destruct (Z.ltb_spec 0 (dd_count op)) as [Hd | Hd].
    + destruct (do_copy_iter env false (bpt_i op)
                  (Z.quot (to_int (ibs op * bpt_i op)) (obs op)) op csp w)
        as [[[e1 op1] csp1] w1] eqn:E1.
      apply do_copy_iter_plain in E1; try assumption.
      destruct E1 as (-> & G1 & P1 & T1 & L1 & W1 & Bi1 & Bo1).
      pose proof (chunk_bytes op Hp Hd Hm) as (Hc1 & Hc2 & Hc3 & Hc4 & Hc5).
      set (c := Z.min (bpt_i op) (dd_count op)) in *.
      pose proof Hp as (_ & _ & _ & _ & _ & _ & _ & _ & Hi & Ho & _).
      destruct Hr as (R0 & R1 & R2 & R3 & R4 & R5 & R6 & R7 & R8).
      assert (Hq : dd_count op * ibs op / obs op
                   = (dd_count op - c) * ibs op / obs op + c * ibs op / obs op).
      { rewrite <- Z.div_add by lia. f_equal. lia. }
      assert (Hq0 : 0 <= c * ibs op / obs op) by (apply Z.div_pos; nia).
      assert (Hq1 : 0 <= (dd_count op - c) * ibs op / obs op)
        by (apply Z.div_pos; nia).
      pose proof (op_given_fields _ _ G1) as (Ei & Eo & _ & _ & Eb & _).
      unfold op_pos, op_tally in P1, T1.
      injection P1 as Ps Pk Pd. injection T1 as Ta Tb Tc Td.
      rewrite to_int64_small in Ps, Pk, Pd, Ta, Tc
        by (unfold INT64_MIN, INT64_MAX in *; lia).
      rewrite <- Eb, <- Ei, <- Eo in H.
      apply IH in H.
      * destruct H as (-> & G2 & P2 & T2 & Bi2 & Bo2).
        split; [reflexivity |]. split; [congruence |].
        rewrite P2, T2, Bi2, Bo2, Bi1, Bo1, Ps, Pk, Pd, Ta, Tb, Tc, Td, Ei, Eo.
        fold c. rewrite Hq.
        repeat split; repeat match goal with |- (_, _) = (_, _) => f_equal end; lia.
      * exact (plain_given _ _ G1 Hp).
      * unfold roomy. rewrite Ps, Pk, Pd, Ta, Tc, Ei, Eo. fold c. lia.
      * rewrite Pd, Ei, Eo. exact Hc5.
      * exact L1.
      * exact W1.
      * rewrite Pd. lia.
    + assert (Hz : dd_count op = 0) by (destruct Hr; lia).
      injection H as <- <- <- <-.
      unfold op_pos, op_tally. rewrite Hz, Z.mul_0_l, Zdiv_0_l, !Z.add_0_r.
      repeat split.
Qed.

Lemma cp_construct_pt_zero_buff_plain op obpt w :
  plain op -> cp_construct_pt_zero_buff env op obpt w = (0, op, w).
Proof.
  intros (Hi & Ho & _ & Hs & _). unfold cp_construct_pt_zero_buff.
  rewrite Hi, (ft_reg_pt h Hok). cbn [andb negb]. cbv iota beta.
  rewrite Ho, (ft_reg_pt h Hok). cbn [andb negb]. cbv iota beta.
  rewrite Hs. reflexivity.
Qed.

Lemma regular_not_special :
  nz (Z.land (Z.lor (Z.lor (Z.lor (Z.lor FT_PT FT_DEV_NULL) FT_FIFO) FT_CHAR)
                FT_TAPE) FT_REG) = false.
Proof.
  pose proof (ft_has_false _ _ (ft_reg_pt h Hok)) as H1.
  pose proof (ft_has_false _ _ (ft_reg_dev_null h Hok)) as H2.
  pose proof (ft_has_false _ _ (ft_reg_fifo h Hok)) as H3.
  pose proof (ft_has_false _ _ (ft_reg_char h Hok)) as H4.
  pose proof (ft_has_false _ _ (ft_reg_tape h Hok)) as H5.
  apply Z.eqb_eq in H1, H2, H3, H4, H5.
  rewrite !Z.land_lor_distr_l, H1, H2, H3, H4, H5. reflexivity.
Qed.

Lemma do_copy_finish_plain op csp w op' w' :
  plain op -> do_copy_finish env op csp w = (op', w') ->
  op' = op /\ bytes_in (log w') = bytes_in (log w) /\
  bytes_out (log w') = bytes_out (log w).
Proof.
  intros (_ & Ho & _ & Hs & _) H. unfold do_copy_finish in H.
  rewrite Ho, Hs in H. change (nz 0) with false in H.
  rewrite andb_false_r in H. cbv iota beta in H.
  rewrite Ho, regular_not_special in H.
  destruct (HAVE_FDATASYNC && nz (fdatasync (oflagp op)));
    [injection H as <- <-; repeat split |].
  destruct (HAVE_FSYNC && nz (fsync (oflagp op)));
    injection H as <- <-; repeat split.
Qed.

Lemma do_copy_end_tally op w op' w' :
  do_copy_end env op w = (op', w') ->
  op_tally op' = op_tally op /\ bytes_in (log w') = bytes_in (log w) /\
  bytes_out (log w') = bytes_out (log w).
Proof.
  intros H. open op; open w. cbv beta delta [do_copy_end] in H. sx H.
  all: norm H; split_conds H; injection H as <- <-.
  all: unfold op_tally, bytes_in, bytes_out; cbn; repeat split; reflexivity.
Qed.


End PlainCopy.


Arguments w_data : simpl never.

Arguments nw_kept : simpl never.

Lemma data_of_output (l : list call) :
  filter is_data_write (filter is_output_write l) = filter is_data_write l.
Proof.
  induction l as [| c l IH]; [reflexivity |].
  destruct c; try match goal with s : side |- _ => destruct s end;
    cbn; rewrite ?IH; reflexivity.
Qed.

Lemma w_kept_data (w w' : world) : w_kept w' = w_kept w -> w_data w' = w_data w.
Proof.
  unfold w_kept, w_data. intros E.
  rewrite <- (data_of_output (log w')), <- (data_of_output (log w)), E. reflexivity.
Qed.

Lemma nw_of_kept (op op' : opts_t) (w w' : world) :
  op_kept op' = op_kept op -> op_frame op' = op_frame op ->
  w_kept w' = w_kept w -> nw_kept op' w' = nw_kept op w.
Proof.
  intros K F W. apply op_frame_eq in F. destruct F as (G & _).
  apply op_given_fields in G. destruct G as (_ & _ & _ & _ & _ & _ & Eo & _).
  unfold op_kept in K. injection K as _ _ Kt Kf.
  unfold nw_kept. rewrite (w_kept_data _ _ W), Eo, Kt, Kf. reflexivity.
Qed.

Ltac nw_done :=
  repeat match goal with H : _ /\ _ |- _ => destruct H end;
  open_states; unfold nw_kept, w_data in *; cbn in *;
  repeat match goal with H : _ /\ _ |- _ => destruct H end;
  try reflexivity; try congruence.

Ltac nwleaf H :=
  norm H; split_conds H; try discriminate H;
  try (injection H; clear H; intros; subst); nw_done.

Ltac nwside :=
  unfold nw_kept, w_data in *; cbn in *;
  first [reflexivity | assumption | congruence].

Ltac nwuse L :=
  orient;
  repeat match goal with
  | Hp : _ = (_, _) |- _ => apply L in Hp; [| solve [nwside] ..]
  end.

Section NoWrite.

Context {h : ddpt_h} (Hok : ddpt_h_ok h) (env : environment).

Lemma cp_read_nw op csp w res op' csp' w' :
  cp_read env op csp w = (res, op', csp', w') -> nw_kept op' w' = nw_kept op w.
Proof.
  intros H. pose proof (cp_read_kept env _ _ _ _ _ _ _ H) as (K & W & _).
  apply cp_read_frame in H. exact (nw_of_kept _ _ _ _ K H W).
Qed.

Lemma cp_write_of2_nw op csp w res op' csp' w' :
  cp_write_of2 env op csp w = (res, op', csp', w') -> nw_kept op' w' = nw_kept op w.
Proof.
  intros H. pose proof (cp_write_of2_kept env _ _ _ _ _ _ _ H) as (K & W & _).
  apply cp_write_of2_frame in H. exact (nw_of_kept _ _ _ _ K (proj1 H) W).
Qed.

Lemma cp_read_of_pt_nw op csp w res op' csp' w' :
  cp_read_of_pt env op csp w = (res, op', csp', w') -> nw_kept op' w' = nw_kept op w.
Proof.
  intros H. pose proof (cp_read_of_pt_kept env _ _ _ _ _ _ _ H) as (K & W & _).
  apply cp_read_of_pt_frame in H. exact (nw_of_kept _ _ _ _ K (proj1 H) W).
Qed.

Lemma cp_read_of_block_reg_nw op csp w res op' csp' w' :
  cp_read_of_block_reg env op csp w = (res, op', csp', w') ->
  nw_kept op' w' = nw_kept op w.
Proof.
  intros H. pose proof (cp_read_of_block_reg_kept env _ _ _ _ _ _ _ H) as (K & W & _).
  apply cp_read_of_block_reg_frame in H. exact (nw_of_kept _ _ _ _ K (proj1 H) W).
Qed.

Lemma cp_bypass_write_nw op csp w ex op' csp' w' :
  cp_bypass_write env op csp w = (ex, op', csp', w') -> nw_kept op' w' = nw_kept op w.
Proof.
  intros H. pose proof (cp_bypass_write_kept env _ _ _ _ _ _ _ H) as (K & W).
  apply cp_bypass_write_moved in H. destruct H as (G & _).
  apply op_given_fields in G. destruct G as (_ & _ & _ & _ & _ & _ & Eo & _).
  unfold op_kept in K. injection K as _ _ Kt Kf.
  unfold nw_kept. rewrite (w_kept_data _ _ W), Eo, Kt, Kf. reflexivity.
Qed.

Lemma cp_construct_pt_zero_buff_nw op obpt w res op' w' :
  cp_construct_pt_zero_buff env op obpt w = (res, op', w') ->
  nw_kept op' w' = nw_kept op w.
Proof.
  intros H. pose proof (cp_construct_pt_zero_buff_kept env _ _ _ _ _ _ H) as (K & W).
  apply cp_construct_pt_zero_buff_frame in H. exact (nw_of_kept _ _ _ _ K H W).
Qed.

Lemma do_copy_end_nw op w op' w' :
  do_copy_end env op w = (op', w') -> nw_kept op' w' = nw_kept op w.
Proof.
  intros H. pose proof (do_copy_end_kept env _ _ _ _ H) as (K & W).
  apply do_copy_end_frame in H. exact (nw_of_kept _ _ _ _ K H W).
Qed.

Lemma cp_write_pt_nw op csp sd blks w res op' csp' w' :
  cp_write_pt env op csp sd blks w = (res, op', csp', w') ->
  nowrite (oflagp op) <> 0 ->
  nw_kept op' w' = nw_kept op w.
Proof.
  intros H Hnw. open op; open oflagp; open csp; open w. cbn in Hnw.
  pose proof (proj2 (Z.eqb_neq _ _) Hnw) as Hb.
  cbv beta delta [cp_write_pt] in H. sx H.
  all: nwleaf H.
Qed.

Lemma cp_write_tape_nw op csp w res op' csp' w' :
  cp_write_tape env op csp w = (res, op', csp', w') ->
  nowrite (oflagp op) <> 0 ->
  nw_kept op' w' = nw_kept op w.
Proof.
  intros H Hnw. open op; open oflagp; open csp; open w. cbn in Hnw.
  pose proof (proj2 (Z.eqb_neq _ _) Hnw) as Hb.
  cbv beta delta [cp_write_tape] in H. sx H.
  all: nwleaf H.
Qed.

Lemma cp_write_block_reg_nw op csp sd blks w res op' csp' w' :
  cp_write_block_reg env op csp sd blks w = (res, op', csp', w') ->
  nowrite (oflagp op) <> 0 ->
  nw_kept op' w' = nw_kept op w.
Proof.
  intros H Hnw. open op; open oflagp; open csp; open w. cbn in Hnw.
  pose proof (proj2 (Z.eqb_neq _ _) Hnw) as Hb.
  cbv beta delta [cp_write_block_reg] in H. sx H.
  all: nwleaf H.
Qed.

Lemma finer_write_nw op csp sd blks w res op' csp' w' :
  finer_write env op csp sd blks w = (res, op', csp', w') ->
  nowrite (oflagp op) <> 0 ->
  nw_kept op' w' = nw_kept op w.
Proof.
  unfold finer_write.
  destruct (ft_has FT_DEV_NULL (out_type op)).
  - intros H _. injection H as <- <- <- <-. reflexivity.
  - destruct (ft_has FT_PT (out_type op));
      [apply cp_write_pt_nw | apply cp_write_block_reg_nw].
Qed.

Lemma finer_trim_nw op obs tr_len tr_k w op' w' :
  finer_trim env op obs tr_len tr_k w = (op', w') -> nw_kept op' w' = nw_kept op w.
Proof.
  open op; open w. intros H. cbv beta delta [finer_trim] in H. sx H.
  all: nwleaf H.
Qed.

Lemma finer_loop_nw b2p tc obs numbytes chunk n :
  forall k fr op csp w ret fr' op' csp' w',
  finer_loop env n b2p tc obs numbytes chunk k fr op csp w
    = (ret, fr', op', csp', w') ->
  nowrite (oflagp op) <> 0 ->
  nw_kept op' w' = nw_kept op w.
Proof.
  induction n as [| n IH]; intros k fr op csp w ret fr' op' csp' w' H Hnw.
  - change (finer_loop env 0 b2p tc obs numbytes chunk k fr op csp w)
      with (if negb (k <? numbytes) then (@None Z, fr, op, csp, w)
            else (@None Z, fr, op, csp, w)) in H.
    destruct (negb (k <? numbytes)); injection H as <- <- <- <- <-; reflexivity.
  - change (finer_loop env (S n) b2p tc obs numbytes chunk k fr op csp w)
      with (if negb (k <? numbytes) then (@None Z, fr, op, csp, w)
            else finer_step env (finer_loop env n b2p tc obs numbytes chunk)
                   b2p tc obs numbytes chunk k fr op csp w) in H.
    destruct (negb (k <? numbytes));
      [injection H as <- <- <- <- <-; reflexivity |].
    open op; open oflagp; open csp; open w; open fr. cbn in Hnw.
    cbv beta delta [finer_step] in H. sx H.
    all: nwuse finer_write_nw; nwuse finer_trim_nw.
    all: split_conds H.
    all: nwuse IH.
    all: nwleaf H.
Qed.

Lemma cp_finer_comp_wr_nw op csp b2p w res op' csp' w' :
  cp_finer_comp_wr env op csp b2p w = (res, op', csp', w') ->
  nowrite (oflagp op) <> 0 ->
  nw_kept op' w' = nw_kept op w.
Proof.
  intros H Hnw. open op; open oflagp; open csp; open w. cbn in Hnw.
  cbv beta delta [cp_finer_comp_wr] in H. sx H.
  all: nwuse finer_loop_nw; nwuse finer_write_nw; nwuse finer_trim_nw.
  all: nwleaf H.
Qed.

Lemma cp_sparse_nw op csp w ex op' csp' w' :
  cp_sparse env op csp w = (ex, op', csp', w') ->
  nowrite (oflagp op) <> 0 ->
  nw_kept op' w' = nw_kept op w.
Proof.
  intros H Hnw. open op; open oflagp; open csp; open w. cbn in Hnw.
  cbv beta delta [cp_sparse] in H. sx H.
  all: nwuse cp_finer_comp_wr_nw.
  all: nwleaf H.
Qed.

Lemma cp_sparing_nw s op csp w ex op' csp' w' :
  cp_sparing env s op csp w = (ex, op', csp', w') ->
  nowrite (oflagp op) <> 0 ->
  nw_kept op' w' = nw_kept op w.
Proof.
  intros H Hnw. open op; open oflagp; open csp; open w. cbn in Hnw.
  cbv beta delta [cp_sparing] in H. sx H.
  all: nwuse cp_read_of_pt_nw; nwuse cp_read_of_block_reg_nw.
  all: nwuse cp_finer_comp_wr_nw.
  all: nwleaf H.
Qed.

Lemma cp_compare_nw op csp w ex op' csp' w' :
  cp_compare env op csp w = (ex, op', csp', w') ->
  nowrite (oflagp op) <> 0 ->
  nw_kept op' w' = nw_kept op w.
Proof.
  intros H Hnw. open op; open oflagp; open csp; open w. cbn in Hnw.
  cbv beta delta [cp_compare cp_tests] in H. sx H.
  all: nwuse cp_write_of2_nw; nwuse cp_sparse_nw; nwuse cp_sparing_nw.
  all: nwleaf H.
Qed.

Lemma cp_to_write_nw cr ibpt obpt op csp w st op' csp' w' :
  cp_to_write env cr ibpt obpt op csp w = (st, op', csp', w') ->
  nowrite (oflagp op) <> 0 ->
  nw_kept op' w' = nw_kept op w.
Proof.
  intros H Hnw. cbv beta delta [cp_to_write] in H.
  remember (cp_plan cr ibpt obpt op csp) as csp0 eqn:E. clear E.
  open op; open oflagp; open csp0; open w. cbn in Hnw. sx H.
  all: nwuse cp_read_nw; nwuse cp_compare_nw.
  all: nwleaf H.
Qed.

Lemma cp_write_nw a b op csp w res op' csp' w' :
  cp_write env a b op csp w = (res, op', csp', w') ->
  nowrite (oflagp op) <> 0 ->
  nw_kept op' w' = nw_kept op w.
Proof.
  intros H Hnw. open op; open oflagp; open csp; open w. cbn in Hnw.
  cbv beta delta [cp_write] in H. sx H.
  all: nwuse cp_write_pt_nw; nwuse cp_write_tape_nw; nwuse cp_write_block_reg_nw.
  all: nwleaf H.
Qed.

Lemma cp_from_write_nw a b op csp w ex op' csp' w' :
  cp_from_write env a b op csp w = (ex, op', csp', w') ->
  nowrite (oflagp op) <> 0 ->
  nw_kept op' w' = nw_kept op w.
Proof.
  intros H Hnw. open op; open oflagp; open csp; open w. cbn in Hnw.
  cbv beta delta [cp_from_write] in H. sx H.
  all: nwuse cp_write_nw; nwuse cp_bypass_write_nw.
  all: nwleaf H.
Qed.

Lemma do_copy_iter_nw cr ibpt obpt op csp w ex op' csp' w' :
  do_copy_iter env cr ibpt obpt op csp w = (ex, op', csp', w') ->
  nowrite (oflagp op) <> 0 ->
  nw_kept op' w' = nw_kept op w.
Proof.
  intros H Hnw. open op; open oflagp; open csp; open w. cbn in Hnw.
  cbv beta delta [do_copy_iter] in H. sx H.
  all: nwuse cp_to_write_nw; nwuse cp_bypass_write_nw; nwuse cp_from_write_nw.
  all: nwleaf H.
Qed.

Lemma do_copy_loop_nw cr ibpt obpt fuel :
  forall op csp w ex op' csp' w',
  do_copy_loop env fuel cr ibpt obpt op csp w = (ex, op', csp', w') ->
  nowrite (oflagp op) <> 0 ->
  nw_kept op' w' = nw_kept op w.
Proof.
  induction fuel as [| fuel IH]; intros op csp w ex op' csp' w' H Hnw.
  - change (do_copy_loop env 0 cr ibpt obpt op csp w)
      with (if (0 <? dd_count op) || cr then (LoopFuel, op, csp, w)
            else (LoopReturn 0, op, csp, w)) in H.
    destruct ((0 <? dd_count op) || cr); injection H as <- <- <- <-; reflexivity.
  - change (do_copy_loop env (S fuel) cr ibpt obpt op csp w)
      with (if (0 <? dd_count op) || cr then
              let '(ex, op, csp, w) := do_copy_iter env cr ibpt obpt op csp w in
              match ex with
              | Continue => do_copy_loop env fuel cr ibpt obpt op csp w
              | Break ret => (LoopReturn ret, op, csp, w)
              | Killed sig => (LoopKilled sig, op, csp, w)
              end
            else (LoopReturn 0, op, csp, w)) in H.
    destruct ((0 <? dd_count op) || cr);
      [| injection H as <- <- <- <-; reflexivity].
    destruct (do_copy_iter env cr ibpt obpt op csp w) as [[[e1 op1] csp1] w1] eqn:E1.
    apply do_copy_iter_nw in E1; [| exact Hnw].
    assert (Hnw1 : nowrite (oflagp op1) <> 0).
    { unfold nw_kept in E1. injection E1 as E1 _ _ _. congruence. }
    destruct e1.
    + apply IH in H; [| exact Hnw1]. congruence.
    + injection H as <- <- <- <-. exact E1.
    + injection H as <- <- <- <-. exact E1.
Qed.

Lemma do_copy_finish_nw op csp w op' w' :
  do_copy_finish env op csp w = (op', w') ->
  nowrite (oflagp op) <> 0 ->
  nw_kept op' w' = nw_kept op w.
Proof.
  intros H Hnw. open op; open oflagp; open csp; open w. cbn in Hnw.
  pose proof (proj2 (Z.eqb_neq _ _) Hnw) as Hb.
  cbv beta delta [do_copy_finish] in H. sx H.
  all: nwleaf H.
Qed.

Lemma do_copy_nw fuel op w ex op' w' :
  do_copy env fuel op w = (ex, op', w') ->
  nowrite (oflagp op) <> 0 ->
  nw_kept op' w' = nw_kept op w.
Proof.
  intros H Hnw. open op; open oflagp; open w. cbn in Hnw.
  cbv beta delta [do_copy] in H. sx H.
  all: nwuse cp_construct_pt_zero_buff_nw; nwuse do_copy_loop_nw;
    nwuse do_copy_finish_nw; nwuse do_copy_end_nw.
  all: nwleaf H.
Qed.

(** X4: with [oflag=nowrite] set, [do_copy] puts no data on the output,
    whatever its type and whatever else is asked for: no [write] on OFILE
    and no pass-through WRITE is made, and [out_full] stays as it was.
    (Trims by WRITE SAME are still sent.) *)
Theorem nowrite_writes_no_data (fuel : nat) (op : opts_t) (w : world) :
  nowrite (oflagp op) <> 0 ->
  out_full (snd (fst (do_copy env fuel op w))) = out_full op /\
  filter is_data_write (log (snd (do_copy env fuel op w)))
  = filter is_data_write (log w).
Proof.
  intros Hnw. destruct (do_copy env fuel op w) as [[ex op'] w'] eqn:H.
  apply do_copy_nw in H; [| exact Hnw].
  unfold nw_kept, w_data in H. injection H as _ H1 _ H2. split; assumption.
Qed.

End NoWrite.

(** X4, witness: the copy of eight blocks between regular files with
    [oflag=nowrite]: the blocks are read, nothing is written. *)
Lemma nowrite_writes_no_data_witness :
  in_full (snd (fst (do_copy (h := linux_h) env_files 8 op_nowrite world0))) = 8 /\
  out_full (snd (fst (do_copy (h := linux_h) env_files 8 op_nowrite world0)))
  = out_full op_nowrite /\
  filter is_data_write
    (log (snd (do_copy (h := linux_h) env_files 8 op_nowrite world0)))
  = filter is_data_write (log world0).
Proof.
  split; [vm_compute; reflexivity |].
  apply (nowrite_writes_no_data (h := linux_h) env_files 8 op_nowrite world0).
  vm_compute. discriminate.
Defined.

Section FifoRead.

Context {h : ddpt_h} (env : environment).

(** A read from the pipe gives at least one byte and at most what was
    asked. *)
Hypothesis Hsome : forall n t, 0 < n -> 0 < rv (env (Read IFILE n) t) <= n.

Lemma fifo_loop_fills numbytes n :
  forall k op csp w ok op' csp' w',
  0 <= k <= numbytes -> numbytes <= INT_MAX ->
  (Z.to_nat (numbytes - k) <= n)%nat ->
  fifo_loop env n numbytes k op csp w = (ok, op', csp', w') ->
  ok = Some numbytes /\ csp' = csp /\ op_tally op' = op_tally op.
Proof.
  induction n as [| n IH]; intros k op csp w ok op' csp' w' Hk Hn Hf H.
  - change (fifo_loop env 0 numbytes k op csp w)
      with (if negb (k <? numbytes) then (Some k, op, csp, w)
            else (Some k, op, csp, w)) in H.
    assert (k = numbytes) by lia. subst k.
    destruct (negb (numbytes <? numbytes)); injection H as <- <- <- <-;
      repeat split.
  - change (fifo_loop env (S n) numbytes k op csp w)
      with (if negb (k <? numbytes) then (Some k, op, csp, w)
            else fifo_step env (fifo_loop env n numbytes) numbytes k op csp w) in H.
    destruct (Z.ltb_spec k numbytes) as [Hlt | Hge]; cbn [negb] in H.
    2: { assert (k = numbytes) by lia. subst k. injection H as <- <- <- <-.
         repeat split. }
    unfold fifo_step in H.
    rewrite (to_int_small (numbytes - k)) in H by (unfold INT_MIN, INT_MAX in *; lia).
    assert (Hr : 0 < rv (env (Read IFILE (numbytes - k)) (tick w)) <= numbytes - k)
      by (apply Hsome; lia).
    unfold sys in H. cbv beta iota in H.
    set (r := env (Read IFILE (numbytes - k)) (tick w)) in *.
    destruct (Z.ltb_spec (rv r) 0) as [? | _]; [lia |].
    destruct (Z.eqb_spec (rv r) 0) as [? | _]; [lia |].
    rewrite (to_int_small (k + rv r)) in H by (unfold INT_MIN, INT_MAX in *; lia).
    apply IH in H; [| lia | lia | lia].
    destruct H as (-> & -> & T). repeat split.
    rewrite T. destruct op. reflexivity.
Qed.

(** X5: reading a chunk from a pipe.  When each [read] gives at least one
    byte and no more than was asked, [cp_read_fifo] goes on reading until
    the chunk is full: it returns 0 with [bytes_read] the whole chunk,
    [icbpt], [ocbpt], [partial_write_bytes] and [leave_after_write] as
    planned, [in_full] raised by [icbpt] and no partial block counted. *)
Theorem fifo_read_fills_chunk (op op' : opts_t) (csp csp' : cp_state_t)
    (w w' : world) (res : Z) :
  0 <= icbpt csp * ibs op <= INT_MAX ->
  cp_read_fifo env op csp w = (res, op', csp', w') ->
  res = 0 /\ bytes_read csp' = icbpt csp * ibs op /\
  (icbpt csp', ocbpt csp', partial_write_bytes csp', leave_after_write csp')
  = (icbpt csp, ocbpt csp, partial_write_bytes csp, leave_after_write csp) /\
  op_tally op' = (to_int64 (in_full op + icbpt csp), in_partial op,
                  out_full op, out_partial op).
Proof.
  intros Hn H. unfold cp_read_fifo in H.
  rewrite (to_int_small (icbpt csp * ibs op)) in H
    by (unfold INT_MIN, INT_MAX in *; lia).
  match type of H with
  | context [fifo_loop env ?n ?nb 0 op ?c w] =>
      destruct (fifo_loop env n nb 0 op c w) as [[[ok op1] csp1] w1] eqn:E
  end.
  apply fifo_loop_fills in E; [| lia | lia | lia].
  destruct E as (-> & -> & T).
  destruct (negb (to_int64 (skip op * ibs op) =? if_filepos csp));
    injection H as <- <- <- <-.
  all: unfold op_tally in *; injection T as T1 T2 T3 T4.
  all: open op1; open csp; cbn in *; subst; repeat split.
Qed.

End FifoRead.

(** X5, witness: 1024 bytes from a pipe that gives 300 bytes at a time. *)
Lemma fifo_read_fills_chunk_witness :
  fst (fst (fst fifo_read_run)) = 0 /\
  bytes_read (snd (fst fifo_read_run)) = 1024 /\
  rev (log (snd fifo_read_run))
  = [Read IFILE 1024; Read IFILE 724; Read IFILE 424; Read IFILE 124].
Proof.
  destruct (fifo_read_fills_chunk (h := linux_h) env_pipe
              (fun n t Hn => conj (proj2 (Z.min_glb_lt_iff n 300 0) (conj Hn eq_refl))
                                  (Z.le_min_l n 300))
              (op_chunk{{in_type := 16}}) (snd (fst (fst fifo_read_run)))
              (cp_state_zero{{icbpt := 2}}{{ocbpt := 1}}) (snd (fst fifo_read_run))
              world0 (snd fifo_read_run) (fst (fst (fst fifo_read_run))))
    as (H1 & H2 & _).
  - vm_compute. split; discriminate.
  - vm_compute. reflexivity.
  - split; [exact H1 |]. split; [exact H2 | vm_compute; reflexivity].
Defined.

Section FifoWrite.

Context {h : ddpt_h} (env : environment).

(** A write to the pipe takes at least one byte and at most what was
    offered. *)
Hypothesis Htakes : forall n t, 0 < n -> 0 < rv (env (Write OFILE n) t) <= n.

Lemma write_loop_all numbytes n :
  forall off op w res e off' op' w',
  0 <= off < numbytes -> numbytes <= INT_MAX ->
  (Z.to_nat (numbytes - off) <= S n)%nat ->
  write_loop env n OFILE true numbytes off op w = (res, e, off', op', w') ->
  off' = numbytes /\ op_frame op' = op_frame op /\ op_tally op' = op_tally op.
Proof.
  induction n as [| n IH]; intros off op w res e off' op' w' Ho Hn Hf H.
  - cbv beta iota fix delta [write_loop] in H.
    rewrite (to_int_small (numbytes - off)) in H by (unfold INT_MIN, INT_MAX in *; lia).
    assert (Hr : 0 < rv (env (Write OFILE (numbytes - off)) (tick w)) <= numbytes - off)
      by (apply Htakes; lia).
    unfold sys in H. cbv beta iota in H. cbn [andb] in H.
    set (r := env (Write OFILE (numbytes - off)) (tick w)) in *.
    destruct (Z.ltb_spec 0 (rv r)) as [_ | ?]; [| lia].
    rewrite (to_int_small (off + rv r)) in H by (unfold INT_MIN, INT_MAX in *; lia).
    destruct (Z.ltb_spec (off + rv r) numbytes) as [? | _]; [lia |].
    injection H as <- <- <- <- <-. repeat split; try lia; destruct op; reflexivity.
  - cbv beta iota fix delta [write_loop] in H.
    rewrite (to_int_small (numbytes - off)) in H by (unfold INT_MIN, INT_MAX in *; lia).
    assert (Hr : 0 < rv (env (Write OFILE (numbytes - off)) (tick w)) <= numbytes - off)
      by (apply Htakes; lia).
    unfold sys in H. cbv beta iota in H. cbn [andb] in H.
    set (r := env (Write OFILE (numbytes - off)) (tick w)) in *.
    destruct (Z.ltb_spec 0 (rv r)) as [_ | ?]; [| lia].
    rewrite (to_int_small (off + rv r)) in H by (unfold INT_MIN, INT_MAX in *; lia).
    destruct (Z.ltb_spec (off + rv r) numbytes) as [Hlt | Hge].
    + apply IH in H; [| lia | lia | lia].
      destruct H as (-> & F & T). repeat split.
      * rewrite F. destruct op. reflexivity.
      * rewrite T. destruct op. reflexivity.
    + injection H as <- <- <- <- <-. repeat split; try lia; destruct op; reflexivity.
Qed.


End FifoWrite.


Section Count.

Context {h : ddpt_h} (Hok : ddpt_h_ok h) (env : environment).

Lemma calc_count_reg_blocks s bs w sz n :
  0 <= rv (env (Fstat s) (tick w)) -> aux (env (Fstat s) (tick w)) = sz ->
  0 < bs <= INT_MAX -> 0 <= sz <= INT64_MAX - INT_MAX ->
  bs * n - bs < sz <= bs * n ->
  calc_count_reg env s bs w = (n, snd (sys env (Fstat s) w)).
Proof.
  intros Hr Ha Hb Hs Hn. unfold calc_count_reg, sys. cbv beta iota. cbn [snd].
  destruct (Z.ltb_spec (rv (env (Fstat s) (tick w))) 0) as [? | _]; [lia |].
  rewrite Ha.
  pose proof (Z.quot_rem' sz bs) as Hq.
  pose proof (Z.rem_bound_pos sz bs ltac:(lia) ltac:(lia)) as Hm.
  assert (Hq0 : 0 <= Z.quot sz bs) by (apply Z.quot_pos; lia).
  rewrite (to_int_small (Z.rem sz bs)) by (unfold INT_MIN, INT_MAX in *; lia).
  unfold nz. destruct (Z.eqb_spec (Z.rem sz bs) 0) as [E | E]; cbn [negb].
  - f_equal. nia.
  - rewrite to_int64_small by (unfold INT64_MIN, INT64_MAX, INT_MAX in *; nia).
    f_equal. nia.
Qed.

(** X7: the size of a regular file in blocks.  When [fstat] succeeds on a
    file of [sz] bytes, [calc_count_reg] gives the least number [n] of
    blocks of [bs] bytes that hold the file: [bs * (n - 1) < sz <= bs * n]
    for a non-empty file, and 0 for an empty one. *)
Theorem calc_count_reg_rounds_up (s : side) (bs : Z) (w : world) :
  0 <= rv (env (Fstat s) (tick w)) ->
  0 < bs <= INT_MAX ->
  0 <= aux (env (Fstat s) (tick w)) <= INT64_MAX - INT_MAX ->
  bs * fst (calc_count_reg env s bs w) - bs < aux (env (Fstat s) (tick w))
    <= bs * fst (calc_count_reg env s bs w) /\
  (aux (env (Fstat s) (tick w)) = 0 -> fst (calc_count_reg env s bs w) = 0).
Proof.
  intros Hr Hb Hs.
  set (sz := aux (env (Fstat s) (tick w))) in *.
  set (n := Z.quot sz bs + (if Z.rem sz bs =? 0 then 0 else 1)).
  pose proof (Z.quot_rem' sz bs) as Hq.
  pose proof (Z.rem_bound_pos sz bs ltac:(lia) ltac:(lia)) as Hm.
  assert (Hn : bs * n - bs < sz <= bs * n).
  { unfold n. destruct (Z.eqb_spec (Z.rem sz bs) 0); nia. }
  rewrite (calc_count_reg_blocks s bs w sz n Hr eq_refl Hb Hs Hn). cbn [fst].
  split; [exact Hn |]. intros Hz. nia.
Qed.

Lemma ceil_blocks (sz bs : Z) :
  0 <= sz -> 0 < bs ->
  exists n, 0 <= n /\ bs * n - bs < sz <= bs * n.
Proof.
  intros Hs Hb. exists (Z.quot sz bs + (if Z.rem sz bs =? 0 then 0 else 1)).
  pose proof (Z.quot_rem' sz bs) as Hq.
  pose proof (Z.rem_bound_pos sz bs ltac:(lia) ltac:(lia)) as Hm.
  assert (Hq0 : 0 <= Z.quot sz bs) by (apply Z.quot_pos; lia).
  destruct (Z.eqb_spec (Z.rem sz bs) 0); nia.
Qed.

Section Regular.

Variables si so : Z.

Hypothesis Hin : forall t,
  0 <= rv (env (Fstat IFILE) t) /\ aux (env (Fstat IFILE) t) = si.

Hypothesis Hout : forall t,
  0 <= rv (env (Fstat OFILE) t) /\ aux (env (Fstat OFILE) t) = so.

Lemma calc_count_regular op w n :
  in_type op = FT_REG -> out_type op = FT_REG -> dd_count op < 0 ->
  0 < ibs op <= INT_MAX -> 0 < obs op <= INT_MAX ->
  0 <= si <= INT64_MAX - INT_MAX -> 0 <= so <= INT64_MAX - INT_MAX ->
  ibs op * n - ibs op < si <= ibs op * n ->
  exists m w2, 0 <= m <= INT64_MAX /\ calc_count env op w = (0, n, m, w2).
Proof.
  intros Hi Ho Hd Hib Hob Hsi Hso Hn.
  destruct (ceil_blocks so (obs op)) as (m & Hm0 & Hm); [lia | lia |].
  exists m. eexists. split; [unfold INT64_MAX, INT_MAX in *; nia |].
  assert (Hdd : (0 <? dd_count op) = false) by (apply Z.ltb_ge; lia).
  unfold calc_count, calc_count_in. rewrite Hi, Hdd.
  rewrite (ft_reg_pt h Hok), (ft_reg_block h Hok), (ft_reg_bit h Hok).
  cbn [andb]. cbv iota beta.
  rewrite (calc_count_reg_blocks IFILE (ibs op) w si n); try lia;
    try apply (Hin (tick w)).
  change (nz 0) with false. cbv iota beta.
  unfold calc_count_out. rewrite Ho, Hdd.
  rewrite (ft_reg_pt h Hok), (ft_reg_block h Hok), (ft_reg_bit h Hok).
  cbn [andb]. cbv iota beta.
  rewrite (calc_count_reg_blocks OFILE (obs op) _ so m); try lia;
    try apply Hout.
  reflexivity.
Qed.

Lemma count_derive_regular op n m :
  out_type op = FT_REG -> 0 < ibs op <= INT_MAX ->
  0 < n -> ibs op * n <= INT64_MAX -> 0 <= m <= INT64_MAX ->
  0 <= skip op -> 0 <= seek op ->
  count_derive op n m
  = op{{dd_count := if (0 <? skip op) && (skip op <? n) then n - skip op else n}}.
Proof.
  intros Ho Hib Hn Hmax Hm Hsk Hse. unfold count_derive.
  set (n' := if nz (skip op) && (skip op <? n) then to_int64 (n - skip op) else n).
  set (m' := if nz (seek op) && (seek op <? m) then to_int64 (m - seek op) else m).
  assert (En : n' = if (0 <? skip op) && (skip op <? n) then n - skip op else n).
  { unfold n', nz.
    destruct (Z.eqb_spec (skip op) 0) as [E | E], (Z.ltb_spec 0 (skip op));
      try lia; cbn [negb andb]; [reflexivity |].
    destruct (Z.ltb_spec (skip op) n); [| reflexivity].
    apply to_int64_small. unfold INT64_MIN, INT64_MAX, INT_MAX in *. nia. }
  assert (Hn' : 0 < n' <= n).
  { rewrite En. destruct ((0 <? skip op) && (skip op <? n)) eqn:E; [| lia].
    apply andb_prop in E. destruct E as [E1 E2].
    apply Z.ltb_lt in E1, E2. lia. }
  assert (Hm' : 0 <= m').
  { unfold m'. destruct (nz (seek op) && (seek op <? m)) eqn:E; [| lia].
    apply andb_prop in E. destruct E as [_ E2]. apply Z.ltb_lt in E2.
    rewrite to_int64_small by (unfold INT64_MIN, INT64_MAX in *; lia). lia. }
  rewrite <- En. clearbody n' m'.
  destruct (Z.ltb_spec m' 0) as [? | _]; [lia |]. cbn [andb].
  rewrite andb_false_r.
  destruct (Z.ltb_spec 0 n') as [_ | ?]; [| lia].
  rewrite (to_int64_small (ibs op * n'))
    by (unfold INT64_MIN, INT64_MAX, INT_MAX in *; nia).
  destruct (Z.eqb_spec (ibs op * n') 0) as [? | _]; [nia |].
  rewrite Ho, Z.eqb_refl. cbn [negb]. rewrite andb_false_r. reflexivity.
Qed.


End Regular.

End Count.

(** X7, witness: a file of 100 bytes is one block of 512 bytes. *)
Lemma calc_count_reg_rounds_up_witness :
  fst (calc_count_reg env_files OFILE 512 world0) = 1 /\
  512 * fst (calc_count_reg env_files OFILE 512 world0) - 512
  < aux (env_files (Fstat OFILE) (tick world0))
  <= 512 * fst (calc_count_reg env_files OFILE 512 world0).
Proof.
  split; [vm_compute; reflexivity |].
  apply (calc_count_reg_rounds_up env_files OFILE 512 world0).
  - vm_compute. discriminate.
  - vm_compute. split; [reflexivity | discriminate].
  - vm_compute. split; discriminate.
Defined.


Arguments san_kept : simpl never.

Section Sanity.

Context {h : ddpt_h} (Hok : ddpt_h_ok h).

Lemma cl_defaults_sizes op :
  ibs (cl_defaults op) <> 0 /\ obs (cl_defaults op) <> 0 /\
  skip (cl_defaults op) = skip op /\ oflagp (cl_defaults op) = oflagp op.
Proof.
  pose proof (def_block_size_pos h Hok) as Hdef.
  open op. unfold cl_defaults. cbn.
  destruct (Z.eqb_spec ibs 0), (Z.eqb_spec obs 0); cbn;
    destruct (bpt_given =? 0); cbn; repeat split; lia.
Qed.

Lemma cl_trunc_kept op bad op' :
  cl_trunc op = (bad, op') ->
  (ibs op', obs op', bpt_i op', skip op', strunc (oflagp op'), sparse (oflagp op'),
   wsame16 (oflagp op'))
  = (ibs op, obs op, bpt_i op, skip op, strunc (oflagp op), sparse (oflagp op),
     wsame16 (oflagp op)) /\
  (bad = false ->
   trunc (oflagp op') <> 0 ->
   resume (oflagp op') = 0 /\ append (oflagp op') = 0 /\ sparing (oflagp op') = 0).
Proof.
  unfold cl_trunc, nz. intros H. open op; open oflagp. cbn in H.
  repeat match type of H with
  | context [?a =? 0] => destruct (Z.eqb_spec a 0); cbn [negb] in H
  end.
  all: injection H as <- <-; cbn; split; [reflexivity |]; intros; try discriminate;
    try lia.
Qed.

Lemma cl_self_kept op bad op' :
  cl_self op = (bad, op') ->
  san_kept op' = san_kept op /\
  sparse (oflagp op') = sparse (oflagp op).
Proof.
  intros H. open op; open oflagp. cbv beta delta [cl_self] in H. sx H.
  all: norm H; split_conds H; injection H as <- <-; split; reflexivity.
Qed.

Lemma cl_implied_sparse_kept op :
  san_kept (cl_implied_sparse op) = san_kept op /\
  (strunc (oflagp op) <> 0 -> sparse (oflagp (cl_implied_sparse op)) <> 0).
Proof.
  remember (cl_implied_sparse op) as r eqn:H. symmetry in H.
  open op; open oflagp. cbv beta delta [cl_implied_sparse] in H. sx H.
  all: norm H; split_conds H; subst r; cbn; split; try reflexivity; intros Hs.
  all: bools; try lia.
  all: repeat match goal with E : _ = 0 |- _ => rewrite E end.
  all: change (to_int (0 + 1)) with 1; lia.
Qed.


End Sanity.


(** ** Opening the output *)

(** The calls that a log [new] holds on top of [old]. *)
Ltac prefix new old :=
  match new with
  | _ => let _ := match goal with _ => constr_eq new old end in constr:(@nil call)
  | ?a :: ?r => let t := prefix r old in constr:(a :: t)
  end.

Section OpenOf.

Context {h : ddpt_h} (env : environment).

(** X10: what [open_of] may destroy.  The calls it makes come before those
    already in the log.  Among them, the output is opened with [O_TRUNC]
    only when [oflag=trunc] is set, [nowrite] is not, and [seek] is not
    positive; and an [ftruncate] is made only with [oflag=trunc] set,
    [nowrite] not and [seek > 0], and then to the positive offset
    [seek * obs]: what lies before the place where the copy starts to
    write is kept. *)
Theorem open_of_keeps_data_before_seek (op : opts_t) (w : world) :
  exists l,
    log (snd (open_of env op w)) = l ++ log w /\
    (In (Open OFILE true) l ->
     trunc (oflagp op) <> 0 /\ nowrite (oflagp op) = 0 /\ seek op <= 0) /\
    (forall off, In (Ftruncate off) l ->
     off = to_int64 (seek op * obs op) /\ 0 < off /\ 0 < seek op /\
     trunc (oflagp op) <> 0 /\ nowrite (oflagp op) = 0).
Proof.
  destruct (open_of env op w) as [[fd op'] w'] eqn:H. cbn [snd].
  open op; open oflagp; open w.
  cbv beta delta [open_of dd_filetype open_flock] in H. sx H.
  all: norm H; split_conds H; injection H as <- <- <-; cbn.
  all: match goal with
       | |- ex (fun l => ?new = l ++ ?old /\ @?P l) =>
           let l := prefix new old in exists l
       end.
  all: split; [reflexivity |].
  all: split; [intros Hin | intros off Hin]; cbn in Hin;
    repeat match goal with
    | H : _ \/ _ |- _ => destruct H as [H | H]
    | H : False |- _ => destruct H
    end; try discriminate.
  all: try (injection Hin as Hin; try discriminate).
  all: bools; repeat split; try lia; try congruence.
Qed.

End OpenOf.

(** ** Lists of flags *)

Lemma comma_words_cons (s : string) : exists w r, comma_words s = w :: r.
Proof.
  induction s as [| c s (w & r & IH)]; cbn [comma_words].
  - eauto.
  - destruct (Ascii.eqb c ","); [eauto |]. rewrite IH. eauto.
Qed.

Lemma comma_words_app (a b : string) :
  comma_words (a ++ "," ++ b) = comma_words a ++ comma_words b.
Proof.
  induction a as [| c a IH].
  - reflexivity.
  - change (String c a ++ "," ++ b)%string with (String c (a ++ "," ++ b)).
    cbn [comma_words]. destruct (Ascii.eqb c ",").
    + rewrite IH. reflexivity.
    + rewrite IH. destruct (comma_words_cons a) as (w & r & E). rewrite E.
      reflexivity.
Qed.

Lemma substring_all (s : string) (n : nat) :
  (String.length s <= n)%nat -> substring 0 n s = s.
Proof.
  revert n. induction s as [| c s IH]; intros n Hn.
  - destruct n; reflexivity.
  - destruct n as [| n]; [cbn in Hn; lia |].
    cbn [substring]. rewrite IH by (cbn in Hn; lia). reflexivity.
Qed.

Lemma length_app (a b : string) :
  String.length (a ++ b) = (String.length a + String.length b)%nat.
Proof. induction a as [| c a IH]; cbn; [reflexivity | now rewrite IH]. Qed.

Lemma joined_not_empty (a b : string) : String.eqb (a ++ "," ++ b) "" = false.
Proof. destruct a; reflexivity. Qed.

Lemma flag_word_empty fp pp : flag_word "" fp pp = None.
Proof. reflexivity. Qed.

Lemma conv_word_empty ifp ofp : conv_word "" ifp ofp = None.
Proof. reflexivity. Qed.

Lemma flags_loop_app (u v : list string) :
  forall fp pp,
  flags_loop (u ++ v) fp pp =
  let '(r, fp1, pp1) := flags_loop u fp pp in
  if r =? 0 then flags_loop v fp1 pp1 else (1, fp1, pp1).
Proof.
  induction u as [| w u IH]; intros fp pp; [reflexivity |].
  cbn [app flags_loop]. destruct (flag_word w fp pp) as [[fp' pp'] |].
  - apply IH.
  - reflexivity.
Qed.

Lemma conv_loop_app (u v : list string) :
  forall ifp ofp,
  conv_loop (u ++ v) ifp ofp =
  let '(r, i1, o1) := conv_loop u ifp ofp in
  if r =? 0 then conv_loop v i1 o1 else (1, i1, o1).
Proof.
  induction u as [| w u IH]; intros ifp ofp; [reflexivity |].
  cbn [app conv_loop]. destruct (conv_word w ifp ofp) as [[i' o'] |].
  - apply IH.
  - reflexivity.
Qed.

(** X11: a list of flags is read from left to right, one word after the
    other.  For [a,b] that fits the buffer of 256 bytes, [process_flags]
    does what it does for [a] and then, if [a] was accepted, what it does
    for [b] on the counters that [a] has left; if a word of [a] is not
    known, the result is 1 with the counters as the words before it have
    left them, and [b] is not looked at. *)
Theorem process_flags_composes (a b : string) (fp : flags_t) (pp : pt_flags_t) :
  (String.length a + 1 + String.length b <= 255)%nat ->
  process_flags (a ++ "," ++ b) fp pp =
  let '(r, fp1, pp1) := process_flags a fp pp in
  if r =? 0 then process_flags b fp1 pp1 else (1, fp1, pp1).
Proof.
  intros Hlen. unfold process_flags, strncpy_buff.
  rewrite (substring_all (a ++ "," ++ b))
    by (rewrite !length_app; cbn [String.length]; lia).
  rewrite (substring_all a), (substring_all b) by lia.
  rewrite joined_not_empty, comma_words_app, flags_loop_app.
  destruct a as [| c a].
  - cbn [comma_words flags_loop String.eqb]. rewrite flag_word_empty. reflexivity.
  - change (String.eqb (String c a) "") with false. cbv iota.
    destruct (flags_loop (comma_words (String c a)) fp pp) as [[r fp1] pp1].
    destruct (r =? 0); [| reflexivity].
    destruct b as [| d b]; [| reflexivity].
    cbn [comma_words flags_loop String.eqb]. rewrite flag_word_empty. reflexivity.
Qed.

(** X12: the same for the conversions of [conv=]: [process_conv] on [a,b]
    does what it does for [a] and then, if [a] was accepted, what it does
    for [b]. *)
Theorem process_conv_composes (a b : string) (ifp ofp : flags_t) :
  (String.length a + 1 + String.length b <= 255)%nat ->
  process_conv (a ++ "," ++ b) ifp ofp =
  let '(r, i1, o1) := process_conv a ifp ofp in
  if r =? 0 then process_conv b i1 o1 else (1, i1, o1).
Proof.
  intros Hlen. unfold process_conv, strncpy_buff.
  rewrite (substring_all (a ++ "," ++ b))
    by (rewrite !length_app; cbn [String.length]; lia).
  rewrite (substring_all a), (substring_all b) by lia.
  rewrite joined_not_empty, comma_words_app, conv_loop_app.
  destruct a as [| c a].
  - cbn [comma_words conv_loop String.eqb]. rewrite conv_word_empty. reflexivity.
  - change (String.eqb (String c a) "") with false. cbv iota.
    destruct (conv_loop (comma_words (String c a)) ifp ofp) as [[r i1] o1].
    destruct (r =? 0); [| reflexivity].
    destruct b as [| d b]; [| reflexivity].
    cbn [comma_words conv_loop String.eqb]. rewrite conv_word_empty. reflexivity.
Qed.

(** X11, witness: [oflag=sparse,trim]. *)
Lemma process_flags_composes_witness :
  process_flags "sparse,trim" flags_zero pt_flags_zero =
  (0, flags_zero{{sparse := 1}}{{wsame16 := 1}}, pt_flags_zero).
Proof.
  change "sparse,trim"%string with ("sparse" ++ "," ++ "trim")%string.
  rewrite (process_flags_composes "sparse" "trim" flags_zero pt_flags_zero)
    by (cbn; lia).
  reflexivity.
Defined.

(** X12, witness: [conv=noerror,sparse]. *)
Lemma process_conv_composes_witness :
  process_conv "noerror,sparse" flags_zero flags_zero =
  (0, flags_zero{{coe := 1}}, flags_zero{{sparse := 1}}).
Proof.
  change "noerror,sparse"%string with ("noerror" ++ "," ++ "sparse")%string.
  rewrite (process_conv_composes "noerror" "sparse" flags_zero flags_zero)
    by (cbn; lia).
  reflexivity.
Defined.

(** Whether a word is a flag does not depend on the counters. *)
Lemma flag_word_known w fp pp fp' pp' :
  flag_word w fp pp = None -> flag_word w fp' pp' = None.
Proof.
  unfold flag_word.
  repeat match goal with
  | |- context [if ?c then _ else _] => destruct c; [intros Hc; discriminate Hc |]
  end.
  reflexivity.
Qed.

(** Two flags raise their counters to the same values in either order. *)
Lemma flag_word_commute w1 w2 fp pp :
  match flag_word w1 fp pp, flag_word w2 fp pp with
  | Some (f1, p1), Some (f2, p2) => flag_word w2 f1 p1 = flag_word w1 f2 p2
  | _, _ => True
  end.
Proof.
  destruct fp, pp. unfold flag_word, incr.
  repeat match goal with
  | |- context [String.eqb w1 ?s] => destruct (String.eqb w1 s); cbn [orb]
  end.
  all: repeat match goal with
  | |- context [String.eqb ?w ?s] => destruct (String.eqb w s); cbn [orb]
  end.
  all: try exact I.
  all: reflexivity.
Qed.

Lemma flags_loop_swap w1 w2 ws fp pp f p :
  flags_loop (w1 :: w2 :: ws) fp pp = (0, f, p) ->
  flags_loop (w2 :: w1 :: ws) fp pp = (0, f, p).
Proof.
  cbn [flags_loop]. intros H.
  pose proof (flag_word_commute w1 w2 fp pp) as Hc.
  destruct (flag_word w1 fp pp) as [[f1 p1] |] eqn:E1; [| discriminate H].
  destruct (flag_word w2 fp pp) as [[f2 p2] |] eqn:E2.
  - rewrite <- Hc.
    destruct (flag_word w2 f1 p1) as [[f3 p3] |]; [exact H | discriminate H].
  - rewrite (flag_word_known w2 fp pp f1 p1 E2) in H. discriminate H.
Qed.

Lemma flags_loop_perm (u v : list string) :
  Permutation u v ->
  forall fp pp f p,
  flags_loop u fp pp = (0, f, p) -> flags_loop v fp pp = (0, f, p).
Proof.
  induction 1 as [| w u v _ IH | w1 w2 u | u v t _ IH1 _ IH2];
    intros fp pp f p H.
  - exact H.
  - cbn [flags_loop] in H |- *.
    destruct (flag_word w fp pp) as [[f1 p1] |]; [| discriminate H].
    apply IH, H.
  - apply flags_loop_swap, H.
  - apply IH2, IH1, H.
Qed.

(** X13: the order of the flags in a list does not matter.  If
    [process_flags] accepts an argument, it accepts every argument that
    lists the same words in another order, and leaves the same counters. *)
Theorem process_flags_any_order (a b : string) (fp f : flags_t)
    (pp p : pt_flags_t) :
  (String.length a <= 255)%nat -> (String.length b <= 255)%nat ->
  Permutation (comma_words a) (comma_words b) ->
  process_flags a fp pp = (0, f, p) ->
  process_flags b fp pp = (0, f, p).
Proof.
  intros Ha Hb Hperm. unfold process_flags, strncpy_buff.
  rewrite (substring_all a), (substring_all b) by assumption.
  destruct (String.eqb a "") eqn:Ea; [intros Hc; discriminate Hc |].
  intros H. destruct (String.eqb b "") eqn:Eb.
  - apply String.eqb_eq in Eb. subst b. cbn [comma_words] in Hperm.
    apply Permutation_sym, Permutation_length_1_inv in Hperm.
    rewrite Hperm in H. cbn [flags_loop] in H. rewrite flag_word_empty in H.
    discriminate H.
  - exact (flags_loop_perm _ _ Hperm fp pp f p H).
Qed.

(** X13, witness: [coe,sparse,trim,sparse] and [sparse,trim,coe,sparse]. *)
Lemma process_flags_any_order_witness :
  process_flags "coe,sparse,trim,sparse" flags_zero pt_flags_zero =
  (0, flags_zero{{coe := 1}}{{sparse := 2}}{{wsame16 := 1}}, pt_flags_zero).
Proof.
  apply (process_flags_any_order "sparse,trim,coe,sparse").
  - cbn. lia.
  - cbn. lia.
  - cbv [comma_words Ascii.eqb Bool.eqb].
    apply Permutation_sym, (Permutation_cons_app ["sparse"; "trim"]%string ["sparse"]%string).
    reflexivity.
  - reflexivity.
Defined.

Lemma nw_kept_flags (op op' : opts_t) (w w' : world) :
  nw_kept op' w' = nw_kept op w ->
  out_full op' = out_full op /\ w_data w' = w_data w.
Proof. unfold nw_kept. intros H. injection H as _ H1 _ H2. split; assumption. Qed.

Lemma nw_kept_trans (op op1 op2 : opts_t) (w w1 w2 : world) :
  nw_kept op1 w1 = nw_kept op w -> nw_kept op2 w2 = nw_kept op1 w1 ->
  nw_kept op2 w2 = nw_kept op w.
Proof. congruence. Qed.

Lemma nw_kept_sys {h : ddpt_h} (env : environment) (c : call) (op : opts_t)
    (w : world) :
  is_data_write c = false -> nw_kept op (snd (sys env c w)) = nw_kept op w.
Proof.
  intros Hc. unfold nw_kept, w_data, sys. cbn [snd log filter]. rewrite Hc.
  reflexivity.
Qed.

Section Sparing.

Context {h : ddpt_h} (env : environment).

Hypothesis Hsame : forall n t, rv (env (Memcmp WRKPOS2 0 n) t) = 0.

Lemma cp_sparing_same op csp w ex op' csp' w' :
  cp_sparing env false op csp w = (ex, op', csp', w') ->
  sparing (oflagp op) <> 0 ->
  nw_kept op' w' = nw_kept op w /\ spared ex.
Proof.
  intros H Hsg. unfold cp_sparing in H.
  assert (Hn : nz (sparing (oflagp op)) = true)
    by (unfold nz; destruct (Z.eqb_spec (sparing (oflagp op)) 0);
        [contradiction | reflexivity]).
  rewrite Hn in H.
  cbn [negb andb] in H.
  destruct (if ft_has FT_PT (out_type op) then cp_read_of_pt env op csp w
            else cp_read_of_block_reg env op csp w)
    as [[[res op1] csp1] w1] eqn:E.
  assert (K : nw_kept op1 w1 = nw_kept op w).
  { destruct (ft_has FT_PT (out_type op));
      [eapply cp_read_of_pt_nw | eapply cp_read_of_block_reg_nw]; eassumption. }
  destruct (res =? 0).
  - unfold sys in H. cbv beta iota zeta in H. rewrite Hsame in H.
    change (0 =? 0) with true in H. cbv iota in H.
    injection H as <- <- <- <-. split; [| reflexivity].
    rewrite <- K. apply (nw_kept_sys env (Memcmp WRKPOS2 0 _)). reflexivity.
  - injection H as <- <- <- <-. split; [exact K | exact I].
Qed.

Lemma cp_compare_same op csp w ex op' csp' w' :
  cp_compare env op csp w = (ex, op', csp', w') ->
  sparing (oflagp op) <> 0 -> sparse (oflagp op) = 0 ->
  nw_kept op' w' = nw_kept op w /\ spared ex.
Proof.
  intros H Hsg Hsp. unfold cp_compare in H.
  destruct (if 0 <=? out2fd op then cp_write_of2 env op csp w else (0, op, csp, w))
    as [[[ret op1] csp1] w1] eqn:E.
  assert (K : nw_kept op1 w1 = nw_kept op w /\ oflagp op1 = oflagp op).
  { destruct (0 <=? out2fd op).
    - split; [eapply cp_write_of2_nw; eassumption |].
      apply cp_write_of2_frame in E. destruct E as (E & _).
      apply op_frame_eq in E. destruct E as (G & _).
      apply op_given_fields in G. tauto.
    - injection E as <- <- <- <-. split; reflexivity. }
  destruct K as (K & Ef).
  destruct (nz ret).
  - injection H as <- <- <- <-. split; [exact K | exact I].
  - unfold cp_tests in H. rewrite cp_sparse_off in H by congruence.
    apply cp_sparing_same in H; [| congruence].
    destruct H as (K2 & S). split; [congruence | exact S].
Qed.

Lemma cp_to_write_same cr ibpt obpt op csp w st op' csp' w' :
  cp_to_write env cr ibpt obpt op csp w = (st, op', csp', w') ->
  sparing (oflagp op) <> 0 -> sparse (oflagp op) = 0 ->
  nw_kept op' w' = nw_kept op w /\
  match st with
  | AtWrite sparing_skip _ => sparing_skip = true
  | AtBypass => False
  | Left _ => True
  end.
Proof.
  intros H Hsg Hsp. unfold cp_to_write, process_signals in H.
  remember (cp_plan cr ibpt obpt op csp) as csp0 eqn:E0. clear E0.
  destruct (sys env Signals w) as [r w0] eqn:Es.
  assert (K0 : nw_kept op w0 = nw_kept op w).
  { replace w0 with (snd (sys env Signals w)) by (rewrite Es; reflexivity).
    apply nw_kept_sys. reflexivity. }
  destruct (nz (rv r)).
  { injection H as <- <- <- <-. split; [exact K0 | exact I]. }
  destruct (cp_read env op csp0 w0) as [[[ret op1] csp1] w1] eqn:Er.
  assert (K1 : nw_kept op1 w1 = nw_kept op w0)
    by (eapply cp_read_nw; eassumption).
  apply cp_read_frame in Er. apply op_frame_eq in Er. destruct Er as (G & _).
  apply op_given_fields in G.
  assert (Ef : oflagp op1 = oflagp op) by tauto. clear G.
  destruct (nz ret).
  { injection H as <- <- <- <-. split; [congruence | exact I]. }
  destruct (icbpt csp1 =? 0).
  { injection H as <- <- <- <-. split; [congruence | exact I]. }
  destruct (cp_compare env op1 csp1 w1) as [[[ex op2] csp2] w2] eqn:Ec.
  apply cp_compare_same in Ec; [| congruence ..].
  destruct Ec as (K2 & S).
  destruct ex; injection H as <- <- <- <-; (split; [congruence | exact S || exact I]).
Qed.

Lemma cp_from_write_same b op csp w ex op' csp' w' :
  cp_from_write env true b op csp w = (ex, op', csp', w') ->
  nw_kept op' w' = nw_kept op w.
Proof.
  intros H. unfold cp_from_write, process_signals in H.
  destruct (sys env Signals w) as [r w0] eqn:Es.
  assert (K0 : nw_kept op w0 = nw_kept op w).
  { replace w0 with (snd (sys env Signals w)) by (rewrite Es; reflexivity).
    apply nw_kept_sys. reflexivity. }
  destruct (nz (rv r)).
  { injection H as <- <- <- <-. exact K0. }
  unfold cp_write in H. cbn [orb] in H. change (nz 0) with false in H.
  cbv iota beta zeta in H.
  assert (K1 : nw_kept op' w' = nw_kept
                 (if 0 <? partial_write_bytes csp
                  then op{{out_sparse := to_int64 (out_sparse op + ocbpt csp)}}
                         {{out_sparse_partial := to_int (out_sparse_partial
                             (op{{out_sparse := to_int64 (out_sparse op + ocbpt csp)}}) + 1)}}
                  else op{{out_sparse := to_int64 (out_sparse op + ocbpt csp)}}) w0)
    by (eapply cp_bypass_write_nw; eassumption).
  rewrite <- K0, K1.
  destruct (0 <? partial_write_bytes csp); reflexivity.
Qed.

Lemma do_copy_iter_same cr ibpt obpt op csp w ex op' csp' w' :
  do_copy_iter env cr ibpt obpt op csp w = (ex, op', csp', w') ->
  sparing (oflagp op) <> 0 -> sparse (oflagp op) = 0 ->
  nw_kept op' w' = nw_kept op w.
Proof.
  intros H Hsg Hsp. unfold do_copy_iter in H.
  destruct (cp_to_write env cr ibpt obpt op csp w) as [[[st op1] csp1] w1] eqn:E.
  apply cp_to_write_same in E; [| assumption ..]. destruct E as (K & S).
  destruct st as [a b | | e].
  - subst a. apply cp_from_write_same in H. congruence.
  - destruct S.
  - injection H as <- <- <- <-. exact K.
Qed.

Lemma do_copy_loop_same cr ibpt obpt fuel :
  forall op csp w ex op' csp' w',
  do_copy_loop env fuel cr ibpt obpt op csp w = (ex, op', csp', w') ->
  sparing (oflagp op) <> 0 -> sparse (oflagp op) = 0 ->
  nw_kept op' w' = nw_kept op w.
Proof.
  induction fuel as [| fuel IH]; intros op csp w ex op' csp' w' H Hsg Hsp.
  - change (do_copy_loop env 0 cr ibpt obpt op csp w)
      with (if (0 <? dd_count op) || cr then (LoopFuel, op, csp, w)
            else (LoopReturn 0, op, csp, w)) in H.
    destruct ((0 <? dd_count op) || cr); injection H as <- <- <- <-; reflexivity.
  - change (do_copy_loop env (S fuel) cr ibpt obpt op csp w)
      with (if (0 <? dd_count op) || cr then
              let '(ex, op, csp, w) := do_copy_iter env cr ibpt obpt op csp w in
              match ex with
              | Continue => do_copy_loop env fuel cr ibpt obpt op csp w
              | Break ret => (LoopReturn ret, op, csp, w)
              | Killed sig => (LoopKilled sig, op, csp, w)
              end
            else (LoopReturn 0, op, csp, w)) in H.
    destruct ((0 <? dd_count op) || cr);
      [| injection H as <- <- <- <-; reflexivity].
    destruct (do_copy_iter env cr ibpt obpt op csp w) as [[[e1 op1] csp1] w1] eqn:E1.
    pose proof (do_copy_iter_same _ _ _ _ _ _ _ _ _ _ E1 Hsg Hsp) as K.
    apply do_copy_iter_moved in E1. destruct E1 as (G & _).
    apply op_given_fields in G.
    assert (Ef : oflagp op1 = oflagp op) by tauto. clear G.
    destruct e1.
    + apply IH in H; [| congruence ..]. congruence.
    + injection H as <- <- <- <-. exact K.
    + injection H as <- <- <- <-. exact K.
Qed.

Lemma do_copy_finish_same op csp w op' w' :
  do_copy_finish env op csp w = (op', w') ->
  sparse (oflagp op) = 0 ->
  nw_kept op' w' = nw_kept op w.
Proof.
  intros H Hsp. unfold do_copy_finish in H. rewrite Hsp in H.
  change (nz 0) with false in H. rewrite andb_false_r in H.
  cbv iota beta zeta in H.
  repeat match type of H with
  | (if ?c then _ else _) = _ => destruct c
  end.
  all: injection H as <- <-; try reflexivity.
  all: apply nw_kept_sys; reflexivity.
Qed.

(** X14: [oflag=sparing] (with [sparse] off) onto an output that holds the
    data already.  When every chunk compares equal to what is read from
    the output, [do_copy] puts no data on the output, however the copy
    ends: no [write] on OFILE and no pass-through WRITE is made, and
    [out_full] stays as it was. *)
Theorem sparing_same_data_unwritten (fuel : nat) (op : opts_t) (w : world) :
  sparing (oflagp op) <> 0 -> sparse (oflagp op) = 0 ->
  out_full (snd (fst (do_copy env fuel op w))) = out_full op /\
  filter is_data_write (log (snd (do_copy env fuel op w)))
  = filter is_data_write (log w).
Proof.
  intros Hsg Hsp.
  enough (K : nw_kept (snd (fst (do_copy env fuel op w))) (snd (do_copy env fuel op w))
              = nw_kept op w) by (apply nw_kept_flags in K; exact K).
  unfold do_copy.
  destruct ((dd_count op <=? 0) && negb (nz (reading_fifo op))); [reflexivity |].
  cbv zeta.
  destruct (cp_construct_pt_zero_buff env op
              (Z.quot (to_int (ibs op * bpt_i op)) (obs op)) w)
    as [[ret op0] w0] eqn:E0.
  assert (K0 : nw_kept op0 w0 = nw_kept op w)
    by (eapply cp_construct_pt_zero_buff_nw; eassumption).
  apply cp_construct_pt_zero_buff_frame in E0. apply op_frame_eq in E0.
  destruct E0 as (G & _). apply op_given_fields in G.
  assert (Ef : oflagp op0 = oflagp op /\ bpt_i op0 = bpt_i op) by tauto.
  clear G. destruct Ef as (Ef & Eb).
  destruct (nz ret).
  - destruct (do_copy_end env op0 w0) as [op1 w1] eqn:E1.
    assert (K1 : nw_kept op1 w1 = nw_kept op0 w0)
      by (eapply do_copy_end_nw; eassumption).
    cbn [fst snd]. congruence.
  - destruct (do_copy_loop env fuel _ _ _ op0 cp_state_zero w0)
      as [[[ex op1] csp1] w1] eqn:E1.
    pose proof (do_copy_loop_same _ _ _ _ _ _ _ _ _ _ _ E1) as K1.
    apply do_copy_loop_given in E1. destruct E1 as (G & _).
    apply op_given_fields in G.
    assert (Ef1 : oflagp op1 = oflagp op0) by tauto. clear G.
    specialize (K1 ltac:(congruence) ltac:(congruence)).
    destruct ex; cbn [fst snd]; try congruence.
    destruct (do_copy_finish env op1 csp1 w1) as [op2 w2] eqn:E2.
    apply do_copy_finish_same in E2; [| congruence].
    destruct (do_copy_end env op2 w2) as [op3 w3] eqn:E3.
    assert (K3 : nw_kept op3 w3 = nw_kept op2 w2)
      by (eapply do_copy_end_nw; eassumption).
    cbn [fst snd]. congruence.
Qed.

End Sparing.

(** X14, witness: eight blocks onto an output that holds them: each chunk is
    read from both files and compared, and nothing is written. *)
Lemma sparing_same_data_unwritten_witness :
  fst (fst sparing_run) = LoopReturn 0 /\
  out_sparse (snd (fst sparing_run)) = 4 /\
  out_full (snd (fst (do_copy (h := linux_h) env_same 8 op_sparing world0)))
  = out_full op_sparing /\
  filter is_data_write
    (log (snd (do_copy (h := linux_h) env_same 8 op_sparing world0)))
  = filter is_data_write (log world0).
Proof.
  split; [vm_compute; reflexivity |]. split; [vm_compute; reflexivity |].
  apply (sparing_same_data_unwritten (h := linux_h) env_same).
  - intros n t. reflexivity.
  - vm_compute. discriminate.
  - reflexivity.
Defined.

Lemma div_rounded_up (a b : Z) :
  0 <= a -> 0 < b ->
  a / b + Z.b2z (0 <? a mod b) = (a + b - 1) / b.
Proof.
  intros Ha Hb. pose proof (Z.div_mod a b ltac:(lia)) as E.
  pose proof (Z.mod_pos_bound a b Hb) as Hm.
  destruct (Z.ltb_spec 0 (a mod b)) as [Hr | Hr]; cbn [Z.b2z].
  - apply (Z.div_unique _ _ _ (a mod b - 1)); lia.
  - apply (Z.div_unique _ _ _ (b - 1)); lia.
Qed.

(** Arithmetic that stays within [int64_t] is taken out of [to_int64]. *)
Ltac ints64 :=
  repeat match goal with
  | |- context [to_int64 ?x] =>
      rewrite (to_int64_small x)
        by (unfold INT64_MIN, INT64_MAX, INT_MIN, INT_MAX in *; lia)
  end.

Section Eof.

Context {h : ddpt_h} (Hok : ddpt_h_ok h) (env : environment).

Hypothesis Hsig : forall t, rv (env Signals t) = 0.

Hypothesis Hwrite : forall n t, rv (env (Write OFILE n) t) = n.

Hypothesis Hseek : forall s off t, 0 <= rv (env (Lseek s off) t).

Ltac seeks :=
  repeat match goal with
  | H : context [rv (env (Lseek ?s ?o) ?t)] |- _ =>
      lazymatch goal with
      | _ : 0 <= rv (env (Lseek s o) t) |- _ => fail
      | _ => pose proof (Hseek s o t)
      end
  end.

Lemma cp_read_block_reg_short op csp w got res op' csp' w' :
  coe (iflagp op) = 0 -> 0 < ibs_pi op -> 0 < obs op ->
  0 <= icbpt csp * ibs_pi op <= INT_MAX ->
  0 < got < icbpt csp * ibs_pi op ->
  (forall t, rv (env (Read IFILE (icbpt csp * ibs_pi op)) t) = got) ->
  (ibs_pi op <= got <= icbpt csp * ibs_pi op - ibs_pi op ->
   forall t, rv (env (Read IFILE (ibs_pi op)) t) = 0) ->
  leave_after_write csp = 0 ->
  0 <= in_full op -> in_full op + icbpt csp <= INT64_MAX ->
  0 <= in_partial op < INT_MAX ->
  cp_read_block_reg env op csp w = (res, op', csp', w') ->
  res = 0 /\
  op_tally op' = (in_full op + got / ibs_pi op,
                  in_partial op + Z.b2z (0 <? got mod ibs_pi op),
                  out_full op, out_partial op) /\
  icbpt csp' = got / ibs_pi op + Z.b2z (0 <? got mod ibs_pi op) /\
  ocbpt csp' = got / obs op /\ partial_write_bytes csp' = got mod obs op /\
  leave_after_write csp' = 1 /\ leave_reason csp' = 0 /\
  bytes_out (log w') = bytes_out (log w).
Proof.
  open op; open iflagp; open csp; open w. cbn.
  intros Hcoe Hi Ho Hn Hg Hr Hr2 Hl Hf1 Hf2 Hp H.
  subst coe leave_after_write.
  cbv beta delta [cp_read_block_reg] in H.
  sx H.
  all: ints; rewrite ?Hr in *; seeks; bools; try lia.
  all: try (assert (Hz : forall t, rv (env (Read IFILE ibs_pi) t) = 0)
              by (apply Hr2; lia); rewrite ?Hz in *; try lia).
  all: rewrite ?Z.rem_mod_nonneg, ?Z.quot_div_nonneg in * by lia.
  all: injection H as <- <- <- <-; unfold op_tally, bytes_in, bytes_out; cbn.
  all: assert (Hq : 0 <= got / ibs_pi < icbpt)
         by (split; [apply Z.div_pos; lia | apply Z.div_lt_upper_bound; lia]).
  all: assert (Hic : icbpt <= INT_MAX) by nia.
  all: ints; rewrite ?Z.rem_mod_nonneg by lia.
  all: ints64.
  all: destruct (Z.ltb_spec 0 (got mod ibs_pi)); cbn [Z.b2z]; try lia.
  all: repeat split; try reflexivity; try lia.
  all: repeat match goal with |- (_, _) = (_, _) => f_equal end; lia.
Qed.

Ltac regular :=
  pose proof (ft_has_false _ _ (ft_reg_pt h Hok));
  pose proof (ft_has_false _ _ (ft_reg_fifo h Hok));
  pose proof (ft_has_false _ _ (ft_reg_tape h Hok));
  pose proof (ft_has_false _ _ (ft_reg_block h Hok));
  pose proof (ft_has_false _ _ (ft_reg_dev_null h Hok));
  pose proof (ft_has_true _ _ (ft_reg_bit h Hok)).

Lemma cp_write_block_reg_tail op csp blks w res op' csp' w' :
  out_type op = FT_REG -> nowrite (oflagp op) = 0 -> pad (oflagp op) = 0 ->
  0 < obs_pi op -> 0 <= blks -> 0 <= partial_write_bytes csp ->
  0 < blks * obs_pi op + partial_write_bytes csp <= INT_MAX ->
  0 <= out_full op -> out_full op + blks <= INT64_MAX ->
  0 <= out_partial op < INT_MAX ->
  cp_write_block_reg env op csp 0 blks w = (res, op', csp', w') ->
  res = 0 /\
  op_tally op' = (in_full op, in_partial op, out_full op + blks,
                  out_partial op + Z.b2z (0 <? partial_write_bytes csp)) /\
  (icbpt csp', ocbpt csp', leave_after_write csp', leave_reason csp')
  = (icbpt csp, ocbpt csp, leave_after_write csp, leave_reason csp) /\
  bytes_out (log w')
  = bytes_out (log w) + (blks * obs_pi op + partial_write_bytes csp).
Proof.
  open op; open oflagp; open csp; open w. cbn.
  intros -> Hnw Hpad Ho Hb Hpw Hn Hf1 Hf2 Hp H. regular.
  subst nowrite pad.
  assert (Hbo : 0 <= blks * obs_pi) by nia.
  cbv beta delta [cp_write_block_reg cp_write_result] in H.
  sx H.
  all: orient.
  all: try match goal with
    | Hp : write_loop _ _ _ _ _ _ _ _ = _ |- _ =>
        rewrite write_loop_once in Hp by reflexivity; norm Hp;
        injection Hp; clear Hp; intros; subst
    end.
  all: ints; rewrite ?Hwrite in *; seeks; bools; try lia.
  all: injection H as <- <- <- <-; unfold op_tally, bytes_in, bytes_out; cbn.
  all: ints; ints64.
  all: destruct (Z.ltb_spec 0 partial_write_bytes); cbn [Z.b2z]; try lia.
  all: repeat split; try reflexivity; try lia.
  all: repeat match goal with |- (_, _) = (_, _) => f_equal end; lia.
Qed.

Lemma cp_bypass_write_leaves op csp w ex op' csp' w' :
  leave_after_write csp = 1 -> leave_reason csp = 0 -> 0 < dd_count op ->
  cp_bypass_write env op csp w = (ex, op', csp', w') ->
  ex = Break 0 /\ op_given op' = op_given op /\
  op_pos op' = (to_int64 (skip op + icbpt csp), to_int64 (seek op + ocbpt csp),
                to_int64 (dd_count op - icbpt csp)) /\
  op_tally op' = op_tally op /\ bytes_out (log w') = bytes_out (log w).
Proof.
  intros Hl Hr Hd H. unfold cp_bypass_write in H.
  destruct (do_fadvise env op (bytes_read csp) (bytes_of csp) (bytes_of2 csp) w)
    as [op1 w1] eqn:E.
  pose proof (do_fadvise_tally env _ _ _ _ _ _ _ E) as (T1 & _ & T3).
  apply do_fadvise_frame, op_frame_eq in E. destruct E as (G & S1 & S2 & S3).
  rewrite Hl, Hr in H. change (nz 1) with true in H. cbv iota in H.
  pose proof (tape_short_read_pos h Hok) as Ht.
  destruct (Z.eqb_spec REASON_TAPE_SHORT_READ 0) as [? | _]; [lia |].
  destruct (Z.ltb_spec 0 (dd_count op1)) as [_ | ?]; [| lia].
  injection H as <- <- <- <-.
  open op1. unfold op_given, op_pos, op_tally in *. cbn in *. subst.
  repeat split; try reflexivity; try assumption.
Qed.


End Eof.


Section ReadError.

Context {h : ddpt_h} (Hok : ddpt_h_ok h) (env : environment).

Hypothesis Hsig : forall t, rv (env Signals t) = 0.

Hypothesis Hseek : forall s off t, 0 <= rv (env (Lseek s off) t).

Ltac seeks :=
  repeat match goal with
  | H : context [rv (env (Lseek ?s ?o) ?t)] |- _ =>
      lazymatch goal with
      | _ : 0 <= rv (env (Lseek s o) t) |- _ => fail
      | _ => pose proof (Hseek s o t)
      end
  end.

Lemma cp_read_block_reg_fails op csp w e res op' csp' w' :
  coe (iflagp op) = 0 ->
  (forall n t, rv (env (Read IFILE n) t) < 0 /\ err (env (Read IFILE n) t) = e) ->
  cp_read_block_reg env op csp w = (res, op', csp', w') ->
  res = (if is_eio e then SG_LIB_CAT_MEDIUM_HARD else SG_LIB_CAT_OTHER) /\
  op_tally op' = op_tally op /\ bytes_out (log w') = bytes_out (log w).
Proof.
  open op; open iflagp; open csp; open w. cbn.
  intros Hcoe Hr H. subst coe.
  cbv beta delta [cp_read_block_reg] in H.
  sx H.
  all: repeat match goal with
    | Hx : context [env (Read IFILE ?n) ?t] |- _ =>
        lazymatch goal with
        | _ : rv (env (Read IFILE n) t) < 0 /\ _ |- _ => fail
        | _ => pose proof (Hr n t)
        end
    end.
  all: repeat match goal with Hx : _ /\ _ |- _ => destruct Hx end.
  all: seeks; bools; try lia.
  all: injection H as <- <- <- <-; unfold is_eio.
  all: repeat match goal with
    | Hx : err _ = _ |- _ => rewrite Hx in *
    end.
  all: repeat match goal with
    | Hx : ?a = ?b |- context [?a =? ?b] => rewrite (proj2 (Z.eqb_eq a b) Hx)
    | Hx : ?a <> ?b |- context [?a =? ?b] => rewrite (proj2 (Z.eqb_neq a b) Hx)
    end.
  all: cbn [orb]; repeat split; try reflexivity.
  all: rewrite ?orb_true_r; reflexivity.
Qed.

(** X16: a read that fails, with [coe] off.  In a copy from a regular file,
    when the read of a chunk fails, the pass leaves the loop at once with
    [SG_LIB_CAT_MEDIUM_HARD] if [errno] is [EIO] or [EREMOTEIO] and with
    [SG_LIB_CAT_OTHER] otherwise; nothing is written, no block is counted,
    and [skip], [seek] and [dd_count] stay where they were. *)
Theorem read_error_stops_copy (op op1 : opts_t) (csp csp1 : cp_state_t)
    (w w1 : world) (ex : iter_exit) (ibpt obpt e : Z) :
  in_type op = FT_REG -> coe (iflagp op) = 0 ->
  (forall n t, rv (env (Read IFILE n) t) < 0 /\ err (env (Read IFILE n) t) = e) ->
  do_copy_iter env false ibpt obpt op csp w = (ex, op1, csp1, w1) ->
  ex = Break (if is_eio e then SG_LIB_CAT_MEDIUM_HARD else SG_LIB_CAT_OTHER) /\
  op_tally op1 = op_tally op /\ op_pos op1 = op_pos op /\
  bytes_out (log w1) = bytes_out (log w).
Proof.
  intros Hi Hcoe Hr H.
  unfold do_copy_iter, cp_to_write in H.
  remember (cp_plan false ibpt obpt op csp) as csp0 eqn:E0. clear E0.
  rewrite (process_signals_none env Hsig) in H.
  change (nz 0) with false in H. cbv iota in H.
  destruct (bytes_signals env w) as [_ Bo1].
  set (wa := snd (sys env Signals w)) in *.
  unfold cp_read in H. rewrite Hi in H.
  rewrite (ft_reg_pt h Hok), (ft_reg_fifo h Hok), (ft_reg_tape h Hok) in H.
  destruct (cp_read_block_reg env op csp0 wa) as [[[r op2] csp2] w2] eqn:ER.
  pose proof (cp_read_block_reg_frame env _ _ _ _ _ _ _ ER) as F2.
  apply op_frame_eq in F2. destruct F2 as (_ & S2 & K2 & D2).
  apply (cp_read_block_reg_fails op csp0 wa e) in ER; [| assumption ..].
  destruct ER as (-> & T2 & Bo2).
  pose proof (medium_hard_pos h Hok) as Hm. pose proof (cat_other_pos h Hok) as Hc.
  assert (Hnz : nz (if is_eio e then SG_LIB_CAT_MEDIUM_HARD else SG_LIB_CAT_OTHER)
                = true).
  { unfold nz. destruct (is_eio e);
      match goal with |- negb (?a =? 0) = true =>
        destruct (Z.eqb_spec a 0); [lia | reflexivity] end. }
  rewrite Hnz in H. injection H as <- <- <- <-.
  split; [reflexivity |]. split; [exact T2 |].
  split; [unfold op_pos; congruence | congruence].
Qed.

End ReadError.

(** X16, witness: the first read fails with [EIO]; the pass ends with
    [SG_LIB_CAT_MEDIUM_HARD] and the log holds no write. *)
Lemma read_error_stops_copy_witness :
  fst (fst (fst read_fails_run)) = Break (SG_LIB_CAT_MEDIUM_HARD (ddpt_h := linux_h)) /\
  op_tally (snd (fst (fst read_fails_run))) = op_tally op_chunk /\
  op_pos (snd (fst (fst read_fails_run))) = op_pos op_chunk /\
  rev (log (snd read_fails_run)) = [Signals; Read IFILE 2048].
Proof.
  destruct (read_error_stops_copy (h := linux_h) linux_h_ok env_read_fails
              (fun t => eq_refl) (fun s off t => Z.le_refl 0)
              op_chunk (snd (fst (fst read_fails_run))) cp_state_zero
              (snd (fst read_fails_run)) world0 (snd read_fails_run)
              (fst (fst (fst read_fails_run))) 4 2 5)
    as (H1 & H2 & H3 & _).
  - reflexivity.
  - reflexivity.
  - intros n t. split; reflexivity.
  - vm_compute. reflexivity.
  - split; [exact H1 |]. split; [exact H2 |]. split; [exact H3 |].
    vm_compute. reflexivity.
Defined.
